(** * Verification of the milestone-app API services (services/api/src)

    Shallow embedding of the parts of the Python sources that the
    specification's claims are about: the copy queue (queue.py), the
    scanner state machine (scanner.py), the destination picker and the
    verified copier (copier.py), the matcher's signature lookup
    (matcher.py) with its merge and split operations, the filename and
    path parser (parser.py), the hashing service (hasher.py,
    routers/hash.py) and the quarantine / restore endpoints
    (routers/cleanup.py).

    The catalog tables are modelled as finite maps from row id to a row
    record, the file system as finite maps from path to contents, and
    Python strings as [String.string]. *)

From Stdlib Require Import ZArith Lia Bool List Sorting.Sorted Sorting.Permutation.
From Stdlib Require Import Strings.String Strings.Ascii Strings.Byte.
From stdpp Require Import base gmap sets strings pretty.

Import ListNotations.
Open Scope Z_scope.

(** String concatenation of the Standard Library, written [+++] so that it
    does not clash with list concatenation. *)
Infix "+++" := String.append (right associativity, at level 60).

(* ================================================================== *)
(** ** queue.py: the process-wide queue record *)
(* ================================================================== *)

Module Queue.

(** [_queue_state]; [worker_task] is recorded as whether a task exists. *)
Record queue_state := mkQueue {
  running : bool;
  paused : bool;
  concurrency : Z;
  active_ops : list Z;
  worker_task : bool
}.

Definition initial_queue_state : queue_state :=
  mkQueue false false 2 [] false.

(** [set_concurrency(limit)]:
    [_queue_state["concurrency"] = max(1, min(limit, 10))]. *)
Definition set_concurrency (limit : Z) (q : queue_state) : queue_state :=
  mkQueue q.(running) q.(paused) (Z.max 1 (Z.min limit 10))
          q.(active_ops) q.(worker_task).

End Queue.

(* ================================================================== *)
(** ** scanner.py: the scan state machine *)
(* ================================================================== *)

Module Scanner.

Inductive ScanState := IDLE | RUNNING | PAUSED | CANCELLED | COMPLETED.

Definition ScanState_eqb (a b : ScanState) : bool :=
  match a, b with
  | IDLE, IDLE | RUNNING, RUNNING | PAUSED, PAUSED
  | CANCELLED, CANCELLED | COMPLETED, COMPLETED => true
  | _, _ => false
  end.

Inductive ThrottleLevel := LOW | NORMAL | FAST.

(** The module globals of scanner.py. [scan_tasks] lists the arguments of
    every [run_scan] task created by [asyncio.create_task], newest first;
    [_scan_task] is its head. *)
Record scanner := mkScanner {
  scan_state : ScanState;
  cancel_requested : bool;
  pause_requested : bool;
  scan_tasks : list (option Z * ThrottleLevel)
}.

Definition initial_scanner : scanner := mkScanner IDLE false false [].

(** [start_scan(drive_id, throttle)]. *)
Definition start_scan (drive_id : option Z) (throttle : ThrottleLevel)
    (s : scanner) : bool * scanner :=
  if ScanState_eqb s.(scan_state) RUNNING then (false, s)
  else (true, mkScanner s.(scan_state) s.(cancel_requested)
                        s.(pause_requested)
                        ((drive_id, throttle) :: s.(scan_tasks))).

(** The prologue of [run_scan] when a created task starts running. *)
Definition run_scan_begin (s : scanner) : scanner :=
  mkScanner RUNNING false false s.(scan_tasks).

(** The check at the top of each directory of [scan_directory]: while
    [_pause_requested] the state is [PAUSED] (the task sleeps there);
    otherwise it is set back to [RUNNING]. The cancel branch returns. *)
Definition scan_directory_check (s : scanner) : scanner :=
  if s.(cancel_requested) then s
  else if s.(pause_requested)
  then mkScanner PAUSED s.(cancel_requested) s.(pause_requested) s.(scan_tasks)
  else mkScanner RUNNING s.(cancel_requested) s.(pause_requested) s.(scan_tasks).

(** [pause_scan()]. *)
Definition pause_scan (s : scanner) : bool * scanner :=
  if ScanState_eqb s.(scan_state) RUNNING
  then (true, mkScanner s.(scan_state) s.(cancel_requested) true s.(scan_tasks))
  else (false, s).

(** [resume_scan()]. *)
Definition resume_scan (s : scanner) : bool * scanner :=
  if ScanState_eqb s.(scan_state) PAUSED
  then (true, mkScanner s.(scan_state) s.(cancel_requested) false s.(scan_tasks))
  else (false, s).

(** [cancel_scan()]. *)
Definition cancel_scan (s : scanner) : bool * scanner :=
  if ScanState_eqb s.(scan_state) RUNNING || ScanState_eqb s.(scan_state) PAUSED
  then (true, mkScanner s.(scan_state) true s.(pause_requested) s.(scan_tasks))
  else (false, s).

End Scanner.

(* ================================================================== *)
(** ** queue.py: operation rows and their status updates *)
(* ================================================================== *)

Module Ops.

Inductive OpStatus := Pending | Running | Paused | Completed | Failed | Cancelled.

Definition OpStatus_eqb (a b : OpStatus) : bool :=
  match a, b with
  | Pending, Pending | Running, Running | Paused, Paused
  | Completed, Completed | Failed, Failed | Cancelled, Cancelled => true
  | _, _ => false
  end.

Definition is_terminal (s : OpStatus) : bool :=
  match s with Completed | Failed | Cancelled => true | _ => false end.

(** A row of the [operations] table (the columns the queue touches);
    timestamps are kept as opaque integers. *)
Record op_row := mkOp {
  op_type : string;
  status : OpStatus;
  progress : Z;
  total_size : Z;
  error : option string;
  created_at : Z;
  started_at : option Z;
  completed_at : option Z
}.

Abbreviation op_table := (gmap Z op_row).

(** [update_operation_status(op_id, status, progress, error)]: one
    [UPDATE operations SET ... WHERE id = ?]; no row, no effect. *)
Definition update_operation_status (now op_id : Z) (st : OpStatus)
    (prog : option Z) (err : option string) (db : op_table) : op_table :=
  match db !! op_id with
  | None => db
  | Some r =>
      let started := match st with Running => Some now | _ => r.(started_at) end in
      let completed := if is_terminal st then Some now else r.(completed_at) in
      <[op_id := mkOp r.(op_type) st
                   (match prog with Some p => p | None => r.(progress) end)
                   r.(total_size)
                   (match err with Some e => Some e | None => r.(error) end)
                   r.(created_at) started completed]> db
  end.

(** [pause_operation(op_id)]. *)
Definition pause_operation (now op_id : Z) (db : op_table) : bool * op_table :=
  match db !! op_id with
  | Some r =>
      match r.(status) with
      | Pending | Running => (true, update_operation_status now op_id Paused None None db)
      | _ => (false, db)
      end
  | None => (false, db)
  end.

(** [resume_operation(op_id)]. *)
Definition resume_operation (now op_id : Z) (db : op_table) : bool * op_table :=
  match db !! op_id with
  | Some r =>
      match r.(status) with
      | Paused => (true, update_operation_status now op_id Pending None None db)
      | _ => (false, db)
      end
  | None => (false, db)
  end.

(** [cancel_operation(op_id)]; it also discards the id from
    [_queue_state["active_ops"]]. *)
Definition cancel_operation (now op_id : Z) (db : op_table) (active : list Z)
    : bool * op_table * list Z :=
  match db !! op_id with
  | Some r =>
      match r.(status) with
      | Pending | Running | Paused =>
          (true, update_operation_status now op_id Cancelled None None db,
           List.remove Z.eq_dec op_id active)
      | _ => (false, db, active)
      end
  | None => (false, db, active)
  end.

(** The writes that reach an operation row: the three control calls, and
    the writes of [process_operation] for that operation: the initial
    [update_operation_status(op_id, "running")], the progress callback
    [update_operation_status(op_id, "running", progress=p)] (run as a
    separate task after each chunk), and the final [completed] or
    [failed] write. *)
Inductive action :=
  | APause
  | AResume
  | ACancel
  | AStart
  | AProgress (p : Z)
  | ACompleted
  | AFailed (e : string).

Definition apply_action (now op_id : Z) (a : action) (s : op_table * list Z)
    : op_table * list Z :=
  let '(db, active) := s in
  match a with
  | APause => (snd (pause_operation now op_id db), active)
  | AResume => (snd (resume_operation now op_id db), active)
  | ACancel => let '(_, db', active') := cancel_operation now op_id db active in
               (db', active')
  | AStart => (update_operation_status now op_id Running None None db, op_id :: active)
  | AProgress p => (update_operation_status now op_id Running (Some p) None db, active)
  | ACompleted =>
      let tot := match db !! op_id with Some r => r.(total_size) | None => 0 end in
      (update_operation_status now op_id Completed (Some tot) None db,
       List.remove Z.eq_dec op_id active)
  | AFailed e =>
      (update_operation_status now op_id Failed None (Some e) db,
       List.remove Z.eq_dec op_id active)
  end.

(** A sequence of writes to one operation, all at time [now]. *)
Fixpoint run_actions (now op_id : Z) (acts : list action) (s : op_table * list Z)
    : op_table * list Z :=
  match acts with
  | [] => s
  | a :: rest => run_actions now op_id rest (apply_action now op_id a s)
  end.

Definition is_control (a : action) : bool :=
  match a with APause | AResume | ACancel => true | _ => false end.

Definition status_of (op_id : Z) (db : op_table) : option OpStatus :=
  option_map status (db !! op_id).

End Ops.

(* ================================================================== *)
(** ** queue.py: fetching pending operations *)
(* ================================================================== *)

Module Fetch.
Import Ops.

(** SQLite answers the query by a full scan of [operations] in rowid
    order ([id] is the rowid), keeping the rows with
    [status = 'pending']. *)
Fixpoint insert_by_id (x : Z * op_row) (l : list (Z * op_row)) : list (Z * op_row) :=
  match l with
  | [] => [x]
  | y :: l' => if x.1 <=? y.1 then x :: l else y :: insert_by_id x l'
  end.

Definition rowid_scan (db : op_table) : list (Z * op_row) :=
  fold_right insert_by_id [] (map_to_list db).

Definition pending_rows (db : op_table) : list (Z * op_row) :=
  List.filter (fun kr => OpStatus_eqb kr.2.(status) Pending) (rowid_scan db).

(** [ORDER BY o.created_at ASC]: SQLite's sorter keeps scan order among
    rows with equal [created_at]; each scanned row is inserted after the
    rows already sorted with a key [<=] its own. *)
Fixpoint insert_created (x : Z * op_row) (l : list (Z * op_row)) : list (Z * op_row) :=
  match l with
  | [] => [x]
  | y :: l' => if y.2.(created_at) <=? x.2.(created_at)
               then y :: insert_created x l' else x :: l
  end.

Definition order_by_created (l : list (Z * op_row)) : list (Z * op_row) :=
  fold_left (fun acc x => insert_created x acc) l [].

(** SQLite's [LIMIT ?]: a negative limit means no limit. *)
Definition sql_limit (limit : Z) {A} (l : list A) : list A :=
  if limit <? 0 then l else firstn (Z.to_nat limit) l.

(** [get_pending_operations(limit)]:
    [SELECT ... WHERE o.status = 'pending' ORDER BY o.created_at ASC LIMIT ?].
    (The LEFT JOINs add columns only and are left out.) *)
Definition get_pending_operations (limit : Z) (db : op_table) : list (Z * op_row) :=
  sql_limit limit (order_by_created (pending_rows db)).

(** One dispatching iteration of [queue_worker] when it reaches the fetch:
    with [len(active_ops) < concurrency] it fetches
    [concurrency - active_count] pending operations and starts those not
    already active, in the fetched order. *)
Definition queue_worker_dispatch (q : Queue.queue_state) (db : op_table)
    (fetched dispatched : list (Z * op_row)) : Prop :=
  q.(Queue.running) = true /\ q.(Queue.paused) = false /\
  Z.of_nat (length q.(Queue.active_ops)) < q.(Queue.concurrency) /\
  fetched = get_pending_operations
    (q.(Queue.concurrency) - Z.of_nat (length q.(Queue.active_ops))) db /\
  dispatched = List.filter (fun kr => negb (bool_decide (kr.1 ∈ q.(Queue.active_ops))))
                           fetched.

(** The order the specification asks for: [created_at] ascending, ties
    broken by ascending id. *)
Definition created_then_id_lt (a b : Z * op_row) : Prop :=
  a.2.(created_at) < b.2.(created_at) \/
  (a.2.(created_at) = b.2.(created_at) /\ a.1 < b.1).

End Fetch.

(* ================================================================== *)
(** ** copier.py: [get_destination_drives] *)
(* ================================================================== *)

Module Picker.

Record drive := mkDrive { drive_id : Z; mount_path : string }.

Record user_rule := mkRule { rule_type : string; rule_drive_id : Z; priority : Z }.

(** A candidate: the drive dict extended with [free_space],
    [total_space] and [score]. *)
Record candidate := mkCand {
  c_drive : drive;
  free_space : Z;
  total_space : Z;
  score : Z
}.

(** The catalog and disk snapshot the function reads: the joined source
    row ([drive_id] of its root and [size], possibly NULL), all drives,
    the rules in [ORDER BY priority DESC] order, and
    [shutil.disk_usage] as a partial function (None when it raises). *)
Record snapshot := mkSnap {
  source_file : Z -> option (Z * option Z);
  all_drives : list drive;
  rules : list user_rule;
  disk_usage : string -> option (Z * Z)
}.

Definition GiB : Z := 1024 ^ 3.
Definition preferred_boost : Z := 10 * 1024 ^ 5.

(** [f"prefer_{media_type}"] (Python prints [None] for a missing type). *)
Definition prefer_type (media_type : option string) : string :=
  "prefer_" +++ match media_type with Some s => s | None => "None" end.

(** The rule loop: [denylist] and [preferred] drive ids. *)
Fixpoint build_lists (media_type : option string) (rs : list user_rule)
    : list Z * list Z :=
  match rs with
  | [] => ([], [])
  | r :: rest =>
      let '(deny, pref) := build_lists media_type rest in
      if String.eqb r.(rule_type) "denylist" then (r.(rule_drive_id) :: deny, pref)
      else if String.eqb r.(rule_type) (prefer_type media_type)
      then (deny, r.(rule_drive_id) :: pref)
      else if String.eqb r.(rule_type) "prefer_all"
      then (deny, r.(rule_drive_id) :: pref)
      else (deny, pref)
  end.

(** IEEE double values as CPython computes with them: a finite value
    [m * 2^e], the two infinities and NaN (signed zeros play no part here). *)
Inductive pyfloat := Fin (m e : Z) | PosInf | NegInf | NaN.

(** [m * 2^e] rounded to 53 significant bits, ties to even; a result of
    magnitude [2^1024] or more is an infinity. The values here are
    integers or multiples of [0.1], so subnormals do not arise. *)
Definition round53 (m e : Z) : pyfloat :=
  let a := Z.abs m in
  let s := Z.max 0 (Z.log2 a + 1 - 53) in
  let q := Z.shiftr a s in
  let r := a - Z.shiftl q s in
  let q' := if (2 ^ s <? 2 * r) || ((2 * r =? 2 ^ s) && Z.odd q) then q + 1 else q in
  if (0 <? q') && (1024 <=? Z.log2 q' + (e + s))
  then (if m <? 0 then NegInf else PosInf)
  else Fin (Z.sgn m * q') (e + s).

(** [float(n)]: [None] is the [OverflowError] of an int too large. *)
Definition float_of_int (n : Z) : option pyfloat :=
  match round53 n 0 with
  | Fin m e => Some (Fin m e)
  | _ => None
  end.

(** The double nearest to [0.1]: [3602879701896397 / 2^55]. *)
Definition point1 : pyfloat := Fin 3602879701896397 (-55).

Definition is_neg (x : pyfloat) : bool :=
  match x with Fin m _ => m <? 0 | NegInf => true | _ => false end.

(** Float multiplication. *)
Definition fmul (x y : pyfloat) : pyfloat :=
  match x, y with
  | Fin m1 e1, Fin m2 e2 => round53 (m1 * m2) (e1 + e2)
  | NaN, _ | _, NaN => NaN
  | Fin m _, _ | _, Fin m _ =>
      if m =? 0 then NaN else if xorb (is_neg x) (is_neg y) then NegInf else PosInf
  | _, _ => if xorb (is_neg x) (is_neg y) then NegInf else PosInf
  end.

(** Float addition. *)
Definition fadd (x y : pyfloat) : pyfloat :=
  match x, y with
  | Fin m1 e1, Fin m2 e2 =>
      let e := Z.min e1 e2 in round53 (m1 * 2 ^ (e1 - e) + m2 * 2 ^ (e2 - e)) e
  | NaN, _ | _, NaN => NaN
  | PosInf, NegInf | NegInf, PosInf => NaN
  | PosInf, _ | _, PosInf => PosInf
  | NegInf, _ | _, NegInf => NegInf
  end.

(** [z < x] for an int [z] and a float [x], compared exactly as CPython
    does. *)
Definition int_lt_float (z : Z) (x : pyfloat) : bool :=
  match x with
  | Fin m e => if 0 <=? e then z <? m * 2 ^ e else z * 2 ^ (- e) <? m
  | PosInf => true
  | NegInf | NaN => false
  end.

(** A Python number: an int or a float. *)
Inductive pynum := PyInt (z : Z) | PyFloat (x : pyfloat).

(** [file_size + max(10 * 1024**3, file_size * 0.1)]. [file_size * 0.1]
    converts [file_size] to float ([None]: the [OverflowError]); [max]
    keeps the int [10 * 1024**3] unless the product is strictly greater;
    adding an int to a float converts the int again. *)
Definition min_required (file_size : Z) : option pynum :=
  match float_of_int file_size with
  | None => None
  | Some fs =>
      let p := fmul fs point1 in
      if int_lt_float (10 * GiB) p then Some (PyFloat (fadd fs p))
      else Some (PyInt (file_size + 10 * GiB))
  end.

(** [free_space < min_required]; an exception in the [try] block skips
    the drive as well. *)
Definition below_required (free file_size : Z) : bool :=
  match min_required file_size with
  | None => true
  | Some (PyInt z) => free <? z
  | Some (PyFloat x) => int_lt_float free x
  end.

(** The filter/score loop over [all_drives]. *)
Fixpoint score_drives (disk : string -> option (Z * Z)) (source_drive : Z)
    (file_size : Z) (deny pref : list Z) (ds : list drive) : list candidate :=
  match ds with
  | [] => []
  | d :: rest =>
      let tl := score_drives disk source_drive file_size deny pref rest in
      if Z.eqb d.(drive_id) source_drive then tl
      else if bool_decide (d.(drive_id) ∈ deny) then tl
      else match disk d.(mount_path) with
           | None => tl
           | Some (free, total) =>
               if below_required free file_size then tl
               else let sc := if bool_decide (d.(drive_id) ∈ pref)
                              then free + preferred_boost else free in
                    mkCand d free total sc :: tl
           end
  end.

(** [candidates.sort(key=lambda d: d["score"], reverse=True)]: a stable
    sort on descending score (equal scores keep their order). *)
Fixpoint insert_desc (c : candidate) (l : list candidate) : list candidate :=
  match l with
  | [] => [c]
  | y :: l' => if y.(score) <? c.(score) then c :: l else y :: insert_desc c l'
  end.

Definition sort_desc (l : list candidate) : list candidate :=
  fold_left (fun acc c => insert_desc c acc) l [].

Definition get_destination_drives (snap : snapshot) (source_file_id : Z)
    (media_type : option string) : list candidate :=
  match snap.(source_file) source_file_id with
  | None => []
  | Some (source_drive, size) =>
      let file_size := match size with Some s => s | None => 0 end in
      let '(deny, pref) := build_lists media_type snap.(rules) in
      sort_desc (score_drives snap.(disk_usage) source_drive file_size deny pref
                              snap.(all_drives))
  end.

(** Drives named by a rule of the given type. *)
Definition rule_names (rs : list user_rule) (ty : string) (id : Z) : Prop :=
  exists r, In r rs /\ r.(rule_type) = ty /\ r.(rule_drive_id) = id.

End Picker.

(* ================================================================== *)
(** ** matcher.py: [find_matching_item] *)
(* ================================================================== *)

Module Matcher.

Inductive ItemStatus := Auto | NeedsVerification | Verified.

Record item_row := mkItem { item_type : string; item_status : ItemStatus }.

Record file_sigs := mkSigs { quick_sig : option string; full_hash : option string }.

(** The three tables the lookup joins; [media_item_files] is kept as the
    list of [(media_item_id, file_id)] rows in the order SQLite scans
    them, which decides the row [LIMIT 1] returns. *)
Record catalog := mkCatalog {
  media_items : gmap Z item_row;
  media_item_files : list (Z * Z);
  files : gmap Z file_sigs
}.

(** Python truthiness of an [Optional[str]]: [None] and [""] are false. *)
Definition truthy (o : option string) : bool :=
  match o with Some s => negb (String.eqb s "") | None => false end.

Definition opt_str_eqb (o : option string) (s : string) : bool :=
  match o with Some t => String.eqb t s | None => false end.

(** [SELECT mi.id FROM media_items mi JOIN media_item_files mif ...
     JOIN files f ... WHERE f.<column> = ? LIMIT 1]. *)
Fixpoint first_linked (col : file_sigs -> option string) (v : string)
    (its : gmap Z item_row) (fs : gmap Z file_sigs) (links : list (Z * Z))
    : option Z :=
  match links with
  | [] => None
  | (iid, fid) :: rest =>
      match its !! iid, fs !! fid with
      | Some _, Some f =>
          if opt_str_eqb (col f) v then Some iid
          else first_linked col v its fs rest
      | _, _ => first_linked col v its fs rest
      end
  end.

Definition set_status (iid : Z) (st : ItemStatus) (c : catalog) : catalog :=
  match c.(media_items) !! iid with
  | Some it => mkCatalog (<[iid := mkItem it.(item_type) st]> c.(media_items))
                         c.(media_item_files) c.(files)
  | None => c
  end.

(** [find_matching_item(quick_sig, full_hash)]; returns the item id and
    the catalog after the call. *)
Definition find_matching_item (qs fh : option string) (c : catalog)
    : option Z * catalog :=
  if negb (truthy qs) && negb (truthy fh) then (None, c)
  else
    let primary :=
      match fh with
      | Some h => if truthy fh
                  then first_linked full_hash h c.(media_items) c.(files)
                                    c.(media_item_files)
                  else None
      | None => None
      end in
    match primary with
    | Some iid => (Some iid, c)
    | None =>
        match qs with
        | Some q =>
            if truthy qs then
              match first_linked quick_sig q c.(media_items) c.(files)
                                 c.(media_item_files) with
              | Some iid => (Some iid, set_status iid NeedsVerification c)
              | None => (None, c)
              end
            else (None, c)
        | None => (None, c)
        end
    end.

(** An item linked (through an existing link row) to an existing file
    whose column [col] equals [v]. *)
Definition linked_with (col : file_sigs -> option string) (v : string)
    (c : catalog) (iid : Z) : Prop :=
  exists fid it f, In (iid, fid) c.(media_item_files) /\
    c.(media_items) !! iid = Some it /\ c.(files) !! fid = Some f /\ col f = Some v.

End Matcher.

(* ================================================================== *)
(** ** copier.py: [safe_copy] *)
(* ================================================================== *)

Module Copier.

(** The file system: regular files with their contents, and directories. *)
Record fs := mkFs {
  fs_files : gmap string (list byte);
  fs_dirs : gset string
}.

Definition exists_path (st : fs) (p : string) : bool :=
  bool_decide (is_Some (st.(fs_files) !! p)) || bool_decide (p ∈ st.(fs_dirs)).

Definition is_file (st : fs) (p : string) : bool :=
  bool_decide (is_Some (st.(fs_files) !! p)).

(** [Path.parent] for a '/'-separated path: everything before the last
    separator ("." when there is none, "/" for a top-level entry). *)
Fixpoint last_sep_prefix (s : string) : option string :=
  match s with
  | EmptyString => None
  | String c rest =>
      match last_sep_prefix rest with
      | Some p => Some (String c p)
      | None => if Ascii.eqb c "/"%char then Some EmptyString else None
      end
  end.

Definition parent_of (p : string) : string :=
  match last_sep_prefix p with
  | None => "."
  | Some EmptyString => "/"
  | Some q => q
  end.

(** [dest.with_suffix(dest.suffix + ".tmp")], i.e. [dest_path + ".tmp"]. *)
Definition tmp_of (dest : string) : string := dest +++ ".tmp".

(** The exceptions [safe_copy] raises (or lets escape). *)
Inductive copy_error :=
  | ESourceNotFound      (** [FileNotFoundError("Source file not found")] *)
  | ESourceNotFile       (** [ValueError("Source is not a file")] *)
  | EDestExists          (** [FileExistsError("Destination already exists")] *)
  | EMkdir               (** [mkdir(parents=True, exist_ok=True)] on a file *)
  | EOpenTemp            (** [open(temp_dest, "wb")] on a directory *)
  | ESizeMismatch        (** [ValueError("Size mismatch ...")] *)
  | EHashMismatch        (** [ValueError("Hash mismatch after copy")] *)
  | EUnlinkDest.         (** [dest.unlink()] on a directory *)

(** Errors raised before the [try] block. *)
Definition early_error (e : copy_error) : bool :=
  match e with ESourceNotFound | ESourceNotFile | EDestExists | EMkdir => true
             | _ => false end.

Section SafeCopy.

(** [transfer] gives the bytes that the chunked read/write loop leaves in
    the temporary file for the bytes read from the source (the identity
    for a fault-free device); [sha256] is [hashlib.sha256().hexdigest()]. *)
Variable transfer : list byte -> list byte.
Variable sha256 : list byte -> string.

(** [compute_full_hash(path)]: [None] when the file cannot be read. *)
Definition compute_full_hash (st : fs) (p : string) : option string :=
  option_map sha256 (st.(fs_files) !! p).

(** The [except] block: remove the temp file if it exists; an error of
    [unlink] (a directory) is swallowed. *)
Definition cleanup_temp (tmp : string) (st : fs) : fs :=
  if is_file st tmp then mkFs (delete tmp st.(fs_files)) st.(fs_dirs) else st.

(** The body of the [try] block, from opening both files to the rename. *)
Definition copy_body (src dest : string) (verify_hash : bool) (source_size : nat)
    (st : fs) : (unit + copy_error) * fs :=
  let tmp := tmp_of dest in
  if bool_decide (tmp ∈ st.(fs_dirs)) then (inr EOpenTemp, st)
  else
    (* [open(temp_dest, "wb")] truncates before the first read; when the
       temp path is the source itself the reads then see no bytes *)
    let read := if String.eqb tmp src then []
                else default [] (st.(fs_files) !! src) in
    let written := transfer read in
    let st1 := mkFs (<[tmp := written]> st.(fs_files)) st.(fs_dirs) in
    if negb (Nat.eqb (length written) source_size) then (inr ESizeMismatch, st1)
    else if verify_hash &&
            negb (bool_decide (compute_full_hash st1 src = compute_full_hash st1 tmp))
    then (inr EHashMismatch, st1)
    else if bool_decide (dest ∈ st1.(fs_dirs)) then (inr EUnlinkDest, st1)
    else
      let files2 := delete dest st1.(fs_files) in
      (inl tt, mkFs (delete tmp (<[dest := written]> files2)) st1.(fs_dirs)).

(** [safe_copy(source_path, dest_path, verify_hash, overwrite)]: [inl tt]
    is the [True] return, [inr e] the exception raised; with the file
    system after the call. *)
Definition safe_copy (src dest : string) (verify_hash overwrite : bool) (st : fs)
    : (unit + copy_error) * fs :=
  if negb (exists_path st src) then (inr ESourceNotFound, st)
  else if negb (is_file st src) then (inr ESourceNotFile, st)
  else if exists_path st dest && negb overwrite then (inr EDestExists, st)
  else if is_file st (parent_of dest) then (inr EMkdir, st)
  else
    let st0 := mkFs st.(fs_files) ({[parent_of dest]} ∪ st.(fs_dirs)) in
    let source_size := length (default [] (st0.(fs_files) !! src)) in
    match copy_body src dest verify_hash source_size st0 with
    | (inl tt, st') => (inl tt, st')
    | (inr e, st') => (inr e, cleanup_temp (tmp_of dest) st')
    end.

End SafeCopy.

End Copier.

(* ================================================================== *)
(** ** parser.py: [clean_title] and [parse_filename] *)
(* ================================================================== *)

Module Parser.

Local Open Scope nat_scope.

(** The patterns of parser.py are sequences of quantified character
    classes with capture groups around some of them, which this matcher
    covers: [Rep cls lo hi greedy] is [cls{lo,hi}] ([hi = None] for an
    unbounded repetition; [greedy = false] for the lazy [+?]), [Open k] and
    [Close k] delimit group [k], and [ClassOrEnd cls] is [(?:cls|$)]. The
    matcher backtracks like Python's [re]: a greedy repetition tries the
    longest run first, a lazy one the shortest; the first full path wins. *)
Inductive node :=
  | Rep (cls : ascii -> bool) (lo : nat) (hi : option nat) (greedy : bool)
  | Open (k : nat)
  | Close (k : nat)
  | ClassOrEnd (cls : ascii -> bool).

(** Length of the run of [cls] characters at the start of [s], at most [hi]. *)
Fixpoint run_length (cls : ascii -> bool) (hi : option nat) (s : list ascii) : nat :=
  match hi with
  | Some 0 => 0
  | _ =>
      match s with
      | [] => 0
      | c :: s' =>
          if cls c
          then S (run_length cls (match hi with Some (S h) => Some h | _ => None end) s')
          else 0
      end
  end.

(** [$] without MULTILINE: at the end, or before a final newline. *)
Definition at_end (inp : list ascii) (pos : nat) : bool :=
  Nat.eqb pos (length inp) ||
  (Nat.eqb (S pos) (length inp) && match nth_error inp pos with
                                    | Some c => Ascii.eqb c "010"%char
                                    | None => false end).

(** Group starts and the captured spans (group, (start, end)). *)
Record captures := mkCaps { starts : list (nat * nat); spans : list (nat * (nat * nat)) }.

Fixpoint lookup_nat {A} (k : nat) (l : list (nat * A)) : option A :=
  match l with
  | [] => None
  | (k', v) :: rest => if Nat.eqb k k' then Some v else lookup_nat k rest
  end.

Fixpoint run (ns : list node) (inp : list ascii) (pos : nat) (cs : captures)
    : option captures :=
  match ns with
  | [] => Some cs
  | Rep cls lo hi greedy :: rest =>
      let avail := run_length cls hi (skipn pos inp) in
      let counts := if Nat.ltb avail lo then []
                    else if greedy then rev (seq lo (S (avail - lo)))
                    else seq lo (S (avail - lo)) in
      (fix try_counts (ks : list nat) : option captures :=
         match ks with
         | [] => None
         | k :: ks' =>
             match run rest inp (pos + k) cs with
             | Some r => Some r
             | None => try_counts ks'
             end
         end) counts
  | Open k :: rest => run rest inp pos (mkCaps ((k, pos) :: cs.(starts)) cs.(spans))
  | Close k :: rest =>
      let st := default pos (lookup_nat k cs.(starts)) in
      run rest inp pos (mkCaps cs.(starts) ((k, (st, pos)) :: cs.(spans)))
  | ClassOrEnd cls :: rest =>
      match match nth_error inp pos with
            | Some c => if cls c then run rest inp (S pos) cs else None
            | None => None
            end with
      | Some r => Some r
      | None => if at_end inp pos then run rest inp pos cs else None
      end
  end.

(** [pattern.match(s)]: anchored at the start, not at the end. *)
Definition re_match (ns : list node) (s : list ascii) : option captures :=
  run ns s 0 (mkCaps [] []).

Definition group (s : list ascii) (cs : captures) (k : nat) : list ascii :=
  match lookup_nat k cs.(spans) with
  | Some (a, b) => firstn (b - a) (skipn a s)
  | None => []
  end.

(** Character classes (on the ASCII range of Python's [str]). *)
Definition is_space (c : ascii) : bool :=
  let n := nat_of_ascii c in
  ((9 <=? n) && (n <=? 13))%nat || ((28 <=? n) && (n <=? 32))%nat.
Definition is_digit (c : ascii) : bool :=
  let n := nat_of_ascii c in ((48 <=? n) && (n <=? 57))%nat.
Definition is_upper (c : ascii) : bool :=
  let n := nat_of_ascii c in ((65 <=? n) && (n <=? 90))%nat.
Definition is_lower (c : ascii) : bool :=
  let n := nat_of_ascii c in ((97 <=? n) && (n <=? 122))%nat.
Definition to_upper (c : ascii) : ascii :=
  if is_lower c then ascii_of_nat (nat_of_ascii c - 32) else c.
Definition to_lower (c : ascii) : ascii :=
  if is_upper c then ascii_of_nat (nat_of_ascii c + 32) else c.

Definition any_char (c : ascii) : bool := negb (Ascii.eqb c "010"%char).
(** [[.\s_-]] *)
Definition sep_char (c : ascii) : bool :=
  Ascii.eqb c "."%char || is_space c || Ascii.eqb c "_"%char || Ascii.eqb c "-"%char.
(** A literal character; [ci] matches it under [re.IGNORECASE]. *)
Definition lit (a : ascii) (c : ascii) : bool := Ascii.eqb c a.
Definition ci (a : ascii) (c : ascii) : bool := Ascii.eqb (to_lower c) (to_lower a).

Definition one (cls : ascii -> bool) : node := Rep cls 1 (Some 1) true.
Definition word_ci (w : string) : list node := map (fun a => one (ci a)) (list_ascii_of_string w).

(** [(.+?)] and [[.\s_-]+] *)
Definition lazy_title : list node := [Open 1; Rep any_char 1 None false; Close 1].
Definition seps : node := Rep sep_char 1 None true.

(** [TV_PATTERNS] (all compiled with [re.IGNORECASE]). *)
Definition TV_PATTERNS : list (list node) :=
  [ (* (.+?)[.\s_-]+[Ss](\d{1,2})[Ee](\d{1,2}) *)
    lazy_title ++ [seps; one (ci "s"%char);
      Open 2; Rep is_digit 1 (Some 2) true; Close 2; one (ci "e"%char);
      Open 3; Rep is_digit 1 (Some 2) true; Close 3];
    (* (.+?)[.\s_-]+(\d{1,2})x(\d{1,2}) *)
    lazy_title ++ [seps;
      Open 2; Rep is_digit 1 (Some 2) true; Close 2; one (ci "x"%char);
      Open 3; Rep is_digit 1 (Some 2) true; Close 3];
    (* (.+?)[.\s_-]+Season\s*(\d{1,2})\s*Episode\s*(\d{1,2}) *)
    lazy_title ++ [seps] ++ word_ci "Season" ++ [Rep is_space 0 None true;
      Open 2; Rep is_digit 1 (Some 2) true; Close 2; Rep is_space 0 None true]
      ++ word_ci "Episode" ++ [Rep is_space 0 None true;
      Open 3; Rep is_digit 1 (Some 2) true; Close 3];
    (* (.+?)[.\s_-]+[Ss](\d{1,2})[.\s_-]*[Ee](\d{1,2}) *)
    lazy_title ++ [seps; one (ci "s"%char);
      Open 2; Rep is_digit 1 (Some 2) true; Close 2; Rep sep_char 0 None true;
      one (ci "e"%char);
      Open 3; Rep is_digit 1 (Some 2) true; Close 3] ].

(** [MOVIE_PATTERNS] (case-sensitive). *)
Definition MOVIE_PATTERNS : list (list node) :=
  [ (* (.+?)\s*\((\d{4})\) *)
    lazy_title ++ [Rep is_space 0 None true; one (lit "("%char);
      Open 2; Rep is_digit 4 (Some 4) true; Close 2; one (lit ")"%char)];
    (* (.+?)[.\s_-]+(\d{4})(?:[.\s_-]|$) *)
    lazy_title ++ [seps;
      Open 2; Rep is_digit 4 (Some 4) true; Close 2; ClassOrEnd sep_char] ].

(** [int()] of a string of decimal digits. *)
Definition digits_value (s : list ascii) : Z :=
  fold_left (fun acc c => (10 * acc + Z.of_nat (nat_of_ascii c - 48))%Z) s 0%Z.

(** [clean_title]: [re.sub(r'[._]', ' ', title)], then
    [' '.join(title.split())], then [title.title()], then [strip()]. *)
Definition dots_to_spaces (s : list ascii) : list ascii :=
  map (fun c => if Ascii.eqb c "."%char || Ascii.eqb c "_"%char then " "%char else c) s.

(** [str.split()]: maximal runs of non-whitespace. *)
Fixpoint split_ws_go (cur : list ascii) (s : list ascii) : list (list ascii) :=
  match s with
  | [] => match cur with [] => [] | _ => [rev cur] end
  | c :: s' =>
      if is_space c
      then match cur with [] => split_ws_go [] s' | _ => rev cur :: split_ws_go [] s' end
      else split_ws_go (c :: cur) s'
  end.

Definition split_ws (s : list ascii) : list (list ascii) := split_ws_go [] s.

Fixpoint join_with (sep : list ascii) (ws : list (list ascii)) : list ascii :=
  match ws with
  | [] => []
  | [w] => w
  | w :: rest => w ++ sep ++ join_with sep rest
  end.

(** [str.title()]: a cased character is upper-cased after an uncased one
    and lower-cased after a cased one. *)
Fixpoint title_go (prev_cased : bool) (s : list ascii) : list ascii :=
  match s with
  | [] => []
  | c :: s' =>
      let cased := is_upper c || is_lower c in
      (if cased then (if prev_cased then to_lower c else to_upper c) else c)
        :: title_go cased s'
  end.

Fixpoint lstrip (s : list ascii) : list ascii :=
  match s with
  | c :: s' => if is_space c then lstrip s' else s
  | [] => []
  end.

Definition strip (s : list ascii) : list ascii := rev (lstrip (rev (lstrip s))).

Definition clean_title (t : list ascii) : list ascii :=
  strip (title_go false (join_with [" "%char] (split_ws (dots_to_spaces t)))).

(** [re.sub(r'\.[^.]+$', '', filename)]: the only place the pattern can
    match is the last '.' when at least one character follows it; the
    match runs to the end. *)
Fixpoint last_dot (s : list ascii) (i : nat) (acc : option nat) : option nat :=
  match s with
  | [] => acc
  | c :: s' => last_dot s' (S i) (if Ascii.eqb c "."%char then Some i else acc)
  end.

Definition strip_extension (s : list ascii) : list ascii :=
  match last_dot s 0 None with
  | Some i => if Nat.ltb (S i) (length s) then firstn i s else s
  | None => s
  end.

Inductive media_type := Movie | TvEpisode | Unknown.

Record ParsedMedia := mkParsed {
  ptype : media_type;
  title : option string;
  year : option Z;
  season : option Z;
  episode : option Z
}.

Definition str (s : list ascii) : string := string_of_list_ascii s.

Fixpoint try_tv (pats : list (list node)) (name : list ascii) : option ParsedMedia :=
  match pats with
  | [] => None
  | p :: rest =>
      match re_match p name with
      | Some cs => Some (mkParsed TvEpisode (Some (str (clean_title (group name cs 1))))
                          None (Some (digits_value (group name cs 2)))
                          (Some (digits_value (group name cs 3))))
      | None => try_tv rest name
      end
  end.

Fixpoint try_movie (pats : list (list node)) (name : list ascii) : option ParsedMedia :=
  match pats with
  | [] => None
  | p :: rest =>
      match re_match p name with
      | Some cs =>
          let y := digits_value (group name cs 2) in
          if ((1900 <=? y) && (y <=? 2100))%Z
          then Some (mkParsed Movie (Some (str (clean_title (group name cs 1))))
                              (Some y) None None)
          else try_movie rest name
      | None => try_movie rest name
      end
  end.

Definition parse_filename (filename : string) : ParsedMedia :=
  let name := strip_extension (list_ascii_of_string filename) in
  match try_tv TV_PATTERNS name with
  | Some r => r
  | None =>
      match try_movie MOVIE_PATTERNS name with
      | Some r => r
      | None => mkParsed Unknown (Some (str (clean_title name))) None None None
      end
  end.

End Parser.

(* ================================================================== *)
(** ** Python string and posixpath helpers *)
(* ================================================================== *)

Module PyStr.

Fixpoint drop (n : nat) (s : string) : string :=
  match n, s with
  | O, _ => s
  | S n', String _ s' => drop n' s'
  | S _, EmptyString => EmptyString
  end.

(** The first occurrence of [sep] in [s]: the text before it and after it. *)
Fixpoint break_at (sep s : string) : option (string * string) :=
  if String.prefix sep s then Some (EmptyString, drop (String.length sep) s)
  else match s with
       | EmptyString => None
       | String c s' =>
           match break_at sep s' with
           | Some (a, b) => Some (String c a, b)
           | None => None
           end
       end.

Fixpoint split_fuel (n : nat) (sep s : string) : list string :=
  match n with
  | O => [s]
  | S n' =>
      match break_at sep s with
      | None => [s]
      | Some (a, b) => a :: split_fuel n' sep b
      end
  end.

(** [s.split(sep)] for a non-empty [sep]: left-to-right, non-overlapping
    occurrences (each cut consumes at least one character, so
    [length s + 1] rounds suffice). *)
Definition split (sep s : string) : list string :=
  split_fuel (S (String.length s)) sep s.

Definition starts_with_slash (s : string) : bool :=
  match s with String c _ => Ascii.eqb c "/"%char | EmptyString => false end.

Fixpoint ends_with_slash (s : string) : bool :=
  match s with
  | EmptyString => false
  | String c EmptyString => Ascii.eqb c "/"%char
  | String _ s' => ends_with_slash s'
  end.

(** [s.rstrip("/")]. *)
Fixpoint rstrip_slash (s : string) : string :=
  match s with
  | EmptyString => EmptyString
  | String c s' =>
      let r := rstrip_slash s' in
      if String.eqb r EmptyString && Ascii.eqb c "/"%char then EmptyString
      else String c r
  end.

(** [posixpath.join(a, *p)]. *)
Definition join2 (a b : string) : string :=
  if starts_with_slash b then b
  else if String.eqb a EmptyString || ends_with_slash a then a +++ b
  else a +++ "/" +++ b.

Definition join (a : string) (p : list string) : string := fold_left join2 p a.

(** [posixpath.normpath]. *)
Definition normpath (path : string) : string :=
  if String.eqb path EmptyString then "."
  else
    let initial :=
      if String.prefix "/" path
      then (if String.prefix "//" path && negb (String.prefix "///" path) then 2%nat else 1%nat)
      else 0%nat in
    let stack :=
      fold_left
        (fun (st : list string) comp =>
           if String.eqb comp EmptyString || String.eqb comp "." then st
           else if negb (String.eqb comp "..") ||
                   (Nat.eqb initial 0 && match st with [] => true | _ => false end) ||
                   match st with top :: _ => String.eqb top ".." | [] => false end
           then comp :: st
           else match st with _ :: st' => st' | [] => st end)
        (split "/" path) [] in
    let res := (if Nat.eqb initial 2 then "//" else if Nat.eqb initial 1 then "/" else "")
               +++ String.concat "/" (rev stack) in
    if String.eqb res EmptyString then "." else res.

(** [posixpath.abspath], with the process's working directory [cwd]. *)
Definition abspath (cwd p : string) : string :=
  normpath (if starts_with_slash p then p else join cwd [p]).

Fixpoint common_prefix_len (a b : list string) : nat :=
  match a, b with
  | x :: a', y :: b' => if String.eqb x y then S (common_prefix_len a' b') else O
  | _, _ => O
  end.

Definition nonempty_comps (s : string) : list string :=
  List.filter (fun x => negb (String.eqb x EmptyString)) (split "/" s).

(** [posixpath.relpath(path, start)]; [None] is the [ValueError] raised
    for an empty [path]. *)
Definition relpath (cwd path start : string) : option string :=
  if String.eqb path EmptyString then None
  else
    let start_list := nonempty_comps (abspath cwd start) in
    let path_list := nonempty_comps (abspath cwd path) in
    let i := common_prefix_len start_list path_list in
    let rel_list := repeat ".." (length start_list - i) ++ skipn i path_list in
    match rel_list with
    | [] => Some "."
    | r :: rs => Some (join r rs)
    end.

End PyStr.

(* ================================================================== *)
(** ** routers/cleanup.py: [quarantine_files] and [restore_from_quarantine] *)
(* ================================================================== *)

Module Cleanup.
Import PyStr.

Record file_row := mkFile { root_id : Z; path : string; hash_status : string }.

(** The tables the endpoints read ([files], [roots] as root -> drive,
    [drives] as drive -> mount path) and the regular files on disk. *)
Record cstate := mkC {
  files : gmap Z file_row;
  roots : gmap Z Z;
  drives : gmap Z string;
  disk : gset string
}.

Definition set_file (fid : Z) (r : file_row) (st : cstate) : cstate :=
  mkC (<[fid := r]> st.(files)) st.(roots) st.(drives) st.(disk).

(** [shutil.move(src, dst)] of a regular file ([dst] not an existing
    directory); the missing-source case raises. *)
Definition move (src dst : string) (st : cstate) : option cstate :=
  if bool_decide (src ∈ st.(disk))
  then Some (mkC st.(files) st.(roots) st.(drives) ({[dst]} ∪ (st.(disk) ∖ {[src]})))
  else None.

Inductive outcome :=
  | Moved (fid : Z) (original quarantine : string)
  | Restored (fid : Z) (restored : string)
  | Error (fid : Z) (msg : string).

Definition truthy (o : option string) : bool :=
  match o with Some s => negb (String.eqb s EmptyString) | None => false end.

(** One iteration of the loop of [quarantine_files]; [date_str] is
    [datetime.now().strftime("%Y-%m-%d")] and [cwd] the working directory
    [os.path.relpath] resolves against. *)
Definition quarantine_one (quarantine_path : option string) (date_str cwd : string)
    (fid : Z) (st : cstate) : outcome * cstate :=
  match st.(files) !! fid with
  | None => (Error fid "File not found", st)
  | Some r =>
      match st.(roots) !! r.(root_id) with
      | None => (Error fid "File not found", st)
      | Some did =>
          match st.(drives) !! did with
          | None => (Error fid "File not found", st)
          | Some drive_mount =>
              let source_path := r.(path) in
              if negb (bool_decide (source_path ∈ st.(disk)))
              then (Error fid "File does not exist on disk", st)
              else
                let quarantine_base :=
                  match quarantine_path with
                  | Some q => if truthy quarantine_path then q
                              else join drive_mount [".quarantine"; date_str]
                  | None => join drive_mount [".quarantine"; date_str]
                  end in
                match relpath cwd source_path drive_mount with
                | None => (Error fid "no path specified", st)
                | Some rel_path =>
                    let quarantine_dest := join quarantine_base [rel_path] in
                    match move source_path quarantine_dest st with
                    | None => (Error fid "move failed", st)
                    | Some st' =>
                        (Moved fid source_path quarantine_dest,
                         set_file fid (mkFile r.(root_id) quarantine_dest "quarantined") st')
                    end
                end
          end
      end
  end.

Fixpoint run_ids (step : Z -> cstate -> outcome * cstate) (ids : list Z)
    (st : cstate) : list outcome * cstate :=
  match ids with
  | [] => ([], st)
  | fid :: rest =>
      let '(o, st1) := step fid st in
      let '(os, st2) := run_ids step rest st1 in
      (o :: os, st2)
  end.

(** [quarantine_files(request)]; [None] is the HTTP 400 for an empty id
    list. All row updates are committed at the end. *)
Definition quarantine_files (file_ids : list Z) (quarantine_path : option string)
    (date_str cwd : string) (st : cstate) : option (list outcome * cstate) :=
  match file_ids with
  | [] => None
  | _ => Some (run_ids (quarantine_one quarantine_path date_str cwd) file_ids st)
  end.

(** [os.path.dirname(p)] is empty exactly when [p] has no "/". *)
Definition has_sep (p : string) : bool :=
  existsb (Ascii.eqb "/"%char) (list_ascii_of_string p).

(** [str(e)] for the [FileNotFoundError] of [os.makedirs('')]. *)
Definition makedirs_empty_error : string := "[Errno 2] No such file or directory: ''".

(** One iteration of the loop of [restore_from_quarantine].
    [os.makedirs(os.path.dirname(original_path), exist_ok=True)] raises
    for an empty directory part; directories are not modelled otherwise,
    so it succeeds in every other case. *)
Definition restore_one (fid : Z) (st : cstate) : outcome * cstate :=
  match st.(files) !! fid with
  | Some r =>
      if String.eqb r.(hash_status) "quarantined" then
        let quarantine_path := r.(path) in
        match split ".quarantine" quarantine_path with
        | [p0; p1] =>
            let drive := rstrip_slash p0 in
            let rel_parts := skipn 2 (split "/" p1) in
            let original_path := join drive rel_parts in
            if negb (has_sep original_path) then (Error fid makedirs_empty_error, st)
            else
            match move quarantine_path original_path st with
            | None => (Error fid "move failed", st)
            | Some st' =>
                (Restored fid original_path,
                 set_file fid (mkFile r.(root_id) original_path "pending") st')
            end
        | _ => (Error fid "Cannot determine original path", st)
        end
      else (Error fid "File not found or not quarantined", st)
  | None => (Error fid "File not found or not quarantined", st)
  end.

Definition restore_from_quarantine (file_ids : list Z) (st : cstate)
    : list outcome * cstate :=
  run_ids restore_one file_ids st.

(** [n] successive restore requests for the same ids. *)
Fixpoint restore_times (n : nat) (file_ids : list Z) (st : cstate) : cstate :=
  match n with
  | O => st
  | S n' => restore_times n' file_ids (snd (restore_from_quarantine file_ids st))
  end.

(** The number of occurrences of ".quarantine" that [str.split] finds. *)
Definition quarantine_count (p : string) : nat :=
  pred (length (split ".quarantine" p)).

End Cleanup.

(* ================================================================== *)
(** ** parser.py: [is_video_file] and [parse_path] *)
(* ================================================================== *)

Module ParserPath.
Import Parser.

(** [VIDEO_EXTENSIONS]. *)
Definition VIDEO_EXTENSIONS : list string :=
  ["mp4"; "mkv"; "avi"; "mov"; "wmv"; "flv"; "webm";
   "m4v"; "mpg"; "mpeg"; "ts"; "m2ts"; "vob"].

(** [s.rsplit('.', 1)[-1]]: the text after the last '.'. *)
Definition rsplit_last (s : list ascii) : list ascii :=
  fold_left (fun acc c => if Ascii.eqb c "."%char then [] else acc ++ [c]) s [].

(** [is_video_file(filepath)]. *)
Definition is_video_file (filepath : string) : bool :=
  let s := list_ascii_of_string filepath in
  let ext := if existsb (fun c => Ascii.eqb c "."%char) s
             then map to_lower (rsplit_last s) else [] in
  existsb (String.eqb (str ext)) VIDEO_EXTENSIONS.

(** The parts of [PurePosixPath(filepath)]: the components between
    slashes, without empty ones and ["."]. *)
Definition path_parts (p : string) : list string :=
  List.filter (fun x => negb (String.eqb x EmptyString) && negb (String.eqb x "."))
              (PyStr.split "/" p).

(** [.name] of a path given by its parts; [.parent] drops the last part
    (the parent of a path without parts is the path itself). *)
Definition name_of (ps : list string) : string := List.last ps EmptyString.

Definition path_name (p : string) : string := name_of (path_parts p).
Definition parent_name (p : string) : string := name_of (removelast (path_parts p)).
Definition grandparent_name (p : string) : string :=
  name_of (removelast (removelast (path_parts p))).

(** [re.match(r'season\s*(\d+)', parent_name, re.IGNORECASE)]. *)
Definition SEASON_FOLDER : list node :=
  word_ci "season" ++ [Rep is_space 0 None true; Open 1; Rep is_digit 1 None true; Close 1].

(** [str.lower()]. *)
Definition lower (s : string) : list ascii := map to_lower (list_ascii_of_string s).

(** [parse_path(filepath)]. *)
Definition parse_path (filepath : string) : ParsedMedia :=
  let result := parse_filename (path_name filepath) in
  match ptype result with
  | Unknown =>
      let parent := lower (parent_name filepath) in
      match re_match SEASON_FOLDER parent with
      | Some cs =>
          let gp := grandparent_name filepath in
          mkParsed TvEpisode
                   (if String.eqb gp EmptyString then title result
                    else Some (str (clean_title (list_ascii_of_string gp))))
                   (year result) (Some (digits_value (group parent cs 1)))
                   (episode result)
      | None => result
      end
  | _ => result
  end.

End ParserPath.

(* ================================================================== *)
(** ** matcher.py: [merge_items] and [split_file] *)
(* ================================================================== *)

Module MatcherOps.
Import Matcher Parser ParserPath.

(** A row of [media_items] as [create_media_item_from_file] and
    [split_file] insert it. *)
Record media_item := mkMI {
  mi_type : media_type;
  mi_title : option string;
  mi_year : option Z;
  mi_season : option Z;
  mi_episode : option Z;
  mi_status : ItemStatus
}.

(** A row of [media_item_files]. *)
Record link := mkLink { li_item : Z; li_file : Z; li_primary : bool }.

(** [media_items] by id, [media_item_files] in scan order, and the
    [path] column of [files]. *)
Record mdb := mkMdb {
  items : gmap Z media_item;
  links : list link;
  file_paths : gmap Z string
}.

Definition with_status (st : ItemStatus) (it : media_item) : media_item :=
  mkMI it.(mi_type) it.(mi_title) it.(mi_year) it.(mi_season) it.(mi_episode) st.

(** [UPDATE media_items SET status = ? WHERE id = ?]. *)
Definition set_item_status (iid : Z) (st : ItemStatus) (d : mdb) : mdb :=
  match d.(items) !! iid with
  | Some it => mkMdb (<[iid := with_status st it]> d.(items)) d.(links) d.(file_paths)
  | None => d
  end.

(** [UPDATE media_item_files SET media_item_id = t WHERE media_item_id = s]. *)
Definition relabel (t s : Z) (ls : list link) : list link :=
  map (fun l => if Z.eqb l.(li_item) s then mkLink t l.(li_file) l.(li_primary) else l) ls.

(** The number of link rows of an item: the [cursor.rowcount] of that
    update, and the count [split_file] selects. *)
Definition count_item (s : Z) (ls : list link) : Z :=
  Z.of_nat (length (List.filter (fun l => Z.eqb l.(li_item) s) ls)).

(** The [for source_id in source_ids] loop of [merge_items]. *)
Fixpoint merge_loop (t : Z) (source_ids : list Z) (files_moved : Z) (d : mdb) : Z * mdb :=
  match source_ids with
  | [] => (files_moved, d)
  | s :: rest =>
      if Z.eqb s t then merge_loop t rest files_moved d
      else merge_loop t rest (files_moved + count_item s d.(links))
                      (mkMdb (delete s d.(items)) (relabel t s d.(links)) d.(file_paths))
  end.

Inductive merge_result :=
  | MergeError (msg : string)
  | Merged (target_id files_moved items_merged : Z).

(** [merge_items(target_id, source_ids)]. *)
Definition merge_items (target_id : Z) (source_ids : list Z) (d : mdb) : merge_result * mdb :=
  match d.(items) !! target_id with
  | None => (MergeError "Target item not found", d)
  | Some _ =>
      let '(files_moved, d1) := merge_loop target_id source_ids 0 d in
      (Merged target_id files_moved (Z.of_nat (length source_ids)),
       set_item_status target_id Verified d1)
  end.

Inductive split_result :=
  | SplitError (msg : string)
  | SplitOk (old_item_id new_item_id file_id : Z).

(** [split_file(file_id)]; [new_item_id] is the [lastrowid] SQLite gives
    the inserted item. *)
Definition split_file (file_id new_item_id : Z) (d : mdb) : split_result * mdb :=
  match List.find (fun l => Z.eqb l.(li_file) file_id) d.(links) with
  | None => (SplitError "File not linked to any item", d)
  | Some row =>
      let old_item_id := row.(li_item) in
      if Z.eqb (count_item old_item_id d.(links)) 1
      then (SplitError "Cannot split - file is alone in its item", d)
      else
        match d.(file_paths) !! file_id with
        | None => (SplitError "File not found", d)
        | Some p =>
            let parsed := parse_path p in
            (SplitOk old_item_id new_item_id file_id,
             mkMdb (<[new_item_id := mkMI parsed.(ptype) parsed.(title) parsed.(year)
                                            parsed.(season) parsed.(episode) Verified]>
                      d.(items))
                   (map (fun l => if Z.eqb l.(li_file) file_id
                                  then mkLink new_item_id file_id true else l) d.(links))
                   d.(file_paths))
        end
  end.

End MatcherOps.

(* ================================================================== *)
(** ** scanner.py: the pause loop of [scan_directory] and the end of [run_scan] *)
(* ================================================================== *)

Module ScannerLoop.
Import Scanner.

(** One round of [while _pause_requested: _scan_state = PAUSED; await
    asyncio.sleep(0.5)] in [scan_directory], with the
    [_scan_state = RUNNING] that follows the loop; the boolean tells
    whether the task is still in the loop. *)
Definition pause_wait (s : scanner) : bool * scanner :=
  if s.(pause_requested)
  then (true, mkScanner PAUSED s.(cancel_requested) s.(pause_requested) s.(scan_tasks))
  else (false, mkScanner RUNNING s.(cancel_requested) s.(pause_requested) s.(scan_tasks)).

(** The end of [run_scan] once the roots are done (or the loop broke on
    [_cancel_requested]). *)
Definition run_scan_finish (s : scanner) : scanner :=
  mkScanner (if s.(cancel_requested) then CANCELLED else COMPLETED)
            s.(cancel_requested) s.(pause_requested) s.(scan_tasks).

(** What can happen while the task sleeps in the pause loop: a
    [pause_scan] or [cancel_scan] request, or another round of the loop. *)
Inductive paused_event := EPause | ECancel | EWait.

Fixpoint paused_run (evs : list paused_event) (s : scanner) : scanner :=
  match evs with
  | [] => s
  | EPause :: rest => paused_run rest (snd (pause_scan s))
  | ECancel :: rest => paused_run rest (snd (cancel_scan s))
  | EWait :: rest => paused_run rest (snd (pause_wait s))
  end.

End ScannerLoop.

(* ================================================================== *)
(** ** hasher.py and routers/hash.py *)
(* ================================================================== *)

Module Hasher.

(** hasher.py: [QUICK_SIG_SIZE = 1024 * 1024]. *)
Definition QUICK_SIG_SIZE : Z := 1048576.

(** [f.read(n)] from the current position: at most [n] bytes. *)
Fixpoint take_z (n : Z) (l : list Byte.byte) : list Byte.byte :=
  match l with
  | [] => []
  | x :: l' => if n <=? 0 then [] else x :: take_z (n - 1) l'
  end.

(** [f.seek(k)] followed by reads: the bytes from position [k] on. *)
Fixpoint drop_z (n : Z) (l : list Byte.byte) : list Byte.byte :=
  match l with
  | [] => []
  | _ :: l' => if n <=? 0 then l else drop_z (n - 1) l'
  end.

(** A row of the [files] table as the hasher reads and writes it. *)
Record file_row := mkFileRow {
  path : string;
  quick_sig : option string;
  full_hash : option string;
  hash_status : option string
}.

Definition set_hash_status (s : string) (r : file_row) : file_row :=
  mkFileRow r.(path) r.(quick_sig) r.(full_hash) (Some s).

(** The module globals [_hash_queue], [_hash_running] and [_hash_status]. *)
Record hash_globals := mkHG {
  hash_queue : list Z;
  hash_running : bool;
  state : string;
  files_total : Z;
  files_processed : Z;
  current_file : option string
}.

Inductive hash_result :=
  | HashError (msg : string)
  | HashDone (file_id : Z) (qsig fhash : option string) (status : string).

(** Python truthiness of an [Optional[str]]. *)
Definition truthy (o : option string) : bool :=
  match o with Some s => negb (String.eqb s "") | None => false end.

Section Hashing.
(** [hashlib.md5(b).hexdigest()] and [hashlib.sha256] fed with all of [b],
    chunk after chunk, then [hexdigest()]. *)
Variable md5_hex : list Byte.byte -> string.
Variable sha256_hex : list Byte.byte -> string.
(** The readable files: path to contents; [os.path.getsize] and [open]
    raise [OSError] on a path that is not there. *)
Variable disk : gmap string (list Byte.byte).

Definition compute_quick_signature (filepath : string) : option string :=
  match disk !! filepath with
  | None => None
  | Some bytes =>
      let size := Z.of_nat (length bytes) in
      let first_chunk := take_z QUICK_SIG_SIZE bytes in
      let first_hash := substring 0 16 (md5_hex first_chunk) in
      let last_chunk :=
        if size >? QUICK_SIG_SIZE
        then take_z QUICK_SIG_SIZE (drop_z (size - QUICK_SIG_SIZE) bytes)
        else first_chunk in
      let last_hash := substring 0 16 (md5_hex last_chunk) in
      Some (pretty size +++ ":" +++ first_hash +++ ":" +++ last_hash)
  end.

Definition compute_full_hash (filepath : string) : option string :=
  match disk !! filepath with
  | None => None
  | Some bytes => Some (sha256_hex bytes)
  end.

Definition hash_file (file_id : Z) (db : gmap Z file_row)
    : hash_result * gmap Z file_row :=
  match db !! file_id with
  | None => (HashError "File not found", db)
  | Some row =>
      let filepath := row.(path) in
      let db1 := <[file_id := set_hash_status "computing" row]> db in
      let qs := compute_quick_signature filepath in
      let fh := compute_full_hash filepath in
      if truthy qs && truthy fh then
        (HashDone file_id qs fh "complete",
         <[file_id := mkFileRow filepath qs fh (Some "complete")]> db1)
      else
        (HashDone file_id qs fh "error",
         <[file_id := set_hash_status "error" row]> db1)
  end.

(** [stop_hashing] arrives while the loop body of the file at index [n]
    (counting from 0) runs; the [while] test then fails once [n + 1] files
    have been processed.  [None]: no stop during the run. *)
Definition stop_now (stop : option nat) (k : nat) : bool :=
  match stop with Some n => Nat.ltb n k | None => false end.

Fixpoint hash_loop (stop : option nat) (q : list Z) (k : nat)
    (g : hash_globals) (db : gmap Z file_row) : hash_globals * gmap Z file_row :=
  match q with
  | [] => (mkHG [] g.(hash_running) g.(state) g.(files_total)
                g.(files_processed) g.(current_file), db)
  | file_id :: rest =>
      if stop_now stop k then
        (mkHG q false g.(state) g.(files_total) g.(files_processed)
              g.(current_file), db)
      else
        let cur := match db !! file_id with
                   | Some row => Some row.(path)
                   | None => g.(current_file)
                   end in
        let db' := snd (hash_file file_id db) in
        hash_loop stop rest (S k)
          (mkHG rest g.(hash_running) g.(state) g.(files_total)
                (g.(files_processed) + 1) cur) db'
  end.

Definition run_hash_queue (stop : option nat) (g : hash_globals)
    (db : gmap Z file_row) : hash_globals * gmap Z file_row :=
  let g0 := mkHG g.(hash_queue) true "running"
                 (Z.of_nat (length g.(hash_queue))) 0 g.(current_file) in
  let '(g1, db1) := hash_loop stop g.(hash_queue) 0 g0 db in
  (mkHG g1.(hash_queue) false
        (match g1.(hash_queue) with [] => "complete" | _ => "stopped" end)
        g1.(files_total) g1.(files_processed) None, db1).

End Hashing.

(** [start_hash_computation]: the boolean is also whether a
    [run_hash_queue] task was created; the task sets [_hash_running]
    only once it runs. *)
Definition start_hash_computation (file_ids : option (list Z))
    (g : hash_globals) : bool * hash_globals :=
  if g.(hash_running) then (false, g)
  else
    let q := match file_ids with Some (x :: xs) => x :: xs | _ => g.(hash_queue) end in
    (true, mkHG q g.(hash_running) g.(state) g.(files_total)
                g.(files_processed) g.(current_file)).

Definition stop_hashing (g : hash_globals) : bool * hash_globals :=
  if g.(hash_running) then
    (true, mkHG g.(hash_queue) false g.(state) g.(files_total)
                g.(files_processed) g.(current_file))
  else (false, g).

(** [hash_status = 'pending' OR hash_status IS NULL]. *)
Definition is_pending (r : file_row) : bool :=
  match r.(hash_status) with
  | None => true
  | Some s => String.eqb s "pending"
  end.

(** [queue_pending_files]: the ids of the pending rows, in the order the
    query returns them (no ORDER BY; here the map's order). *)
Definition queue_pending_files (db : gmap Z file_row) (g : hash_globals)
    : Z * hash_globals :=
  let q := map fst (map_to_list (filter (fun kv : Z * file_row => is_pending kv.2 = true) db)) in
  (Z.of_nat (length q),
   mkHG q g.(hash_running) g.(state) g.(files_total) g.(files_processed)
        g.(current_file)).

Inductive compute_response :=
  | NoPending
  | AlreadyRunning
  | Started (queue_size : Z).

(** routers/hash.py [compute_hashes]. *)
Definition compute_hashes (file_ids : option (list Z)) (g : hash_globals)
    (db : gmap Z file_row) : compute_response * hash_globals :=
  match file_ids with
  | None =>
      let '(count, g1) := queue_pending_files db g in
      if count =? 0 then (NoPending, g1)
      else
        let '(ok, g2) := start_hash_computation None g1 in
        if ok then (Started (Z.of_nat (length g2.(hash_queue))), g2)
        else (AlreadyRunning, g2)
  | Some l =>
      let '(ok, g2) := start_hash_computation (Some l) g in
      if ok then (Started (Z.of_nat (length g2.(hash_queue))), g2)
      else (AlreadyRunning, g2)
  end.

End Hasher.

(* ================================================================== *)
(** ** routers/cleanup.py: the per-file reports *)
(* ================================================================== *)

Module CleanupReport.
Import Cleanup.

(** The ["file_id"] entry every element of [files] / [error_details]
    carries. *)
Definition outcome_fid (o : outcome) : Z :=
  match o with
  | Moved fid _ _ => fid
  | Restored fid _ => fid
  | Error fid _ => fid
  end.

End CleanupReport.

(* ****************************************************************** *)
(** * Properties *)
(* ****************************************************************** *)

(* ================================================================== *)
(** ** Queue concurrency *)
(* ================================================================== *)

Module QueueFacts.
Import Queue.

(** C10: [set_concurrency(n)] accepts every integer: it stores
    [max(1, min(n, 10))], which lies in [1, 10], and leaves the rest of the
    queue record as it was. *)
Theorem set_concurrency_clamps (n : Z) (q : queue_state) :
  concurrency (set_concurrency n q) = Z.max 1 (Z.min n 10) /\
  1 <= concurrency (set_concurrency n q) <= 10 /\
  running (set_concurrency n q) = running q /\
  paused (set_concurrency n q) = paused q /\
  active_ops (set_concurrency n q) = active_ops q.
Proof.
  unfold set_concurrency; simpl.
  repeat split; lia.
Qed.

Example set_concurrency_zero : concurrency (set_concurrency 0 initial_queue_state) = 1.
Proof. reflexivity. Qed.

Example set_concurrency_big : concurrency (set_concurrency 50 initial_queue_state) = 10.
Proof. reflexivity. Qed.

End QueueFacts.

(* ================================================================== *)
(** ** Scanner: starting a scan *)
(* ================================================================== *)

Module ScannerFacts.
Import Scanner.

Lemma start_scan_rejects_running (d : option Z) (t : ThrottleLevel) (s : scanner) :
  scan_state s = RUNNING -> start_scan d t s = (false, s).
Proof. intros H. unfold start_scan. rewrite H. reflexivity. Qed.

(** The scanner after: [start_scan] from idle, the task's [run_scan]
    prologue, [pause_scan()], and the task reaching the pause check at the
    next directory. *)
Definition paused_scanner : scanner :=
  scan_directory_check
    (snd (pause_scan (run_scan_begin (snd (start_scan None NORMAL initial_scanner))))).

(** C4 (code bug): [start_scan] only refuses while the state is
    [RUNNING]. In the reachable [PAUSED] state it returns True and creates
    a second [run_scan] task next to the paused one. *)
Theorem start_scan_accepts_paused :
  scan_state paused_scanner = PAUSED /\
  length (scan_tasks paused_scanner) = 1%nat /\
  fst (start_scan None NORMAL paused_scanner) = true /\
  length (scan_tasks (snd (start_scan None NORMAL paused_scanner))) = 2%nat.
Proof. vm_compute. repeat split. Qed.

End ScannerFacts.

(* ================================================================== *)
(** ** Operation statuses *)
(* ================================================================== *)

Module OpsFacts.
Import Ops.

Lemma update_status_of (now op_id : Z) st prog err (db : op_table) :
  status_of op_id (update_operation_status now op_id st prog err db) =
  option_map (fun _ => st) (db !! op_id).
Proof.
  unfold update_operation_status, status_of.
  destruct (db !! op_id) as [r|] eqn:E; simpl.
  - rewrite lookup_insert_eq. reflexivity.
  - rewrite E. reflexivity.
Qed.

(** The guards of [pause_operation], [resume_operation] and
    [cancel_operation] never move a terminal row. *)
Lemma control_keeps_terminal (now op_id : Z) (a : action) (s : op_table * list Z) st :
  is_control a = true -> is_terminal st = true ->
  status_of op_id s.1 = Some st ->
  status_of op_id (apply_action now op_id a s).1 = Some st.
Proof.
  intros Hc Ht Hs. destruct s as [db active].
  unfold status_of in Hs; simpl in Hs.
  destruct (db !! op_id) as [r|] eqn:E; [|discriminate].
  simpl in Hs. injection Hs as Hs.
  destruct a; try discriminate; simpl.
  - unfold pause_operation. rewrite E, Hs.
    destruct st; try discriminate; unfold status_of; simpl; rewrite E; simpl; congruence.
  - unfold resume_operation. rewrite E, Hs.
    destruct st; try discriminate; unfold status_of; simpl; rewrite E; simpl; congruence.
  - unfold cancel_operation. rewrite E, Hs.
    destruct st; try discriminate; unfold status_of; simpl; rewrite E; simpl; congruence.
Qed.

Lemma controls_keep_terminal (now op_id : Z) (acts : list action) :
  forall (s : op_table * list Z) st,
  forallb is_control acts = true -> is_terminal st = true ->
  status_of op_id s.1 = Some st ->
  status_of op_id (run_actions now op_id acts s).1 = Some st.
Proof.
  induction acts as [|a acts IH]; intros s st Hall Ht Hs; simpl in *; [exact Hs|].
  apply andb_prop in Hall as [Ha Hall].
  apply IH; auto. apply control_keeps_terminal; auto.
Qed.

(** One [copy] operation row, pending. *)
Definition one_op : op_table :=
  <[1 := mkOp "copy" Pending 0 3145728 None 100 None None]> ∅.

(** The writes of a copy that is cancelled while it runs: the worker's
    [running] write, [cancel_operation(1)], one progress callback, and the
    final [completed] write of [process_operation]. *)
Definition cancelled_during_copy : list action := [AStart; ACancel; AProgress 1048576; ACompleted].

(** C2 (code bug): a row cancelled while its copy runs does not keep its
    terminal status: the next progress update sets it to [running] and the
    end of [process_operation] sets it to [completed]. *)
Theorem cancelled_row_changes_again :
  status_of 1 (run_actions 7 1 [AStart; ACancel] (one_op, [])).1 = Some Cancelled /\
  status_of 1 (run_actions 7 1 [AStart; ACancel; AProgress 1048576] (one_op, [])).1
    = Some Running /\
  status_of 1 (run_actions 7 1 cancelled_during_copy (one_op, [])).1 = Some Completed.
Proof. vm_compute. repeat split. Qed.

End OpsFacts.

(* ================================================================== *)
(** ** Fetching pending operations *)
(* ================================================================== *)

Module FetchFacts.
Import Ops Fetch.

Lemma in_firstn {A} (n : nat) (l : list A) (x : A) : In x (firstn n l) -> In x l.
Proof.
  intros H. rewrite <- (firstn_skipn n l). apply in_or_app. left. exact H.
Qed.

Lemma StronglySorted_firstn {A} (R : A -> A -> Prop) (n : nat) (l : list A) :
  StronglySorted R l -> StronglySorted R (firstn n l).
Proof.
  revert n; induction l as [|x l IH]; intros n H; destruct n; simpl; try constructor.
  - apply IH. inversion H; assumption.
  - inversion H as [|? ? _ HF]; subst.
    apply List.Forall_forall. intros y Hy.
    apply (proj1 (List.Forall_forall _ _) HF). eapply in_firstn; eauto.
Qed.

Lemma StronglySorted_filter {A} (R : A -> A -> Prop) (f : A -> bool) (l : list A) :
  StronglySorted R l -> StronglySorted R (List.filter f l).
Proof.
  induction l as [|x l IH]; intros H; simpl; [constructor|].
  inversion H as [|? ? HS HF]; subst.
  destruct (f x); [constructor|]; auto.
  apply List.Forall_forall. intros y Hy. apply filter_In in Hy as [Hy _].
  apply (proj1 (List.Forall_forall _ _) HF). exact Hy.
Qed.

Definition id_le (a b : Z * op_row) : Prop := a.1 <= b.1.
Definition id_lt (a b : Z * op_row) : Prop := a.1 < b.1.

Lemma id_le_trans : Transitive id_le.
Proof. intros a b c. unfold id_le. lia. Qed.

Lemma insert_by_id_perm (x : Z * op_row) (l : list (Z * op_row)) :
  Permutation (insert_by_id x l) (x :: l).
Proof.
  induction l as [|y l IH]; simpl; [reflexivity|].
  destruct (x.1 <=? y.1); [reflexivity|].
  rewrite IH. apply perm_swap.
Qed.

Lemma rowid_scan_perm (db : op_table) : Permutation (rowid_scan db) (map_to_list db).
Proof.
  unfold rowid_scan. induction (map_to_list db) as [|x l IH]; simpl; [reflexivity|].
  rewrite insert_by_id_perm. constructor. exact IH.
Qed.

Lemma insert_by_id_sorted (x : Z * op_row) (l : list (Z * op_row)) :
  Sorted id_le l -> Sorted id_le (insert_by_id x l).
Proof.
  induction l as [|y l IH]; intros H; simpl; [repeat constructor|].
  destruct (Z.leb_spec x.1 y.1) as [Hle|Hgt].
  - constructor; [exact H|constructor; exact Hle].
  - inversion H as [|? ? Hl Hhd]; subst. constructor; [apply IH, Hl|].
    destruct l as [|z l]; simpl; [constructor; unfold id_le; lia|].
    destruct (x.1 <=? z.1); constructor; unfold id_le; [lia|].
    inversion Hhd; assumption.
Qed.

Lemma rowid_scan_sorted (db : op_table) : StronglySorted id_lt (rowid_scan db).
Proof.
  assert (HS : Sorted id_le (rowid_scan db)).
  { unfold rowid_scan. induction (map_to_list db); simpl; [constructor|].
    apply insert_by_id_sorted; assumption. }
  assert (HN : List.NoDup (map fst (rowid_scan db))).
  { apply NoDup_ListNoDup.
    rewrite (Permutation_map fst (rowid_scan_perm db)).
    apply NoDup_fst_map_to_list. }
  apply (Sorted_StronglySorted id_le_trans) in HS.
  induction (rowid_scan db) as [|x l IH]; [constructor|].
  simpl in HN. apply List.NoDup_cons_iff in HN as [Hx HN].
  inversion HS as [|? ? HS' HF]; subst. constructor; [apply IH; assumption|].
  apply List.Forall_forall. intros y Hy.
  pose proof (proj1 (List.Forall_forall _ _) HF y Hy) as Hle. unfold id_le in Hle.
  unfold id_lt. destruct (Z.eq_dec x.1 y.1) as [He|]; [|lia].
  exfalso. apply Hx. rewrite He. apply in_map. exact Hy.
Qed.

Lemma insert_created_perm (x : Z * op_row) (l : list (Z * op_row)) :
  Permutation (insert_created x l) (x :: l).
Proof.
  induction l as [|y l IH]; simpl; [reflexivity|].
  destruct (y.2.(created_at) <=? x.2.(created_at)); [|reflexivity].
  rewrite IH. apply perm_swap.
Qed.

Lemma order_by_created_perm_acc (l acc : list (Z * op_row)) :
  Permutation (fold_left (fun acc x => insert_created x acc) l acc) (l ++ acc).
Proof.
  revert acc; induction l as [|x l IH]; intros acc; simpl; [reflexivity|].
  rewrite IH, insert_created_perm. apply Permutation_sym, Permutation_middle.
Qed.

Lemma insert_created_sorted (x : Z * op_row) (l : list (Z * op_row)) :
  StronglySorted created_then_id_lt l -> (forall y, In y l -> y.1 < x.1) ->
  StronglySorted created_then_id_lt (insert_created x l).
Proof.
  induction l as [|y l IH]; intros HS Hlt; simpl; [repeat constructor|].
  inversion HS as [|? ? HS' HF]; subst.
  destruct (Z.leb_spec y.2.(created_at) x.2.(created_at)) as [Hle|Hgt].
  - constructor; [apply IH; [exact HS'|intros z Hz; apply Hlt; right; exact Hz]|].
    apply List.Forall_forall. intros z Hz.
    apply (Permutation_in _ (insert_created_perm x l)) in Hz as [<-|Hz].
    + unfold created_then_id_lt. specialize (Hlt y (or_introl eq_refl)). lia.
    + exact (proj1 (List.Forall_forall _ _) HF z Hz).
  - constructor; [exact HS|]. constructor; [unfold created_then_id_lt; lia|].
    apply List.Forall_forall. intros z Hz.
    pose proof (proj1 (List.Forall_forall _ _) HF z Hz) as Hyz.
    unfold created_then_id_lt in *. lia.
Qed.

Lemma order_by_created_sorted_acc (l acc : list (Z * op_row)) :
  StronglySorted id_lt l -> StronglySorted created_then_id_lt acc ->
  (forall y x, In y acc -> In x l -> y.1 < x.1) ->
  StronglySorted created_then_id_lt (fold_left (fun acc x => insert_created x acc) l acc).
Proof.
  revert acc; induction l as [|x l IH]; intros acc Hl Hacc Hlt; simpl; [exact Hacc|].
  inversion Hl as [|? ? Hl' HF]; subst.
  apply IH; [exact Hl'| |].
  - apply insert_created_sorted; [exact Hacc|]. intros y Hy. apply Hlt; [exact Hy|left; reflexivity].
  - intros y z Hy Hz.
    apply (Permutation_in _ (insert_created_perm x acc)) in Hy as [<-|Hy].
    + exact (proj1 (List.Forall_forall _ _) HF z Hz).
    + apply Hlt; [exact Hy|right; exact Hz].
Qed.

Lemma get_pending_operations_sorted (limit : Z) (db : op_table) :
  StronglySorted created_then_id_lt (get_pending_operations limit db).
Proof.
  unfold get_pending_operations, sql_limit.
  assert (H : StronglySorted created_then_id_lt (order_by_created (pending_rows db))).
  { apply order_by_created_sorted_acc; [|constructor|intros ? ? []].
    apply StronglySorted_filter, rowid_scan_sorted. }
  destruct (limit <? 0); [exact H|]. apply StronglySorted_firstn, H.
Qed.

Lemma in_get_pending_operations (limit : Z) (db : op_table) (x : Z * op_row) :
  In x (get_pending_operations limit db) -> x.2.(status) = Pending /\ db !! x.1 = Some x.2.
Proof.
  unfold get_pending_operations, sql_limit. intros H.
  assert (Hx : In x (order_by_created (pending_rows db))).
  { destruct (limit <? 0); [exact H|]. eapply in_firstn; eauto. }
  unfold order_by_created in Hx.
  apply (Permutation_in _ (order_by_created_perm_acc _ [])) in Hx.
  rewrite app_nil_r in Hx. unfold pending_rows in Hx.
  apply filter_In in Hx as [Hin Hst].
  apply (Permutation_in _ (rowid_scan_perm db)) in Hin.
  split.
  - destruct (status x.2); try discriminate; reflexivity.
  - destruct x as [k r]. apply elem_of_map_to_list. apply list_elem_of_In. exact Hin.
Qed.

(** C6: every batch the worker fetches is ordered by [created_at]
    ascending with ties in ascending id (the rowid scan order SQLite
    sorts from), and so is the dispatched sub-list; the batch consists of
    pending rows of the table and is no longer than the free slots
    [concurrency - len(active_ops)]. *)
Theorem worker_fetch_ordered_by_created_at (q : Queue.queue_state) (db : op_table)
    (fetched dispatched : list (Z * op_row)) :
  queue_worker_dispatch q db fetched dispatched ->
  Sorted created_then_id_lt fetched /\ Sorted created_then_id_lt dispatched /\
  (forall x, In x fetched -> x.2.(status) = Pending /\ db !! x.1 = Some x.2) /\
  Z.of_nat (length fetched) <= q.(Queue.concurrency) - Z.of_nat (length q.(Queue.active_ops)).
Proof.
  intros (_ & _ & Hroom & -> & ->).
  pose proof (get_pending_operations_sorted
    (q.(Queue.concurrency) - Z.of_nat (length q.(Queue.active_ops))) db) as HSS.
  split; [|split; [|split]].
  - apply StronglySorted_Sorted, HSS.
  - apply StronglySorted_Sorted, StronglySorted_filter, HSS.
  - intros x Hx. eapply in_get_pending_operations; exact Hx.
  - unfold get_pending_operations, sql_limit.
    destruct (Z.ltb_spec (Queue.concurrency q - Z.of_nat (length (Queue.active_ops q))) 0)
      as [Hneg|_]; [lia|].
    pose proof (firstn_le_length (Z.to_nat (Queue.concurrency q - Z.of_nat (length (Queue.active_ops q))))
                  (order_by_created (pending_rows db))). lia.
Qed.

(** Two pending copies created in the same second, plus a later one
    inserted first. *)
Definition same_second_op : op_row := mkOp "copy" Pending 0 10 None 100 None None.
Definition later_op : op_row := mkOp "copy" Pending 0 11 None 200 None None.
Definition two_pending : op_table :=
  <[1 := same_second_op]> (<[2 := same_second_op]> (<[0 := later_op]> ∅)).
Definition worker_queue : Queue.queue_state := Queue.mkQueue true false 2 [] true.

Lemma worker_fetch_ordered_by_created_at_witness :
  queue_worker_dispatch worker_queue two_pending
    [(1, same_second_op); (2, same_second_op)] [(1, same_second_op); (2, same_second_op)] /\
  Sorted created_then_id_lt [(1, same_second_op); (2, same_second_op)].
Proof.
  assert (H : queue_worker_dispatch worker_queue two_pending
    [(1, same_second_op); (2, same_second_op)] [(1, same_second_op); (2, same_second_op)]).
  { unfold queue_worker_dispatch; simpl. repeat split; try lia; vm_compute; reflexivity. }
  split; [exact H|].
  exact (proj1 (worker_fetch_ordered_by_created_at _ _ _ _ H)).
Defined.

End FetchFacts.

(* ================================================================== *)
(** ** Destination picker *)
(* ================================================================== *)

Module PickerFacts.
Import Picker.

Definition score_desc (a b : candidate) : Prop := score b <= score a.

Lemma in_insert_desc (c x : candidate) (l : list candidate) :
  In x (insert_desc c l) <-> x = c \/ In x l.
Proof.
  induction l as [|y l IH]; simpl; [intuition congruence|].
  destruct (score y <? score c); simpl; [intuition congruence|].
  rewrite IH. intuition congruence.
Qed.

Lemma in_fold_insert (l acc : list candidate) (x : candidate) :
  In x (fold_left (fun acc c => insert_desc c acc) l acc) <-> In x l \/ In x acc.
Proof.
  revert acc; induction l as [|c l IH]; intros acc; simpl; [tauto|].
  rewrite IH, in_insert_desc. intuition congruence.
Qed.

Lemma in_sort_desc (l : list candidate) (x : candidate) : In x (sort_desc l) <-> In x l.
Proof. unfold sort_desc. rewrite in_fold_insert. simpl. tauto. Qed.

Lemma HdRel_insert_desc (y c : candidate) (l : list candidate) :
  HdRel score_desc y l -> score_desc y c -> HdRel score_desc y (insert_desc c l).
Proof.
  intros Hh Hyc. destruct l as [|z l]; simpl; [constructor; exact Hyc|].
  destruct (score z <? score c); constructor; [exact Hyc|].
  inversion Hh; assumption.
Qed.

Lemma sorted_insert_desc (c : candidate) (l : list candidate) :
  Sorted score_desc l -> Sorted score_desc (insert_desc c l).
Proof.
  induction l as [|y l IH]; intros H; simpl.
  - repeat constructor.
  - destruct (Z.ltb_spec (score y) (score c)) as [Hlt|Hge].
    + constructor; [exact H|]. constructor. unfold score_desc. lia.
    + inversion H as [|? ? Hl Hh]; subst.
      constructor; [apply IH, Hl|].
      apply HdRel_insert_desc; [exact Hh|]. unfold score_desc. lia.
Qed.

Lemma sorted_sort_desc (l : list candidate) : Sorted score_desc (sort_desc l).
Proof.
  unfold sort_desc.
  assert (H : forall acc, Sorted score_desc acc ->
            Sorted score_desc (fold_left (fun acc c => insert_desc c acc) l acc)).
  { induction l as [|c l IH]; intros acc Hacc; simpl; [exact Hacc|].
    apply IH, sorted_insert_desc, Hacc. }
  apply H. constructor.
Qed.

Lemma prefer_type_not_denylist (mt : option string) :
  String.eqb "denylist" (prefer_type mt) = false.
Proof. destruct mt; reflexivity. Qed.

Definition deny_rule (r : user_rule) : bool := String.eqb r.(rule_type) "denylist".
Definition pref_rule (mt : option string) (r : user_rule) : bool :=
  negb (deny_rule r) &&
  (String.eqb r.(rule_type) (prefer_type mt) || String.eqb r.(rule_type) "prefer_all").

Lemma build_lists_filter (mt : option string) (rs : list user_rule) :
  build_lists mt rs = (map rule_drive_id (List.filter deny_rule rs),
                       map rule_drive_id (List.filter (pref_rule mt) rs)).
Proof.
  induction rs as [|r rs IH]; simpl; [reflexivity|].
  rewrite IH. unfold pref_rule, deny_rule.
  destruct (String.eqb (rule_type r) "denylist"); simpl; [reflexivity|].
  destruct (String.eqb (rule_type r) (prefer_type mt)); simpl; [reflexivity|].
  destruct (String.eqb (rule_type r) "prefer_all"); reflexivity.
Qed.

Lemma pref_rule_spec (mt : option string) (r : user_rule) :
  pref_rule mt r = true <->
  rule_type r = prefer_type mt \/ rule_type r = "prefer_all".
Proof.
  unfold pref_rule, deny_rule.
  rewrite andb_true_iff, orb_true_iff, negb_true_iff, !String.eqb_eq.
  split; [tauto|]. intros H; split; [|exact H].
  apply not_true_iff_false. rewrite String.eqb_eq.
  intros Hd. destruct H as [H|H]; rewrite Hd in H; [|discriminate].
  pose proof (prefer_type_not_denylist mt) as Hn. rewrite H, String.eqb_refl in Hn.
  discriminate.
Qed.

Lemma build_lists_deny (mt : option string) (rs : list user_rule) (i : Z) :
  In i (fst (build_lists mt rs)) <-> rule_names rs "denylist" i.
Proof.
  rewrite build_lists_filter. simpl. unfold rule_names. rewrite in_map_iff.
  split.
  - intros (r & Hi & Hin). apply filter_In in Hin as [Hin Hd].
    exists r. unfold deny_rule in Hd. apply String.eqb_eq in Hd. auto.
  - intros (r & Hin & Ht & Hi). exists r. split; [exact Hi|].
    apply filter_In. split; [exact Hin|]. unfold deny_rule. rewrite Ht. reflexivity.
Qed.

Lemma build_lists_pref (mt : option string) (rs : list user_rule) (i : Z) :
  In i (snd (build_lists mt rs)) <->
  rule_names rs "prefer_all" i \/ rule_names rs (prefer_type mt) i.
Proof.
  rewrite build_lists_filter. simpl. unfold rule_names. rewrite in_map_iff.
  split.
  - intros (r & Hi & Hin). apply filter_In in Hin as [Hin Hp].
    apply pref_rule_spec in Hp as [Hp|Hp]; [right|left]; exists r; auto.
  - intros [(r & Hin & Ht & Hi)|(r & Hin & Ht & Hi)]; exists r; split; auto;
      apply filter_In; split; auto; apply pref_rule_spec; auto.
Qed.

Lemma in_score_drives (disk : string -> option (Z * Z)) (sd fsz : Z)
    (deny pref : list Z) (ds : list drive) (c : candidate) :
  In c (score_drives disk sd fsz deny pref ds) ->
  In c.(c_drive) ds /\ drive_id c.(c_drive) <> sd /\ ~ In (drive_id c.(c_drive)) deny /\
  disk (mount_path c.(c_drive)) = Some (free_space c, total_space c) /\
  below_required (free_space c) fsz = false /\
  score c = (if bool_decide (drive_id c.(c_drive) ∈ pref)
             then free_space c + preferred_boost else free_space c).
Proof.
  induction ds as [|d ds IH]; simpl; [tauto|].
  destruct (Z.eqb_spec (drive_id d) sd) as [Hs|Hs];
    [intros H; specialize (IH H); intuition|].
  destruct (bool_decide (drive_id d ∈ deny)) eqn:Hdeny;
    [intros H; specialize (IH H); intuition|].
  destruct (disk (mount_path d)) as [[free total]|] eqn:Hdisk;
    [|intros H; specialize (IH H); intuition].
  destruct (below_required free fsz) eqn:Hbelow;
    [intros H; specialize (IH H); intuition|].
  intros [<-|H]; [|specialize (IH H); intuition].
  simpl. apply bool_decide_eq_false in Hdeny. rewrite list_elem_of_In in Hdeny.
  repeat split; auto.
Qed.

Lemma log2_lt_53 (a : Z) : 0 <= a < 2 ^ 53 -> Z.log2 a < 53.
Proof.
  intros [H0 H1]. destruct (Z.eq_dec a 0) as [->|Ha]; [simpl; lia|].
  apply Z.log2_lt_pow2; lia.
Qed.

Lemma round53_exact (m e : Z) :
  Z.abs m < 2 ^ 53 -> e < 971 -> round53 m e = Fin m e.
Proof.
  intros Hm He. unfold round53.
  pose proof (log2_lt_53 (Z.abs m) ltac:(lia)) as Hl.
  pose proof (Z.log2_nonneg (Z.abs m)).
  replace (Z.max 0 (Z.log2 (Z.abs m) + 1 - 53)) with 0 by lia.
  rewrite Z.shiftr_0_r, Z.shiftl_0_r, Z.sub_diag, Z.pow_0_r, Z.mul_0_r.
  replace ((1 <? 0) || ((0 =? 1) && Z.odd (Z.abs m)))%bool with false by reflexivity.
  replace (1024 <=? Z.log2 (Z.abs m) + (e + 0)) with false by (symmetry; apply Z.leb_gt; lia).
  rewrite Bool.andb_false_r, Z.add_0_r. f_equal. destruct m; reflexivity.
Qed.

Lemma round53_nonneg (m e : Z) : 0 <= m ->
  round53 m e = PosInf \/
  exists q s, round53 m e = Fin q (e + s) /\ 0 <= s /\ 0 <= q /\
    2 * Z.abs (q * 2 ^ s - m) <= 2 ^ s /\ (s = 0 \/ 2 ^ s * 2 ^ 52 <= m).
Proof.
  intros Hm. unfold round53. rewrite Z.abs_eq by exact Hm.
  set (s := Z.max 0 (Z.log2 m + 1 - 53)).
  assert (Hs : 0 <= s) by lia.
  assert (Hp : 0 < 2 ^ s) by (apply Z.pow_pos_nonneg; lia).
  rewrite Z.shiftr_div_pow2, Z.shiftl_mul_pow2 by exact Hs.
  set (q := m / 2 ^ s).
  assert (Hr : m - q * 2 ^ s = m mod 2 ^ s)
    by (unfold q; rewrite Z.mod_eq by lia; lia).
  pose proof (Z.mod_pos_bound m (2 ^ s) Hp) as Hrb.
  rewrite Hr.
  set (r := m mod 2 ^ s) in *.
  assert (Hq : 0 <= q) by (apply Z.div_pos; lia).
  assert (Hqr : m = q * 2 ^ s + r) by lia.
  assert (Hb : s = 0 \/ 2 ^ s * 2 ^ 52 <= m).
  { destruct (Z.eq_dec s 0) as [E|E]; [left; exact E|right].
    assert (Hl : s = Z.log2 m + 1 - 53) by lia.
    assert (Hm0 : 0 < m).
    { destruct (Z.eq_dec m 0) as [->|]; [simpl in Hl; lia|lia]. }
    rewrite <- Z.pow_add_r by lia. replace (s + 52) with (Z.log2 m) by lia.
    apply Z.log2_spec. exact Hm0. }
  set (q' := if (2 ^ s <? 2 * r) || ((2 * r =? 2 ^ s) && Z.odd q) then q + 1 else q).
  assert (Herr : 0 <= q' /\ 2 * Z.abs (q' * 2 ^ s - m) <= 2 ^ s).
  { unfold q'. destruct (Z.ltb_spec (2 ^ s) (2 * r)) as [Hlt|Hge]; cbn [orb andb].
    - split; [lia|]. rewrite Z.abs_eq; lia.
    - destruct (Z.eqb_spec (2 * r) (2 ^ s)) as [Heq|Hne]; cbn [orb andb].
      + destruct (Z.odd q); cbn [orb andb].
        * split; [lia|]. rewrite Z.abs_eq; lia.
        * split; [lia|]. rewrite Z.abs_neq; lia.
      + split; [lia|]. rewrite Z.abs_neq; lia. }
  destruct ((0 <? q') && (1024 <=? Z.log2 q' + (e + s)))%bool.
  - left. replace (m <? 0) with false by (symmetry; apply Z.ltb_ge; lia). reflexivity.
  - right. exists q', s. split; [|split; [exact Hs|split; [apply Herr|split; [apply Herr|exact Hb]]]].
    f_equal. destruct (Z.eq_dec m 0) as [E|E].
    + assert (Eq : q = 0) by nia. assert (Er : r = 0) by nia.
      rewrite E. unfold q'. rewrite Eq, Er.
      destruct (Z.ltb_spec (2 ^ s) (2 * 0)); [lia|]. destruct (Z.eqb_spec (2 * 0) (2 ^ s)); [lia|].
      reflexivity.
    + rewrite Z.sgn_pos by lia. lia.
Qed.

Lemma pow2_lt_inv (a b : Z) : 0 <= a -> 0 <= b -> 2 ^ a < 2 ^ b -> a < b.
Proof. intros Ha Hb H. apply (Z.pow_lt_mono_r_iff 2); lia. Qed.

Lemma abs2_le (a b : Z) : 2 * Z.abs a <= b -> 2 * a <= b /\ - b <= 2 * a.
Proof. intros H. destruct (Z.abs_spec a) as [[_ E]|[_ E]]; lia. Qed.

Lemma below_required_bound (free n : Z) :
  0 <= n < 2 ^ 53 -> below_required free n = false ->
  10 * free + 20 >= 10 * n + Z.max (10 * (10 * GiB)) n.
Proof.
  intros Hn Hb. unfold below_required, min_required, float_of_int in Hb.
  rewrite round53_exact in Hb by lia.
  unfold point1, fmul in Hb.
  set (C := 3602879701896397) in *.
  assert (HC : 2 ^ 55 <= 10 * C /\ C < 2 ^ 52) by (unfold C; lia).
  destruct (round53_nonneg (n * C) (0 + -55) ltac:(unfold C; nia))
    as [Hinf|(q1 & s1 & Hr1 & Hs1 & Hq1 & Herr1 & Hb1)]; [rewrite Hinf in Hb; discriminate|].
  rewrite Hr1 in Hb.
  set (P := 2 ^ s1) in *.
  assert (HP0 : 1 <= P) by (unfold P; pose proof (Z.pow_pos_nonneg 2 s1); lia).
  assert (Hs1' : s1 <= 52).
  { destruct Hb1 as [->|Hb1]; [lia|].
    assert (H : 2 ^ (s1 + 52) < 2 ^ 105).
    { rewrite Z.pow_add_r by lia. fold P. nia. }
    apply pow2_lt_inv in H; lia. }
  assert (HP : P <= 2 ^ 52) by (apply Z.pow_le_mono_r; lia).
  set (X := 2 ^ (55 - s1)).
  assert (HXP : X * P = 2 ^ 55) by (unfold X, P; rewrite <- Z.pow_add_r by lia; f_equal; lia).
  unfold int_lt_float in Hb.
  replace (0 <=? 0 + -55 + s1) with false in Hb by (symmetry; apply Z.leb_gt; lia).
  replace (- (0 + -55 + s1)) with (55 - s1) in Hb by lia. fold X in Hb.
  destruct (Z.ltb_spec (10 * GiB * X) q1) as [Hgt|Hle].
  - (* the float bound: [file_size + file_size * 0.1] *)
    unfold fadd in Hb.
    rewrite Z.min_r in Hb by lia.
    replace (0 - (0 + -55 + s1)) with (55 - s1) in Hb by lia.
    rewrite Z.sub_diag in Hb. fold X in Hb. rewrite Z.mul_1_r in Hb.
    assert (HA : q1 * P > 10 * GiB * 2 ^ 55) by (rewrite <- HXP; nia).
    assert (HX0 : 0 < X) by (apply Z.pow_pos_nonneg; lia).
    destruct (round53_nonneg (n * X + q1) (0 + -55 + s1) ltac:(nia))
      as [Hinf|(q2 & s2 & Hr2 & Hs2 & Hq2 & Herr2 & Hb2)]; [rewrite Hinf in Hb; discriminate|].
    rewrite Hr2 in Hb.
    set (Q := 2 ^ s2) in *.
    assert (HQ0 : 1 <= Q) by (unfold Q; pose proof (Z.pow_pos_nonneg 2 s2); lia).
    assert (HMP : (n * X + q1) * P = n * 2 ^ 55 + q1 * P) by (rewrite <- HXP; ring).
    assert (HE1 : 2 * (q1 * P) <= 2 * (n * C) + P) by (apply abs2_le in Herr1; lia).
    assert (HE1' : 2 * (n * C) <= 2 * (q1 * P) + P) by (apply abs2_le in Herr1; lia).
    assert (HE2 : 2 * (n * X + q1) <= 2 * (q2 * Q) + Q) by (apply abs2_le in Herr2; lia).
    assert (HE2P : 2 * (n * 2 ^ 55 + q1 * P) <= 2 * (q2 * (Q * P)) + Q * P).
    { rewrite <- HMP.
      replace (2 * ((n * X + q1) * P)) with ((2 * (n * X + q1)) * P) by ring.
      replace (2 * (q2 * (Q * P)) + Q * P) with ((2 * (q2 * Q) + Q) * P) by ring.
      apply Z.mul_le_mono_nonneg_r; lia. }
    set (Y := Q * P) in *.
    assert (HY : Y <= 2 ^ 56).
    { destruct Hb2 as [E|Hb2].
      - unfold Y, Q. rewrite E, Z.pow_0_r. lia.
      - assert (H : 2 ^ (s2 + s1 + 52) < 2 ^ 109).
        { rewrite !Z.pow_add_r by lia. fold Q P.
          assert (H1 : Q * 2 ^ 52 * P <= (n * X + q1) * P) by (apply Z.mul_le_mono_nonneg_r; lia).
          rewrite HMP in H1. nia. }
        apply pow2_lt_inv in H; [|lia|lia].
        unfold Y, Q, P. rewrite <- Z.pow_add_r by lia. apply Z.pow_le_mono_r; lia. }
    assert (HF : q2 * Y <= free * 2 ^ 55).
    { destruct (Z.leb_spec 0 (0 + -55 + s1 + s2)) as [He|He].
      - apply Z.ltb_ge in Hb.
        replace (0 + -55 + s1 + s2) with (s1 + s2 - 55) in Hb by lia.
        assert (E : Y = 2 ^ (s1 + s2 - 55) * 2 ^ 55)
          by (unfold Y, Q, P; rewrite <- !Z.pow_add_r by lia; f_equal; lia).
        rewrite E. nia.
      - apply Z.ltb_ge in Hb.
        replace (- (0 + -55 + s1 + s2)) with (55 - s1 - s2) in Hb by lia.
        assert (E : 2 ^ 55 = 2 ^ (55 - s1 - s2) * Y)
          by (unfold Y, Q, P; rewrite <- !Z.pow_add_r by lia; f_equal; lia).
        rewrite E. assert (0 <= Y) by lia. nia. }
    assert (HnC : n * 2 ^ 56 <= 20 * (n * C)) by nia.
    destruct (Z.max_spec (10 * (10 * GiB)) n) as [[_ ->]|[_ ->]]; unfold GiB in *; lia.
  - (* the int bound: [file_size + 10 * 1024**3] *)
    apply Z.ltb_ge in Hb.
    assert (HA : q1 * P <= 10 * GiB * 2 ^ 55) by (rewrite <- HXP; nia).
    assert (HE1' : 2 * (n * C) <= 2 * (q1 * P) + P) by (apply abs2_le in Herr1; lia).
    assert (HnC : n * 2 ^ 56 <= 20 * (n * C)) by nia.
    unfold GiB in *. lia.
Qed.

(** C5 (as corrected): the destination picker's list is sorted by
    descending score. It never holds the source file's drive or a drive
    named by a [denylist] rule. Every drive in it passed Python's check
    [not free_space < file_size + max(10 GiB, file_size * 0.1)], computed
    in double precision. For file sizes in [0, 2^53) that check gives
    [free_space >= file_size + max(10 GiB, file_size / 10) - 2] (here
    scaled by 10). The score is [free_space], plus [10 * 1024^5] exactly
    when a [prefer_all] or [prefer_<media_type>] rule names the drive. *)
Theorem destination_drives_spec (snap : snapshot) (source_file_id : Z)
    (media_type : option string) :
  let res := get_destination_drives snap source_file_id media_type in
  Sorted score_desc res /\
  forall c, In c res ->
    exists sd sz, snap.(source_file) source_file_id = Some (sd, sz) /\
    let file_size := match sz with Some s => s | None => 0 end in
    let id := drive_id c.(c_drive) in
    In c.(c_drive) snap.(all_drives) /\
    id <> sd /\
    ~ rule_names snap.(rules) "denylist" id /\
    snap.(disk_usage) (mount_path c.(c_drive)) = Some (free_space c, total_space c) /\
    below_required (free_space c) file_size = false /\
    (0 <= file_size < 2 ^ 53 ->
     10 * free_space c + 20 >= 10 * file_size + Z.max (10 * (10 * GiB)) file_size) /\
    ((rule_names snap.(rules) "prefer_all" id \/
      rule_names snap.(rules) (prefer_type media_type) id) ->
     score c = free_space c + 10 * 1024 ^ 5) /\
    (~ (rule_names snap.(rules) "prefer_all" id \/
        rule_names snap.(rules) (prefer_type media_type) id) ->
     score c = free_space c).
Proof.
  unfold get_destination_drives.
  destruct (source_file snap source_file_id) as [[sd sz]|] eqn:Hsrc.
  2:{ split; [constructor|]. intros c []. }
  rewrite build_lists_filter.
  split; [apply sorted_sort_desc|].
  intros c Hc. apply (proj1 (in_sort_desc _ _)) in Hc.
  pose proof (build_lists_deny media_type (rules snap)) as Hd.
  pose proof (build_lists_pref media_type (rules snap)) as Hp.
  rewrite build_lists_filter in Hd, Hp; simpl in Hd, Hp.
  apply in_score_drives in Hc as (Hin & Hne & Hnd & Hdisk & Hbelow & Hscore).
  exists sd, sz. split; [reflexivity|]. simpl.
  repeat split; auto.
  - rewrite <- Hd. exact Hnd.
  - intros Hsz. apply below_required_bound; assumption.
  - intros Hpr. apply Hp in Hpr. rewrite Hscore, bool_decide_eq_true_2.
    + reflexivity.
    + apply list_elem_of_In. exact Hpr.
  - intros Hpr. rewrite Hscore, bool_decide_eq_false_2; [reflexivity|].
    rewrite list_elem_of_In, Hp. exact Hpr.
Qed.

(** Scenario S6 of the specification: source drive 1, drive 2 on the
    denylist, drive 3 preferred for all media, drive 4 larger than 3. *)
Definition s6_snapshot : snapshot :=
  mkSnap (fun fid => if Z.eqb fid 10 then Some (1, Some (3 * GiB)) else None)
         [mkDrive 1 "/mnt/a"; mkDrive 2 "/mnt/b"; mkDrive 3 "/mnt/c"; mkDrive 4 "/mnt/d"]
         [mkRule "denylist" 2 5; mkRule "prefer_all" 3 1]
         (fun m => if String.eqb m "/mnt/a" then Some (500 * GiB, 1000 * GiB)
                   else if String.eqb m "/mnt/b" then Some (900 * GiB, 1000 * GiB)
                   else if String.eqb m "/mnt/c" then Some (20 * GiB, 1000 * GiB)
                   else if String.eqb m "/mnt/d" then Some (800 * GiB, 2000 * GiB)
                   else None).

Lemma destination_drives_spec_witness :
  Sorted score_desc (get_destination_drives s6_snapshot 10 (Some "movie")) /\
  map (fun c => drive_id c.(c_drive)) (get_destination_drives s6_snapshot 10 (Some "movie"))
    = [3; 4].
Proof.
  split; [exact (proj1 (destination_drives_spec s6_snapshot 10 (Some "movie")))|].
  vm_compute. reflexivity.
Defined.

(** A 1070271087583721-byte source file on drive 1; drive 2 has
    1177298196342093 bytes free. *)
Definition big_file_snapshot : snapshot :=
  mkSnap (fun fid => if Z.eqb fid 10 then Some (1, Some 1070271087583721) else None)
         [mkDrive 1 "/mnt/a"; mkDrive 2 "/mnt/b"]
         []
         (fun m => if String.eqb m "/mnt/a" then Some (1100000000000000, 2000000000000000)
                   else if String.eqb m "/mnt/b" then Some (1177298196342093, 2000000000000000)
                   else None).

(** C5 counterexample: [file_size + file_size * 0.1] rounds
    1177298196342093.1 down to the double 1177298196342093.0, so the
    picker returns drive 2 although its free space is below
    [file_size + max(10 GiB, 10% of file_size)]. *)
Lemma destination_below_exact_bound :
  get_destination_drives big_file_snapshot 10 None
    = [mkCand (mkDrive 2 "/mnt/b") 1177298196342093 2000000000000000 1177298196342093] /\
  10 * 1177298196342093 < 10 * 1070271087583721 + Z.max (10 * (10 * GiB)) 1070271087583721.
Proof. split; vm_compute; reflexivity. Qed.

End PickerFacts.

(* ================================================================== *)
(** ** Matcher lookup *)
(* ================================================================== *)

Module MatcherFacts.
Import Matcher.

Lemma opt_str_eqb_spec (o : option string) (v : string) :
  opt_str_eqb o v = true <-> o = Some v.
Proof.
  destruct o as [t|]; simpl; [|split; discriminate].
  rewrite String.eqb_eq. split; congruence.
Qed.

Lemma truthy_some (s : string) : truthy (Some s) = true <-> s <> "".
Proof.
  simpl. rewrite negb_true_iff. split.
  - intros H He. subst. discriminate.
  - intros H. apply not_true_iff_false. rewrite String.eqb_eq. exact H.
Qed.

Lemma first_linked_some col v its fs links i :
  first_linked col v its fs links = Some i ->
  exists fid it f, In (i, fid) links /\ its !! i = Some it /\ fs !! fid = Some f /\
                   col f = Some v.
Proof.
  induction links as [|[iid fid] rest IH]; simpl; [discriminate|].
  destruct (its !! iid) as [it|] eqn:Hi; destruct (fs !! fid) as [f|] eqn:Hf;
    try (intros H; destruct (IH H) as (fid' & it' & f' & ?); exists fid', it', f'; tauto).
  destruct (opt_str_eqb (col f) v) eqn:Hc.
  - intros [= <-]. apply opt_str_eqb_spec in Hc. exists fid, it, f. auto.
  - intros H. destruct (IH H) as (fid' & it' & f' & ?); exists fid', it', f'; tauto.
Qed.

Lemma first_linked_none col v its fs links :
  first_linked col v its fs links = None ->
  forall i fid it f, In (i, fid) links -> its !! i = Some it -> fs !! fid = Some f ->
                     col f <> Some v.
Proof.
  induction links as [|[iid fid] rest IH]; simpl; [intros _ ? ? ? ? []|].
  intros H i fid' it f Hin Hi Hf.
  destruct (its !! iid) as [it0|] eqn:Hi0; destruct (fs !! fid) as [f0|] eqn:Hf0;
    destruct Hin as [[= <- <-]|Hin]; try congruence; try (eapply IH; eauto; fail).
  - destruct (opt_str_eqb (col f0) v) eqn:Hc; [discriminate|].
    intros Hv. assert (f0 = f) by congruence. subst.
    apply not_true_iff_false in Hc. apply Hc, opt_str_eqb_spec, Hv.
  - destruct (opt_str_eqb (col f0) v); [discriminate|]. eapply IH; eauto.
Qed.

Lemma first_linked_linked (c : catalog) col v i :
  first_linked col v c.(media_items) c.(files) c.(media_item_files) = Some i ->
  linked_with col v c i.
Proof.
  intros H. destruct (first_linked_some _ _ _ _ _ _ H) as (fid & it & f & ?).
  exists fid, it, f. tauto.
Qed.

Lemma first_linked_unlinked (c : catalog) col v :
  first_linked col v c.(media_items) c.(files) c.(media_item_files) = None ->
  forall i, ~ linked_with col v c i.
Proof.
  intros H i (fid & it & f & Hin & Hi & Hf & Hc).
  exact (first_linked_none _ _ _ _ _ H i fid it f Hin Hi Hf Hc).
Qed.

(** C3 (as the code does it): a non-empty [full_hash] with a linked file of
    equal hash gives that item and changes nothing. Otherwise (no
    non-empty [full_hash], or no such file) a non-empty [quick_sig] with a
    linked file of equal signature gives that item and sets it to
    [needs_verification]; failing both, the result is null and the
    catalog is unchanged. *)
Theorem find_matching_item_cases (qs fh : option string) (c : catalog) :
  (exists h i, fh = Some h /\ h <> "" /\ linked_with full_hash h c i /\
               find_matching_item qs fh c = (Some i, c))
  \/ ((forall h, fh = Some h -> h <> "" -> forall i, ~ linked_with full_hash h c i) /\
      ((exists q i, qs = Some q /\ q <> "" /\ linked_with quick_sig q c i /\
          find_matching_item qs fh c = (Some i, set_status i NeedsVerification c))
       \/ ((forall q, qs = Some q -> q <> "" -> forall i, ~ linked_with quick_sig q c i) /\
           find_matching_item qs fh c = (None, c)))).
Proof.
  assert (Hfull : (exists h i, fh = Some h /\ h <> "" /\
                     first_linked full_hash h c.(media_items) c.(files)
                                  c.(media_item_files) = Some i) \/
                  (forall h, fh = Some h -> h <> "" ->
                     first_linked full_hash h c.(media_items) c.(files)
                                  c.(media_item_files) = None)).
  { destruct fh as [h|]; [|right; discriminate].
    destruct (first_linked full_hash h (media_items c) (files c) (media_item_files c))
      as [i|] eqn:E.
    - destruct (String.eqb_spec h "") as [He|He].
      + right. intros ? [= <-] Hne. contradiction.
      + left. exists h, i. auto.
    - right. intros ? [= <-] _. exact E. }
  destruct Hfull as [(h & i & -> & Hne & Hi)|Hnone].
  - left. exists h, i. repeat split; auto; [apply first_linked_linked; exact Hi|].
    unfold find_matching_item. apply truthy_some in Hne. rewrite Hne, Hi.
    rewrite andb_false_r. reflexivity.
  - right. split.
    { intros h Hh Hne. apply first_linked_unlinked, Hnone; auto. }
    assert (Hprim : match fh with
                    | Some h => if truthy fh
                                then first_linked full_hash h c.(media_items) c.(files)
                                                  c.(media_item_files)
                                else None
                    | None => None end = None).
    { destruct fh as [h|]; [|reflexivity].
      destruct (truthy (Some h)) eqn:Ht; [|reflexivity].
      apply Hnone; [reflexivity|]. apply truthy_some, Ht. }
    unfold find_matching_item. rewrite Hprim.
    destruct qs as [q|].
    + destruct (truthy (Some q)) eqn:Hq.
      * assert (Hq' : q <> "") by (apply truthy_some, Hq).
        cbn [negb andb].
        destruct (first_linked quick_sig q (media_items c) (files c) (media_item_files c))
          as [i|] eqn:E.
        -- left. exists q, i. repeat split; auto. apply first_linked_linked, E.
        -- right. split; [|reflexivity].
           intros q' [= <-] _. apply first_linked_unlinked, E.
      * right. split.
        -- intros q' [= <-] Hne. apply truthy_some in Hne. congruence.
        -- match goal with |- (if ?b then _ else _) = _ => destruct b end; reflexivity.
    + right. split; [discriminate|].
      match goal with |- (if ?b then _ else _) = _ => destruct b end; reflexivity.
Qed.

(** One item (7) linked to one file (3) that has a quick signature but no
    full hash yet. *)
Definition quick_only : catalog :=
  mkCatalog (<[7 := mkItem "movie" Auto]> ∅) [(7, 3)]
            (<[3 := mkSigs (Some "1048576:aa:bb") None]> ∅).

Lemma find_matching_item_cases_witness :
  fst (find_matching_item (Some "1048576:aa:bb") (Some "ff00") quick_only) = Some 7 /\
  ((exists h i, Some "ff00" = Some h /\ h <> "" /\ linked_with full_hash h quick_only i /\
       find_matching_item (Some "1048576:aa:bb") (Some "ff00") quick_only = (Some i, quick_only))
   \/ ((forall h, Some "ff00" = Some h -> h <> "" ->
          forall i, ~ linked_with full_hash h quick_only i) /\
       ((exists q i, Some "1048576:aa:bb" = Some q /\ q <> "" /\
           linked_with quick_sig q quick_only i /\
           find_matching_item (Some "1048576:aa:bb") (Some "ff00") quick_only
             = (Some i, set_status i NeedsVerification quick_only))
        \/ ((forall q, Some "1048576:aa:bb" = Some q -> q <> "" ->
               forall i, ~ linked_with quick_sig q quick_only i) /\
            find_matching_item (Some "1048576:aa:bb") (Some "ff00") quick_only
              = (None, quick_only))))).
Proof.
  split; [reflexivity|].
  exact (find_matching_item_cases (Some "1048576:aa:bb") (Some "ff00") quick_only).
Defined.

(** C3 counterexample: a non-null [full_hash] that no file has does not
    give null: the lookup falls back to the quick signature, returns item
    7 and marks it [needs_verification]. *)
Lemma full_hash_miss_falls_back :
  (forall i, ~ linked_with full_hash "ff00" quick_only i) /\
  find_matching_item (Some "1048576:aa:bb") (Some "ff00") quick_only
    = (Some 7, set_status 7 NeedsVerification quick_only) /\
  option_map item_status
    ((snd (find_matching_item (Some "1048576:aa:bb") (Some "ff00") quick_only))
       .(media_items) !! 7) = Some NeedsVerification.
Proof.
  split; [|split; reflexivity].
  intros i (fid & it & f & Hin & Hi & Hf & Hc).
  simpl in Hin. destruct Hin as [[= <- <-]|[]].
  vm_compute in Hf. injection Hf as <-. discriminate.
Qed.

End MatcherFacts.

(* ================================================================== *)
(** ** Verified copy: failure paths *)
(* ================================================================== *)

Module CopierFacts.
Import Copier.

Lemma append_length (s t : string) : String.length (s +++ t) = (String.length s + String.length t)%nat.
Proof. induction s as [|c s IH]; simpl; [reflexivity|]. rewrite IH. reflexivity. Qed.

Lemma tmp_of_neq (dest : string) : tmp_of dest <> dest.
Proof.
  unfold tmp_of. intros H. apply (f_equal String.length) in H.
  rewrite append_length in H. simpl in H. lia.
Qed.

Section Failures.
Variable transfer : list byte -> list byte.
Variable sha256 : list byte -> string.

Lemma copy_body_fail (src dest : string) (v : bool) (n : nat) (st st' : fs) (e : copy_error) :
  copy_body transfer sha256 src dest v n st = (inr e, st') ->
  early_error e = false /\ st'.(fs_files) !! dest = st.(fs_files) !! dest.
Proof.
  unfold copy_body.
  destruct (bool_decide (tmp_of dest ∈ fs_dirs st)).
  { intros [= <- <-]. auto. }
  set (w := transfer _).
  assert (Hd : (<[tmp_of dest := w]> (fs_files st)) !! dest = fs_files st !! dest).
  { apply lookup_insert_ne. apply tmp_of_neq. }
  destruct (negb (Nat.eqb (length w) n)); [intros [= <- <-]; simpl; auto|].
  destruct (v && _); [intros [= <- <-]; simpl; auto|].
  destruct (bool_decide (dest ∈ _)); [intros [= <- <-]; simpl; auto|].
  discriminate.
Qed.

Lemma cleanup_temp_files (tmp p : string) (st : fs) :
  (cleanup_temp tmp st).(fs_files) !! tmp = None /\
  (p <> tmp -> (cleanup_temp tmp st).(fs_files) !! p = st.(fs_files) !! p).
Proof.
  unfold cleanup_temp, is_file.
  destruct (bool_decide (is_Some (fs_files st !! tmp))) eqn:E; simpl.
  - split; [apply lookup_delete_eq|]. intros Hp. apply lookup_delete_ne. congruence.
  - split; [|auto]. apply bool_decide_eq_false in E.
    destruct (fs_files st !! tmp); [exfalso; apply E; eexists; reflexivity|reflexivity].
Qed.

(** C1 (as the code does it): when [safe_copy] fails, the file at
    [dest_path] is whatever it was before. A failure of the checks made
    before the copy starts (source missing or not a regular file,
    destination present without [overwrite], destination directory not
    creatable) leaves every regular file as it was, a stale
    [dest_path + ".tmp"] included; a failure after the copy has started
    (temp file not openable, size mismatch, hash mismatch, destination not
    removable) leaves no regular file at [dest_path + ".tmp"]. *)
Theorem safe_copy_failure (src dest : string) (verify_hash overwrite : bool)
    (st st' : fs) (e : copy_error) :
  safe_copy transfer sha256 src dest verify_hash overwrite st = (inr e, st') ->
  st'.(fs_files) !! dest = st.(fs_files) !! dest /\
  (early_error e = true -> st'.(fs_files) = st.(fs_files)) /\
  (early_error e = false -> st'.(fs_files) !! tmp_of dest = None).
Proof.
  unfold safe_copy.
  destruct (negb (exists_path st src)); [intros [= <- <-]; split; [reflexivity|split; [reflexivity|discriminate]]|].
  destruct (negb (is_file st src)); [intros [= <- <-]; split; [reflexivity|split; [reflexivity|discriminate]]|].
  destruct (exists_path st dest && negb overwrite); [intros [= <- <-]; split; [reflexivity|split; [reflexivity|discriminate]]|].
  destruct (is_file st (parent_of dest)); [intros [= <- <-]; split; [reflexivity|split; [reflexivity|discriminate]]|].
  set (st0 := mkFs (fs_files st) ({[parent_of dest]} ∪ fs_dirs st)).
  destruct (copy_body transfer sha256 src dest verify_hash
              (length (default [] (fs_files st0 !! src))) st0) as [[[]|e0] st1] eqn:E;
    [discriminate|].
  intros [= <- <-].
  destruct (copy_body_fail _ _ _ _ _ _ _ E) as [He Hd].
  destruct (cleanup_temp_files (tmp_of dest) dest st1) as [Ht Hp].
  split; [rewrite Hp by (apply not_eq_sym, tmp_of_neq); exact Hd|].
  split; [congruence|]. intros _. exact Ht.
Qed.

End Failures.

(** A source file of two bytes, and a device that loses the last byte. *)
Definition two_bytes : fs := mkFs (<["/mnt/a/x.mkv" := [x01; x02]]> ∅) ∅.
Definition lossy (b : list byte) : list byte := firstn 1 b.
Definition sha_stub (b : list byte) : string := "".

Lemma safe_copy_failure_witness :
  fst (safe_copy lossy sha_stub "/mnt/a/x.mkv" "/mnt/b/x.mkv" true false two_bytes)
    = inr ESizeMismatch /\
  (snd (safe_copy lossy sha_stub "/mnt/a/x.mkv" "/mnt/b/x.mkv" true false two_bytes))
    .(fs_files) !! tmp_of "/mnt/b/x.mkv" = None.
Proof.
  split; [reflexivity|].
  apply (proj2 (proj2 (safe_copy_failure lossy sha_stub "/mnt/a/x.mkv" "/mnt/b/x.mkv"
           true false two_bytes _ ESizeMismatch eq_refl))).
  reflexivity.
Defined.

(** A temp file left by an earlier interrupted copy, and no source. *)
Definition stale_temp : fs := mkFs (<["/mnt/b/x.mkv.tmp" := [x01]]> ∅) ∅.

(** C1 counterexample: [safe_copy] fails (source missing) but the file at
    [dest_path + ".tmp"] is not removed. *)
Lemma safe_copy_keeps_stale_temp :
  fst (safe_copy id sha_stub "/mnt/a/x.mkv" "/mnt/b/x.mkv" true false stale_temp)
    = inr ESourceNotFound /\
  (snd (safe_copy id sha_stub "/mnt/a/x.mkv" "/mnt/b/x.mkv" true false stale_temp))
    .(fs_files) !! tmp_of "/mnt/b/x.mkv" = Some [x01].
Proof. split; reflexivity. Qed.

End CopierFacts.

(* ================================================================== *)
(** ** Filename parser: the TV example *)
(* ================================================================== *)

Module ParserFacts.
Import Parser.

(** C7: [parse_filename("Breaking.Bad.S01E02.720p.mkv")] strips the
    extension to "Breaking.Bad.S01E02.720p", which the TV patterns (tried
    first) already match, and yields a TV episode titled "Breaking Bad"
    (dots turned into spaces, whitespace collapsed, title-cased) with
    season 1, episode 2 and no year. *)
Theorem parse_breaking_bad :
  strip_extension (list_ascii_of_string "Breaking.Bad.S01E02.720p.mkv")
    = list_ascii_of_string "Breaking.Bad.S01E02.720p" /\
  try_tv TV_PATTERNS (list_ascii_of_string "Breaking.Bad.S01E02.720p")
    = Some (parse_filename "Breaking.Bad.S01E02.720p.mkv") /\
  parse_filename "Breaking.Bad.S01E02.720p.mkv"
    = mkParsed TvEpisode (Some "Breaking Bad") None (Some 1%Z) (Some 2%Z).
Proof. split; [|split]; vm_compute; reflexivity. Qed.

End ParserFacts.

(* ================================================================== *)
(** ** Quarantine and restore *)
(* ================================================================== *)

Module CleanupFacts.
Import PyStr Cleanup.

Fixpoint no_slash (s : string) : bool :=
  match s with
  | EmptyString => true
  | String c s' => negb (Ascii.eqb c "/"%char) && no_slash s'
  end.

Definition seg (c : string) : bool := negb (String.eqb c "") && no_slash c.

Definition good_comp (c : string) : bool :=
  seg c && negb (String.eqb c ".") && negb (String.eqb c "..") &&
  match break_at ".quarantine" c with None => true | Some _ => false end.

Definition abs_of (cs : list string) : string := "/" +++ String.concat "/" cs.

Lemma app_cons (x : ascii) (a b : string) : String x a +++ b = String x (a +++ b).
Proof. reflexivity. Qed.

Lemma str_app_nil_l (b : string) : "" +++ b = b.
Proof. reflexivity. Qed.

Lemma slash_app (b : string) : "/" +++ b = String "/" b.
Proof. reflexivity. Qed.

Lemma str_app_assoc (a b c : string) : (a +++ b) +++ c = a +++ (b +++ c).
Proof. induction a as [|x a IH]; [reflexivity|]. rewrite !app_cons, IH. reflexivity. Qed.

Lemma str_app_nil_r (a : string) : a +++ "" = a.
Proof. induction a as [|x a IH]; [reflexivity|]. rewrite app_cons, IH. reflexivity. Qed.

Lemma str_length_app (a b : string) :
  String.length (a +++ b) = (String.length a + String.length b)%nat.
Proof. induction a as [|x a IH]; [reflexivity|]. rewrite app_cons. simpl. rewrite IH. reflexivity. Qed.

Lemma str_app_nonempty (a b : string) : b <> "" -> a +++ b <> "".
Proof. destruct a; [rewrite str_app_nil_l; auto|rewrite app_cons; discriminate]. Qed.

Lemma no_slash_cons (x : ascii) (s : string) :
  no_slash (String x s) = true -> x <> "/"%char /\ no_slash s = true.
Proof.
  simpl. intros H. apply andb_prop in H as [H1 H2]. split; [|exact H2].
  apply negb_true_iff, Ascii.eqb_neq in H1. exact H1.
Qed.

Lemma seg_nonempty (c : string) : seg c = true -> c <> "" /\ no_slash c = true.
Proof.
  unfold seg. intros H. apply andb_prop in H as [H1 H2]. split; [|exact H2].
  apply negb_true_iff, String.eqb_neq in H1. exact H1.
Qed.

Lemma good_seg (c : string) : good_comp c = true -> seg c = true.
Proof. unfold good_comp. destruct (seg c); [reflexivity|discriminate]. Qed.

Lemma good_seg_all (cs : list string) :
  List.Forall (fun c => good_comp c = true) cs -> List.Forall (fun c => seg c = true) cs.
Proof. apply List.Forall_impl. intros c. apply good_seg. Qed.

Lemma concat_cons2 (a b : string) (bs : list string) :
  String.concat "/" (a :: b :: bs) = a +++ "/" +++ String.concat "/" (b :: bs).
Proof. reflexivity. Qed.

Lemma prefix_nil (s : string) : String.prefix "" s = true.
Proof. destruct s; reflexivity. Qed.

Lemma prefix_cons (a b : ascii) (s1 s2 : string) :
  String.prefix (String a s1) (String b s2) =
  if ascii_dec a b then String.prefix s1 s2 else false.
Proof. reflexivity. Qed.

Lemma prefix_self (s t : string) : String.prefix s (s +++ t) = true.
Proof.
  induction s as [|x s IH]; [apply prefix_nil|].
  rewrite app_cons, prefix_cons. destruct (ascii_dec x x); congruence.
Qed.

Lemma drop_self (s t : string) : drop (String.length s) (s +++ t) = t.
Proof. induction s as [|x s IH]; [destruct t; reflexivity|]. exact IH. Qed.

Lemma prefix_slash_ne (x : ascii) (s : string) :
  x <> "/"%char -> String.prefix "/" (String x s) = false.
Proof. intros Hx. rewrite prefix_cons. destruct (ascii_dec "/" x); congruence. Qed.


Lemma break_at_eq (sep s : string) :
  break_at sep s =
  if String.prefix sep s then Some (EmptyString, drop (String.length sep) s)
  else match s with
       | EmptyString => None
       | String c s' =>
           match break_at sep s' with
           | Some (a, b) => Some (String c a, b)
           | None => None
           end
       end.
Proof. destruct s; reflexivity. Qed.

Lemma break_at_slash (c b : string) :
  no_slash c = true -> break_at "/" (c +++ "/" +++ b) = Some (c, b).
Proof.
  induction c as [|x c IH]; intros Hc; [rewrite str_app_nil_l, break_at_eq, prefix_self, drop_self; reflexivity|].
  apply no_slash_cons in Hc as [Hx Hc].
  rewrite app_cons, break_at_eq, prefix_slash_ne, IH by assumption. reflexivity.
Qed.

Lemma break_at_no_slash (c : string) : no_slash c = true -> break_at "/" c = None.
Proof.
  induction c as [|x c IH]; intros Hc; [reflexivity|].
  apply no_slash_cons in Hc as [Hx Hc].
  rewrite break_at_eq, prefix_slash_ne, IH by assumption. reflexivity.
Qed.

Lemma split_fuel_S (n : nat) (sep s : string) :
  split_fuel (S n) sep s =
  match break_at sep s with
  | None => [s]
  | Some (a, b) => a :: split_fuel n sep b
  end.
Proof. reflexivity. Qed.

Lemma split_fuel_none (n : nat) (sep s : string) :
  break_at sep s = None -> split_fuel n sep s = [s].
Proof. destruct n; simpl; [reflexivity|]. intros ->. reflexivity. Qed.

Lemma split_fuel_concat (cs : list string) (n : nat) :
  cs <> [] -> List.Forall (fun c => no_slash c = true) cs -> (pred (length cs) <= n)%nat ->
  split_fuel n "/" (String.concat "/" cs) = cs.
Proof.
  revert n. induction cs as [|c cs IH]; intros n Hne Hall Hn; [congruence|].
  inversion Hall as [|? ? Hc Hcs]; subst.
  destruct cs as [|c2 cs].
  - apply split_fuel_none, break_at_no_slash, Hc.
  - rewrite concat_cons2. destruct n as [|n]; [simpl in Hn; lia|].
    simpl. rewrite break_at_slash by exact Hc.
    rewrite IH; [reflexivity|discriminate|exact Hcs|simpl in *; lia].
Qed.

Lemma concat_length (cs : list string) :
  (pred (length cs) <= String.length (String.concat "/" cs))%nat.
Proof.
  induction cs as [|c cs IH]; [simpl; lia|].
  destruct cs as [|c2 cs]; [simpl; lia|].
  rewrite concat_cons2, !str_length_app. simpl in *. lia.
Qed.

Lemma split_abs (cs : list string) :
  cs <> [] -> List.Forall (fun c => no_slash c = true) cs ->
  split "/" (abs_of cs) = "" :: cs.
Proof.
  intros Hne Hall. unfold split, abs_of.
  pose proof (break_at_slash "" (String.concat "/" cs) eq_refl) as E.
  rewrite str_app_nil_l in E. rewrite split_fuel_S, E.
  rewrite split_fuel_concat; [reflexivity|exact Hne|exact Hall|].
  rewrite str_length_app. pose proof (concat_length cs). simpl. lia.
Qed.

(** Leading and trailing separators *)

Lemma ends_cons (x : ascii) (s : string) :
  s <> "" -> ends_with_slash (String x s) = ends_with_slash s.
Proof. destruct s; [congruence|reflexivity]. Qed.

Lemma ends_app (a b : string) : b <> "" -> ends_with_slash (a +++ b) = ends_with_slash b.
Proof.
  intros Hb. induction a as [|x a IH]; [reflexivity|].
  rewrite app_cons, ends_cons by (apply str_app_nonempty, Hb). exact IH.
Qed.

Lemma ends_no_slash (c : string) : no_slash c = true -> ends_with_slash c = false.
Proof.
  induction c as [|x c IH]; intros Hc; [reflexivity|].
  apply no_slash_cons in Hc as [Hx Hc].
  destruct c as [|y c].
  - simpl. apply Ascii.eqb_neq, Hx.
  - rewrite ends_cons by discriminate. apply IH, Hc.
Qed.

Lemma starts_no_slash (c : string) : no_slash c = true -> starts_with_slash c = false.
Proof.
  destruct c as [|x c]; intros Hc; [reflexivity|].
  apply no_slash_cons in Hc as [Hx _]. simpl. apply Ascii.eqb_neq, Hx.
Qed.

Lemma starts_app (a b : string) : a <> "" -> starts_with_slash (a +++ b) = starts_with_slash a.
Proof. destruct a; [congruence|reflexivity]. Qed.

Lemma concat_nonempty (cs : list string) :
  cs <> [] -> List.Forall (fun c => seg c = true) cs -> String.concat "/" cs <> "".
Proof.
  intros Hne Hall. destruct cs as [|c cs]; [congruence|].
  inversion Hall as [|? ? Hc _]; subst. apply seg_nonempty in Hc as [Hc _].
  destruct cs as [|c2 cs]; [exact Hc|].
  rewrite concat_cons2. destruct c; [congruence|rewrite app_cons; discriminate].
Qed.

Lemma starts_concat (cs : list string) :
  cs <> [] -> List.Forall (fun c => seg c = true) cs ->
  starts_with_slash (String.concat "/" cs) = false.
Proof.
  intros Hne Hall. destruct cs as [|c cs]; [congruence|].
  inversion Hall as [|? ? Hc _]; subst. apply seg_nonempty in Hc as [Hc Hs].
  destruct cs as [|c2 cs]; [apply starts_no_slash, Hs|].
  rewrite concat_cons2, starts_app by exact Hc. apply starts_no_slash, Hs.
Qed.

Lemma ends_concat (cs : list string) :
  cs <> [] -> List.Forall (fun c => seg c = true) cs ->
  ends_with_slash (String.concat "/" cs) = false.
Proof.
  induction cs as [|c cs IH]; intros Hne Hall; [congruence|].
  inversion Hall as [|? ? Hc Hcs]; subst.
  destruct cs as [|c2 cs]; [apply ends_no_slash, (proj2 (seg_nonempty _ Hc))|].
  rewrite concat_cons2, ends_app by (rewrite slash_app; discriminate).
  rewrite slash_app, ends_cons by (apply concat_nonempty; [discriminate|exact Hcs]).
  apply IH; [discriminate|exact Hcs].
Qed.

Lemma concat_app (xs ys : list string) :
  xs <> [] -> ys <> [] ->
  String.concat "/" (xs ++ ys) = String.concat "/" xs +++ "/" +++ String.concat "/" ys.
Proof.
  intros Hx Hy. induction xs as [|x xs IH]; [congruence|].
  destruct xs as [|x2 xs].
  - destruct ys as [|y ys]; [congruence|]. reflexivity.
  - change (String.concat "/" ((x :: x2 :: xs) ++ ys))
      with (x +++ "/" +++ String.concat "/" ((x2 :: xs) ++ ys)).
    rewrite IH by discriminate. rewrite concat_cons2, !str_app_assoc. reflexivity.
Qed.

(** [posixpath.join] on separator-free components *)

Lemma join2_sep (a b : string) :
  a <> "" -> ends_with_slash a = false -> starts_with_slash b = false ->
  join2 a b = a +++ "/" +++ b.
Proof.
  intros Ha He Hs. unfold join2. rewrite Hs, He.
  destruct (String.eqb_neq a "") as [_ E]. rewrite (E Ha). reflexivity.
Qed.

Lemma join_concat (bs : list string) (a : string) :
  a <> "" -> ends_with_slash a = false -> List.Forall (fun c => seg c = true) bs ->
  join a bs = String.concat "/" (a :: bs).
Proof.
  revert a. induction bs as [|b bs IH]; intros a Ha He Hall; [reflexivity|].
  inversion Hall as [|? ? Hb Hbs]; subst.
  destruct (seg_nonempty _ Hb) as [Hb1 Hb2].
  unfold join. simpl fold_left. fold (join (join2 a b) bs).
  rewrite join2_sep by (auto using starts_no_slash).
  rewrite IH; [|apply str_app_nonempty; rewrite slash_app; discriminate
              |rewrite ends_app by (rewrite slash_app; discriminate);
               rewrite slash_app, ends_cons by exact Hb1; apply ends_no_slash, Hb2
              |exact Hbs].
  destruct bs as [|b2 bs]; [reflexivity|].
  rewrite !concat_cons2, !str_app_assoc. reflexivity.
Qed.

Lemma abs_nonempty (ms : list string) : abs_of ms <> "".
Proof. unfold abs_of. rewrite slash_app. discriminate. Qed.

Lemma ends_abs (ms : list string) :
  ms <> [] -> List.Forall (fun c => seg c = true) ms -> ends_with_slash (abs_of ms) = false.
Proof.
  intros Hne Hall. unfold abs_of. rewrite slash_app, ends_cons by (apply concat_nonempty; assumption).
  apply ends_concat; assumption.
Qed.

Lemma join_abs (ms bs : list string) :
  ms <> [] -> List.Forall (fun c => seg c = true) ms -> List.Forall (fun c => seg c = true) bs ->
  join (abs_of ms) bs = abs_of (ms ++ bs).
Proof.
  intros Hne Hms Hbs. rewrite join_concat by auto using abs_nonempty, ends_abs.
  destruct bs as [|b bs]; [rewrite app_nil_r; reflexivity|].
  destruct ms as [|m ms]; [congruence|].
  change (String.concat "/" (abs_of (m :: ms) :: b :: bs))
    with (abs_of (m :: ms) +++ "/" +++ String.concat "/" (b :: bs)).
  unfold abs_of. rewrite concat_app by discriminate. rewrite str_app_assoc. reflexivity.
Qed.

(** [posixpath.normpath], [abspath] and [relpath] on absolute paths of
    plain components *)

Lemma fold_push (f : list string -> string -> list string) (cs stk : list string) :
  (forall st c, good_comp c = true -> f st c = c :: st) ->
  List.Forall (fun c => good_comp c = true) cs ->
  fold_left f cs stk = rev cs ++ stk.
Proof.
  intros Hf Hall. revert stk. induction Hall as [|c cs Hc Hcs IH]; intros stk; [reflexivity|].
  simpl. rewrite Hf by exact Hc. rewrite IH, <- app_assoc. reflexivity.
Qed.

Lemma good_comp_parts (c : string) :
  good_comp c = true ->
  String.eqb c "" = false /\ String.eqb c "." = false /\ String.eqb c ".." = false.
Proof.
  unfold good_comp, seg. intros H.
  destruct (String.eqb c ""), (String.eqb c "."), (String.eqb c "..");
    try (destruct (no_slash c); discriminate); auto.
Qed.

Lemma prefix_slash_starts (s : string) : String.prefix "/" s = starts_with_slash s.
Proof.
  destruct s as [|x s]; [reflexivity|].
  rewrite prefix_cons, prefix_nil.
  change (starts_with_slash (String x s)) with (Ascii.eqb x "/"%char).
  destruct (ascii_dec "/" x) as [<-|Hx]; [reflexivity|].
  symmetry. apply Ascii.eqb_neq. congruence.
Qed.

Lemma abs_eqb_nil (cs : list string) : String.eqb (abs_of cs) "" = false.
Proof. apply String.eqb_neq, abs_nonempty. Qed.

Lemma abs_prefixes (cs : list string) :
  cs <> [] -> List.Forall (fun c => seg c = true) cs ->
  String.prefix "/" (abs_of cs) = true /\ String.prefix "//" (abs_of cs) = false.
Proof.
  intros Hne Hall. unfold abs_of. rewrite slash_app.
  split; [rewrite prefix_cons, prefix_nil; destruct (ascii_dec "/" "/"); congruence|].
  change (String.prefix "//" (String "/" (String.concat "/" cs)))
    with (String.prefix "/" (String.concat "/" cs)).
  rewrite prefix_slash_starts. apply starts_concat; assumption.
Qed.

Lemma normpath_abs (cs : list string) :
  cs <> [] -> List.Forall (fun c => good_comp c = true) cs ->
  normpath (abs_of cs) = abs_of cs.
Proof.
  intros Hne Hall.
  pose proof (good_seg_all _ Hall) as Hseg.
  assert (Hns : List.Forall (fun c => no_slash c = true) cs).
  { eapply List.Forall_impl; [|exact Hseg]. intros c Hc. apply (seg_nonempty _ Hc). }
  destruct (abs_prefixes cs Hne Hseg) as [Hp1 Hp2].
  unfold normpath.
  rewrite split_abs, abs_eqb_nil, Hp1, Hp2 by assumption.
  cbn [andb orb negb Nat.eqb fold_left].
  rewrite fold_push; [|intros st c Hc; destruct (good_comp_parts c Hc) as (-> & -> & ->);
                       reflexivity|exact Hall].
  rewrite app_nil_r, rev_involutive.
  change ("/" +++ String.concat "/" cs) with (abs_of cs). rewrite abs_eqb_nil. reflexivity.
Qed.

Lemma abspath_abs (cwd : string) (cs : list string) :
  cs <> [] -> List.Forall (fun c => good_comp c = true) cs ->
  abspath cwd (abs_of cs) = abs_of cs.
Proof.
  intros Hne Hall. unfold abspath.
  replace (starts_with_slash (abs_of cs)) with true by (unfold abs_of; rewrite slash_app; reflexivity).
  apply normpath_abs; assumption.
Qed.

Lemma nonempty_comps_abs (cs : list string) :
  cs <> [] -> List.Forall (fun c => seg c = true) cs -> nonempty_comps (abs_of cs) = cs.
Proof.
  intros Hne Hall. unfold nonempty_comps.
  rewrite split_abs; [|exact Hne|eapply List.Forall_impl; [|exact Hall]; intros c Hc; apply (seg_nonempty _ Hc)].
  simpl. clear Hne. induction Hall as [|c cs Hc Hcs IH]; [reflexivity|].
  simpl. destruct (seg_nonempty _ Hc) as [Hc1 _].
  apply String.eqb_neq in Hc1. rewrite Hc1. simpl. rewrite IH. reflexivity.
Qed.

Lemma common_prefix_len_app (ms rs : list string) :
  common_prefix_len ms (ms ++ rs) = length ms.
Proof. induction ms as [|m ms IH]; [destruct rs; reflexivity|]. simpl. rewrite String.eqb_refl, IH. reflexivity. Qed.

Lemma relpath_abs (cwd : string) (ms rs : list string) :
  ms <> [] -> rs <> [] -> List.Forall (fun c => good_comp c = true) (ms ++ rs) ->
  relpath cwd (abs_of (ms ++ rs)) (abs_of ms) = Some (join (hd "" rs) (tl rs)).
Proof.
  intros Hms Hrs Hall.
  pose proof (proj1 (List.Forall_app _ _ _) Hall) as [Hm _]. unfold relpath.
  replace (String.eqb (abs_of (ms ++ rs)) "") with false
    by (symmetry; apply String.eqb_neq, abs_nonempty).
  assert (Hmr : ms ++ rs <> []) by (destruct ms; [congruence|discriminate]).
  rewrite (abspath_abs cwd (ms ++ rs) Hmr Hall), (abspath_abs cwd ms Hms Hm).
  rewrite (nonempty_comps_abs _ Hmr (good_seg_all _ Hall)),
          (nonempty_comps_abs _ Hms (good_seg_all _ Hm)).
  rewrite common_prefix_len_app, Nat.sub_diag. simpl repeat.
  rewrite List.app_nil_l, skipn_app, skipn_all, Nat.sub_diag, List.app_nil_l. simpl.
  destruct rs as [|r rs]; [congruence|]. reflexivity.
Qed.

(** [str.rstrip("/")] *)

Lemma rstrip_cons (c : ascii) (s : string) :
  rstrip_slash (String c s) =
  let r := rstrip_slash s in
  if String.eqb r EmptyString && Ascii.eqb c "/"%char then EmptyString else String c r.
Proof. reflexivity. Qed.

Lemma rstrip_snoc (s : string) : rstrip_slash (s +++ "/") = rstrip_slash s.
Proof.
  induction s as [|x s IH]; [reflexivity|].
  rewrite app_cons. simpl rstrip_slash. rewrite IH. reflexivity.
Qed.

Lemma rstrip_id (s : string) : ends_with_slash s = false -> rstrip_slash s = s.
Proof.
  induction s as [|x s IH]; intros He; [reflexivity|].
  destruct s as [|y s].
  - simpl in He. simpl. rewrite He. reflexivity.
  - rewrite ends_cons in He by discriminate.
    rewrite rstrip_cons, (IH He). reflexivity.
Qed.

(** Splitting on ".quarantine" *)

Lemma prefix_app_slash (sep x y : string) :
  no_slash sep = true -> String.prefix sep (x +++ String "/" y) = true ->
  String.prefix sep x = true.
Proof.
  revert x. induction sep as [|d sep IH]; intros x Hn Hp; [apply prefix_nil|].
  apply no_slash_cons in Hn as [Hd Hn].
  destruct x as [|e x].
  - rewrite str_app_nil_l, prefix_cons in Hp.
    destruct (ascii_dec d "/"); congruence.
  - rewrite app_cons, prefix_cons in Hp. rewrite prefix_cons.
    destruct (ascii_dec d e); [apply IH; assumption|discriminate].
Qed.

Lemma break_at_app_slash (sep a b : string) :
  no_slash sep = true -> break_at sep a = None ->
  break_at sep (a +++ "/" +++ b) =
  match break_at sep b with Some (x, y) => Some (a +++ "/" +++ x, y) | None => None end.
Proof.
  intros Hs. induction a as [|c a IH]; intros Ha.
  - rewrite str_app_nil_l, slash_app, break_at_eq.
    destruct sep as [|d sep]; [rewrite break_at_eq in Ha; discriminate|].
    apply no_slash_cons in Hs as [Hd _].
    rewrite prefix_cons. destruct (ascii_dec d "/"); [congruence|].
    destruct (break_at (String d sep) b) as [[x y]|]; reflexivity.
  - rewrite break_at_eq in Ha.
    destruct (String.prefix sep (String c a)) eqn:Hp; [discriminate|].
    destruct (break_at sep a) as [[x y]|] eqn:Ha'; [discriminate|].
    rewrite app_cons, break_at_eq.
    destruct (String.prefix sep (String c (a +++ "/" +++ b))) eqn:Hq.
    + pose proof (prefix_app_slash sep (String c a) b Hs Hq). congruence.
    + rewrite IH by reflexivity.
      destruct (break_at sep b) as [[x y]|]; reflexivity.
Qed.

Lemma break_at_self (sep t : string) : break_at sep (sep +++ t) = Some ("", t).
Proof. rewrite break_at_eq, prefix_self, drop_self. reflexivity. Qed.

Lemma good_no_occ (c : string) :
  good_comp c = true -> break_at ".quarantine" c = None.
Proof.
  unfold good_comp. destruct (break_at ".quarantine" c); [|reflexivity].
  rewrite andb_false_r. discriminate.
Qed.

Lemma concat_no_occ (cs : list string) :
  List.Forall (fun c => good_comp c = true) cs ->
  break_at ".quarantine" (String.concat "/" cs) = None.
Proof.
  induction 1 as [|c cs Hc Hcs IH]; [reflexivity|].
  destruct cs as [|c2 cs]; [apply good_no_occ, Hc|].
  rewrite concat_cons2, break_at_app_slash, IH by (reflexivity || apply good_no_occ, Hc).
  reflexivity.
Qed.

Lemma slash_no_occ (cs : list string) :
  List.Forall (fun c => good_comp c = true) cs ->
  break_at ".quarantine" ("/" +++ String.concat "/" cs) = None.
Proof.
  intros Hall. pose proof (break_at_app_slash ".quarantine" "" (String.concat "/" cs)
                             eq_refl eq_refl) as E.
  rewrite str_app_nil_l in E. rewrite E, concat_no_occ by exact Hall. reflexivity.
Qed.

Lemma join_single (a b : string) : join a [b] = join2 a b.
Proof. reflexivity. Qed.

(** The path [quarantine_files] stores with the default base. *)
Lemma quarantine_dest (ms rs : list string) (date : string) :
  ms <> [] -> rs <> [] -> List.Forall (fun c => seg c = true) ms ->
  List.Forall (fun c => seg c = true) (date :: rs) ->
  join (join (abs_of ms) [".quarantine"; date]) [join (hd "" rs) (tl rs)]
  = abs_of ms +++ "/" +++ ".quarantine" +++ "/" +++ String.concat "/" (date :: rs).
Proof.
  intros Hms Hrs Hm Hdr. destruct rs as [|r rs]; [congruence|]. simpl hd. simpl tl.
  inversion Hdr as [|? ? Hd Hrs']; subst. inversion Hrs' as [|? ? Hr Hrs'']; subst.
  destruct (seg_nonempty _ Hr) as [Hr1 Hr2].
  rewrite (join_concat rs r Hr1 (ends_no_slash _ Hr2) Hrs'').
  rewrite join_abs by (try assumption; repeat constructor; assumption).
  assert (Hqd : ms ++ [".quarantine"; date] <> []) by (destruct ms; [congruence|discriminate]).
  assert (Hqs : List.Forall (fun c => seg c = true) (ms ++ [".quarantine"; date]))
    by (apply List.Forall_app; split; [exact Hm|repeat constructor; assumption]).
  rewrite join_single, join2_sep; [|apply abs_nonempty|apply ends_abs; assumption
                                  |apply starts_concat; [discriminate|exact Hrs']].
  unfold abs_of. rewrite concat_app by (try assumption; discriminate).
  rewrite (concat_cons2 date r rs).
  change (String.concat "/" [".quarantine"; date]) with (".quarantine" +++ "/" +++ date).
  rewrite !str_app_assoc. reflexivity.
Qed.

Lemma split_dest (ms rs : list string) (date : string) :
  List.Forall (fun c => good_comp c = true) ms ->
  List.Forall (fun c => good_comp c = true) (date :: rs) ->
  split ".quarantine"
        (abs_of ms +++ "/" +++ ".quarantine" +++ "/" +++ String.concat "/" (date :: rs))
  = [abs_of ms +++ "/"; "/" +++ String.concat "/" (date :: rs)].
Proof.
  intros Hm Hdr. unfold split. rewrite split_fuel_S.
  rewrite break_at_app_slash; [|reflexivity|unfold abs_of; apply slash_no_occ, Hm].
  rewrite break_at_self, split_fuel_none by (apply slash_no_occ, Hdr).
  rewrite str_app_nil_r. reflexivity.
Qed.

(** The steps of the two endpoints *)

Lemma quarantine_one_moved (qp : option string) (date cwd : string) (fid fid' : Z)
    (st st1 : cstate) (orig dest : string) :
  quarantine_one qp date cwd fid st = (Moved fid' orig dest, st1) ->
  exists r did mount rel st',
    st.(files) !! fid = Some r /\ st.(roots) !! r.(root_id) = Some did /\
    st.(drives) !! did = Some mount /\ orig = r.(path) /\
    relpath cwd r.(path) mount = Some rel /\
    dest = join (match qp with
                 | Some q => if truthy qp then q else join mount [".quarantine"; date]
                 | None => join mount [".quarantine"; date]
                 end) [rel] /\
    move r.(path) dest st = Some st' /\
    st1 = set_file fid (mkFile r.(root_id) dest "quarantined") st'.
Proof.
  unfold quarantine_one.
  destruct (files st !! fid) as [r|] eqn:H1; [|discriminate].
  destruct (roots st !! root_id r) as [did|] eqn:H2; [|discriminate].
  destruct (drives st !! did) as [mount|] eqn:H3; [|discriminate].
  destruct (negb _); [discriminate|].
  destruct (relpath cwd (path r) mount) as [rel|] eqn:H4; [|discriminate].
  destruct (move _ _ st) as [st'|] eqn:Hm; [|discriminate].
  intros [= <- <- <- <-].
  exists r, did, mount, rel, st'. repeat split; try reflexivity; assumption.
Qed.

Lemma quarantine_files_one (qp : option string) (date cwd : string) (fid : Z)
    (st st1 : cstate) (o : outcome) (os : list outcome) :
  quarantine_files [fid] qp date cwd st = Some (os, st1) ->
  os = [o] -> quarantine_one qp date cwd fid st = (o, st1).
Proof.
  unfold quarantine_files. cbn [run_ids].
  destruct (quarantine_one qp date cwd fid st) as [o1 s1].
  intros [= <- <-] [= ->]. reflexivity.
Qed.

Lemma move_inv (src dst : string) (st st' : cstate) :
  move src dst st = Some st' ->
  st' = mkC st.(files) st.(roots) st.(drives) ({[dst]} ∪ (st.(disk) ∖ {[src]})).
Proof. unfold move. destruct (bool_decide _); congruence. Qed.

Lemma move_some (src dst : string) (st : cstate) :
  src ∈ st.(disk) ->
  move src dst st = Some (mkC st.(files) st.(roots) st.(drives) ({[dst]} ∪ (st.(disk) ∖ {[src]}))).
Proof. intros H. unfold move. rewrite bool_decide_eq_true_2 by exact H. reflexivity. Qed.

Lemma restore_one_split (fid : Z) (st : cstate) (r : file_row) (p0 p1 orig : string) :
  st.(files) !! fid = Some r -> r.(hash_status) = "quarantined" ->
  split ".quarantine" r.(path) = [p0; p1] ->
  join (rstrip_slash p0) (skipn 2 (split "/" p1)) = orig ->
  has_sep orig = true ->
  restore_one fid st =
  match move r.(path) orig st with
  | None => (Error fid "move failed", st)
  | Some st' => (Restored fid orig, set_file fid (mkFile r.(root_id) orig "pending") st')
  end.
Proof.
  intros H1 H2 H3 H4 H5. unfold restore_one.
  rewrite H1, H2, String.eqb_refl, H3. cbv beta iota zeta. rewrite H4, H5. reflexivity.
Qed.

Lemma restore_one_stuck (fid : Z) (st : cstate) (r : file_row) :
  st.(files) !! fid = Some r -> r.(hash_status) = "quarantined" ->
  length (split ".quarantine" r.(path)) <> 2%nat ->
  restore_one fid st = (Error fid "Cannot determine original path", st).
Proof.
  intros H1 H2 H3. unfold restore_one. rewrite H1, H2, String.eqb_refl.
  destruct (split ".quarantine" (path r)) as [|p0 [|p1 [|p2 l]]];
    simpl in H3; try lia; reflexivity.
Qed.

(** X20: the round trip of quarantine and restore holds under these
    conditions. Take a file whose
    drive is mounted at an absolute path "/m1/.../mk" (at least one
    component, so not the root "/") and whose path is that mount followed
    by "/r1/.../rj" (at least one component), every component and the date
    folder non-empty, free of "/", neither "." nor "..", and free of
    ".quarantine". If [quarantine_files] with the default location moves
    it, restoring it right afterwards reports it restored to its original
    path, with that path back in the catalog row, [hash_status] "pending",
    and the file back on disk there. *)
Theorem default_quarantine_round_trip (ms rs : list string) (date cwd : string)
    (fid did : Z) (st st1 : cstate) (r : file_row) (os : list outcome) (dest : string) :
  ms <> [] -> rs <> [] ->
  List.Forall (fun c => good_comp c = true) (date :: ms ++ rs) ->
  st.(files) !! fid = Some r -> r.(path) = abs_of (ms ++ rs) ->
  st.(roots) !! r.(root_id) = Some did -> st.(drives) !! did = Some (abs_of ms) ->
  quarantine_files [fid] None date cwd st = Some (os, st1) ->
  os = [Moved fid r.(path) dest] ->
  fst (restore_from_quarantine [fid] st1) = [Restored fid r.(path)] /\
  (snd (restore_from_quarantine [fid] st1)).(files) !! fid
    = Some (mkFile r.(root_id) r.(path) "pending") /\
  r.(path) ∈ (snd (restore_from_quarantine [fid] st1)).(disk).
Proof.
  intros Hms Hrs Hall Hr Hpath Hroot Hdrive Hq Hos.
  pose proof (List.Forall_inv Hall) as Hdate. pose proof (List.Forall_inv_tail Hall) as Hmr.
  pose proof (proj1 (List.Forall_app _ _ _) Hmr) as [Hm Hrg].
  pose proof (quarantine_files_one _ _ _ _ _ _ _ _ Hq Hos) as E.
  apply quarantine_one_moved in E
    as (r' & did' & mount & rel & st' & Hr' & Hroot' & Hdrive' & Horig & Hrel & Hdest & Hmove & Hst1).
  rewrite Hr in Hr'. injection Hr' as <-.
  rewrite Hroot in Hroot'. injection Hroot' as <-.
  rewrite Hdrive in Hdrive'. injection Hdrive' as <-.
  rewrite Hpath, relpath_abs in Hrel by assumption. injection Hrel as <-.
  rewrite quarantine_dest in Hdest;
    [|assumption|assumption|apply good_seg_all; assumption
     |apply good_seg_all; constructor; assumption].
  apply move_inv in Hmove. subst st1 st'.
  unfold restore_from_quarantine. cbn [run_ids].
  rewrite (restore_one_split fid _ (mkFile (root_id r) dest "quarantined")
             (abs_of ms +++ "/") ("/" +++ String.concat "/" (date :: rs)) (path r)).
  - rewrite move_some by (simpl; set_solver).
    cbn [fst snd set_file files disk root_id].
    split; [reflexivity|]. split; [apply lookup_insert_eq|set_solver].
  - apply lookup_insert_eq.
  - reflexivity.
  - simpl path. rewrite Hdest. apply split_dest; [assumption|constructor; assumption].
  - rewrite rstrip_snoc, rstrip_id by (apply ends_abs; [assumption|apply good_seg_all, Hm]).
    change ("/" +++ String.concat "/" (date :: rs)) with (abs_of (date :: rs)).
    rewrite split_abs; [|discriminate|].
    + simpl skipn. rewrite Hpath. apply join_abs; [assumption|apply good_seg_all..]; assumption.
    + eapply List.Forall_impl; [|apply good_seg_all; constructor; eassumption].
      intros c Hc. apply (seg_nonempty _ Hc).
  - rewrite Hpath. reflexivity.
Qed.

(** C9: when [quarantine_files] with a caller-supplied [quarantine_path]
    stores a path that [str.split(".quarantine")] does not cut into exactly
    two parts, no number of later restore requests changes the state, and
    each of them reports "Cannot determine original path" for the file. *)
Theorem custom_quarantine_not_restorable (Q date cwd : string) (fid : Z)
    (st st1 : cstate) (orig dest : string) (n : nat) :
  quarantine_files [fid] (Some Q) date cwd st = Some ([Moved fid orig dest], st1) ->
  quarantine_count dest <> 1%nat ->
  restore_times n [fid] st1 = st1 /\
  fst (restore_from_quarantine [fid] (restore_times n [fid] st1))
    = [Error fid "Cannot determine original path"].
Proof.
  intros Hq Hc.
  pose proof (quarantine_files_one _ _ _ _ _ _ _ _ Hq eq_refl) as E.
  apply quarantine_one_moved in E as (r & did & mount & rel & st' & _ & _ & _ & _ & _ & _ & _ & Hst1).
  assert (Hstep : restore_from_quarantine [fid] st1
                  = ([Error fid "Cannot determine original path"], st1)).
  { unfold restore_from_quarantine. cbn [run_ids].
    rewrite (restore_one_stuck fid st1 (mkFile (root_id r) dest "quarantined")).
    - reflexivity.
    - rewrite Hst1. apply lookup_insert_eq.
    - reflexivity.
    - simpl path. intros Hl. apply Hc. unfold quarantine_count. rewrite Hl. reflexivity. }
  assert (Hn : restore_times n [fid] st1 = st1).
  { induction n as [|n IH]; [reflexivity|]. simpl. rewrite Hstep. exact IH. }
  rewrite Hn, Hstep. split; reflexivity.
Qed.

(** A file at "/mnt/d/movies/x.mkv" on the drive mounted at "/mnt/d". *)
Definition movie_row : file_row := mkFile 1 "/mnt/d/movies/x.mkv" "ok".

Definition movie_state : cstate :=
  mkC {[1 := movie_row]} {[1 := 1]} {[1 := "/mnt/d"]} {["/mnt/d/movies/x.mkv"]}.

Definition after_default : list outcome * cstate :=
  default ([], movie_state) (quarantine_files [1] None "2024-01-01" "/home/u" movie_state).

Lemma default_quarantine_round_trip_witness :
  fst (restore_from_quarantine [1] (snd after_default)) = [Restored 1 "/mnt/d/movies/x.mkv"] /\
  (snd (restore_from_quarantine [1] (snd after_default))).(files) !! 1
    = Some (mkFile 1 "/mnt/d/movies/x.mkv" "pending") /\
  "/mnt/d/movies/x.mkv" ∈ (snd (restore_from_quarantine [1] (snd after_default))).(disk).
Proof.
  apply (default_quarantine_round_trip ["mnt"; "d"] ["movies"; "x.mkv"] "2024-01-01" "/home/u"
           1 1 movie_state (snd after_default) movie_row (fst after_default)
           "/mnt/d/.quarantine/2024-01-01/movies/x.mkv").
  - discriminate.
  - discriminate.
  - repeat constructor.
  - reflexivity.
  - reflexivity.
  - reflexivity.
  - reflexivity.
  - vm_compute. reflexivity.
  - vm_compute. reflexivity.
Defined.

Definition after_custom : list outcome * cstate :=
  default ([], movie_state) (quarantine_files [1] (Some "/backup/q") "2024-01-01" "/home/u" movie_state).

Lemma custom_quarantine_not_restorable_witness :
  restore_times 3 [1] (snd after_custom) = snd after_custom /\
  fst (restore_from_quarantine [1] (restore_times 3 [1] (snd after_custom)))
    = [Error 1 "Cannot determine original path"].
Proof.
  apply (custom_quarantine_not_restorable "/backup/q" "2024-01-01" "/home/u" 1 movie_state
           (snd after_custom) "/mnt/d/movies/x.mkv" "/backup/q/movies/x.mkv" 3).
  - vm_compute. reflexivity.
  - vm_compute. discriminate.
Defined.

(** A file whose name contains ".quarantine". *)
Definition odd_state : cstate :=
  mkC {[1 := mkFile 1 "/mnt/d/a.quarantine.mkv" "ok"]} {[1 := 1]} {[1 := "/mnt/d"]}
      {["/mnt/d/a.quarantine.mkv"]}.

(** Two files on the drive mounted at the root "/". *)
Definition root_state : cstate :=
  mkC {[1 := mkFile 1 "/movies/x.mkv" "ok"; 2 := mkFile 1 "/x.mkv" "ok"]} {[1 := 1]} {[1 := "/"]}
      {["/movies/x.mkv"; "/x.mkv"]}.

(** C8 fails: quarantining with the default location and restoring right
    afterwards does not give back the original path.
    - "/mnt/d/a.quarantine.mkv" goes to
      "/mnt/d/.quarantine/2024-01-01/a.quarantine.mkv". The restore
      reports "Cannot determine original path", and the row keeps the
      quarantine path with status "quarantined".
    - On the drive mounted at "/", "/movies/x.mkv" goes to
      "/.quarantine/2024-01-01/movies/x.mkv". The restore moves it to the
      relative path "movies/x.mkv" and writes that path to the row.
    - On the same drive, "/x.mkv" gets restored path "x.mkv". There
      [os.makedirs('')] raises, and the row stays quarantined. *)
Lemma quarantine_in_name_not_restored :
  match quarantine_files [1] None "2024-01-01" "/home/u" odd_state with
  | Some (os, st1) =>
      os = [Moved 1 "/mnt/d/a.quarantine.mkv" "/mnt/d/.quarantine/2024-01-01/a.quarantine.mkv"] /\
      fst (restore_from_quarantine [1] st1) = [Error 1 "Cannot determine original path"] /\
      (snd (restore_from_quarantine [1] st1)).(files) !! 1
        = Some (mkFile 1 "/mnt/d/.quarantine/2024-01-01/a.quarantine.mkv" "quarantined")
  | None => False
  end /\
  match quarantine_files [1; 2] None "2024-01-01" "/home/u" root_state with
  | Some (os, st1) =>
      os = [Moved 1 "/movies/x.mkv" "/.quarantine/2024-01-01/movies/x.mkv";
            Moved 2 "/x.mkv" "/.quarantine/2024-01-01/x.mkv"] /\
      fst (restore_from_quarantine [1; 2] st1)
        = [Restored 1 "movies/x.mkv"; Error 2 makedirs_empty_error] /\
      (snd (restore_from_quarantine [1; 2] st1)).(files) !! 1
        = Some (mkFile 1 "movies/x.mkv" "pending") /\
      (snd (restore_from_quarantine [1; 2] st1)).(files) !! 2
        = Some (mkFile 1 "/.quarantine/2024-01-01/x.mkv" "quarantined")
  | None => False
  end.
Proof. vm_compute. repeat split; reflexivity. Qed.

End CleanupFacts.

(* ================================================================== *)
(** ** Filename and path parsing *)
(* ================================================================== *)

Module ParserFacts2.
Import Parser ParserPath.

Lemma last_dot_app (l1 l2 : list ascii) i acc :
  last_dot (l1 ++ l2) i acc = last_dot l2 (i + length l1)%nat (last_dot l1 i acc).
Proof.
  revert i acc; induction l1 as [|c l1 IH]; intros i acc; simpl.
  - now rewrite Nat.add_0_r.
  - rewrite IH. f_equal. lia.
Qed.

Lemma last_dot_nodot (l : list ascii) i acc :
  ~ In "."%char l -> last_dot l i acc = acc.
Proof.
  revert i acc; induction l as [|c l IH]; intros i acc H; simpl; [reflexivity|].
  destruct (Ascii.eqb_spec c "."%char) as [->|Hc]; [exfalso; apply H; now left|].
  apply IH. intros Hin; apply H; now right.
Qed.

(** Every string either has no '.' or splits at its last '.'. *)
Lemma last_dot_split (s : list ascii) :
  ~ In "."%char s \/
  exists pre ext, s = pre ++ "."%char :: ext /\ ~ In "."%char ext.
Proof.
  induction s as [|c s IH] using rev_ind; [left; intros []|].
  destruct (Ascii.eqb_spec c "."%char) as [->|Hc].
  - right. exists s, []. split; [reflexivity|intros []].
  - destruct IH as [H|(pre & ext & -> & H)].
    + left. intros Hin. apply in_app_or in Hin as [Hin|[Hin|[]]]; [auto|congruence].
    + right. exists pre, (ext ++ [c]). split; [now rewrite <- app_assoc|].
      intros Hin. apply in_app_or in Hin as [Hin|[Hin|[]]]; [auto|congruence].
Qed.

Lemma last_dot_at (pre ext : list ascii) :
  ~ In "."%char ext -> last_dot (pre ++ "."%char :: ext) 0 None = Some (length pre).
Proof.
  intros H. rewrite last_dot_app. simpl. apply last_dot_nodot, H.
Qed.


(** X1: [re.sub(r'\.[^.]+$', '', name)] either cuts off one extension,
    a non-empty dot-free text after the last '.', or leaves the name
    unchanged, and then the name has no such extension. *)
Theorem strip_extension_spec (s : list ascii) :
  (exists ext, ext <> [] /\ ~ In "."%char ext /\ s = strip_extension s ++ "."%char :: ext) \/
  (strip_extension s = s /\
   forall pre ext, s = pre ++ "."%char :: ext -> ext = [] \/ In "."%char ext).
Proof.
  destruct (last_dot_split s) as [H|(pre & ext & -> & H)].
  - right. unfold strip_extension. rewrite last_dot_nodot by exact H.
    split; [reflexivity|]. intros pre ext ->. exfalso. apply H.
    apply in_or_app. right. now left.
  - unfold strip_extension. rewrite last_dot_at by exact H.
    rewrite length_app. simpl.
    destruct ext as [|e ext'].
    + right. match goal with |- context [Nat.ltb ?a ?b] => destruct (Nat.ltb_spec a b) as [Hlt|_] end;
        [simpl in Hlt; lia|].
      split; [reflexivity|]. intros pre' ext2 Heq.
      destruct ext2 as [|x ext2] using rev_ind; [now left|right].
      clear IHext2.
      assert (Hl : pre ++ ["."%char] = (pre' ++ "."%char :: ext2) ++ [x])
        by (rewrite Heq, <- app_assoc; reflexivity).
      apply app_inj_tail in Hl as [_ <-].
      apply in_or_app. right. now left.
    + left. exists (e :: ext'). split; [discriminate|split; [exact H|]].
      match goal with |- context [Nat.ltb ?a ?b] => destruct (Nat.ltb_spec a b) as [_|Hge] end;
        [|simpl in Hge; lia].
      rewrite firstn_app, Nat.sub_diag, firstn_all. simpl. now rewrite app_nil_r.
Qed.


(** Characters a cleaned title is made of. *)
Definition title_char (c : ascii) : bool :=
  negb (is_space c) && negb (Ascii.eqb c "."%char) && negb (Ascii.eqb c "_"%char).

Lemma title_char_cased (c : ascii) :
  implb (is_upper c || is_lower c) (title_char (to_upper c) && title_char (to_lower c)) = true.
Proof.
  destruct c as [[] [] [] [] [] [] [] []]; vm_compute; reflexivity.
Qed.

Lemma title_char_nonspace (c : ascii) : title_char c = true -> is_space c = false.
Proof. unfold title_char. destruct (is_space c); [discriminate|reflexivity]. Qed.

Lemma title_go_length b (w : list ascii) : length (title_go b w) = length w.
Proof. revert b; induction w; intros b; simpl; auto. Qed.

Lemma title_go_chars b (w : list ascii) :
  List.Forall (fun c => title_char c = true) w ->
  List.Forall (fun c => title_char c = true) (title_go b w).
Proof.
  revert b; induction w as [|c w IH]; intros b H; simpl; [constructor|].
  pose proof (List.Forall_inv H) as Hc. pose proof (List.Forall_inv_tail H) as Hw.
  constructor; [|now apply IH].
  pose proof (title_char_cased c) as Hk.
  destruct (is_upper c || is_lower c); [|exact Hc].
  apply andb_prop in Hk as [Hu Hl]. destruct b; assumption.
Qed.

Lemma title_go_space b (w r : list ascii) :
  title_go b (w ++ " "%char :: r) = title_go b w ++ " "%char :: title_go false r.
Proof.
  revert b; induction w as [|c w IH]; intros b; [reflexivity|].
  cbn [app title_go]. now rewrite IH.
Qed.

Lemma title_go_join (ws : list (list ascii)) :
  title_go false (join_with [" "%char] ws) = join_with [" "%char] (map (title_go false) ws).
Proof.
  induction ws as [|w [|w2 ws] IH]; [reflexivity|reflexivity|].
  change (title_go false (w ++ " "%char :: join_with [" "%char] (w2 :: ws)) =
          title_go false w ++ " "%char :: join_with [" "%char] (map (title_go false) (w2 :: ws))).
  rewrite title_go_space. now rewrite IH.
Qed.

(** Words: non-empty lists of title characters. *)
Definition good_word (w : list ascii) : Prop :=
  w <> [] /\ List.Forall (fun c => title_char c = true) w.

Lemma split_ws_go_app (cur w s : list ascii) :
  List.Forall (fun c => is_space c = false) w ->
  split_ws_go cur (w ++ s) = split_ws_go (rev w ++ cur) s.
Proof.
  revert cur; induction w as [|c w IH]; intros cur H; [reflexivity|].
  cbn [app split_ws_go]. rewrite (List.Forall_inv H).
  rewrite IH by exact (List.Forall_inv_tail H). simpl. now rewrite <- app_assoc.
Qed.

Lemma good_word_nonspace (w : list ascii) :
  good_word w -> List.Forall (fun c => is_space c = false) w.
Proof.
  intros [_ H]. eapply List.Forall_impl; [|exact H]. apply title_char_nonspace.
Qed.

Lemma rev_not_nil (w : list ascii) : w <> [] -> rev w <> [].
Proof.
  intros Hne E. apply Hne. apply (f_equal (@rev ascii)) in E.
  rewrite rev_involutive in E. exact E.
Qed.

Lemma split_join (ws : list (list ascii)) :
  List.Forall good_word ws -> split_ws (join_with [" "%char] ws) = ws.
Proof.
  unfold split_ws.
  induction ws as [|w [|w2 ws] IH]; intros H; [reflexivity| |].
  - pose proof (List.Forall_inv H) as Hw. simpl join_with.
    rewrite <- (app_nil_r w) at 1.
    rewrite split_ws_go_app by now apply good_word_nonspace.
    rewrite app_nil_r. destruct Hw as [Hne _]. simpl.
    destruct (rev w) eqn:E; [exfalso; exact (rev_not_nil w Hne E)|].
    rewrite <- E, rev_involutive. reflexivity.
  - pose proof (List.Forall_inv H) as Hw.
    change (split_ws_go [] (w ++ " "%char :: join_with [" "%char] (w2 :: ws)) = w :: w2 :: ws).
    rewrite split_ws_go_app by now apply good_word_nonspace.
    rewrite app_nil_r. cbn [split_ws_go].
    replace (is_space " "%char) with true by reflexivity.
    destruct Hw as [Hne _].
    destruct (rev w) eqn:E; [exfalso; exact (rev_not_nil w Hne E)|].
    rewrite <- E, rev_involutive. f_equal. apply IH. exact (List.Forall_inv_tail H).
Qed.

Lemma split_ws_go_words (P : ascii -> Prop) (cur s : list ascii) :
  List.Forall (fun c => P c /\ is_space c = false) cur -> List.Forall P s ->
  List.Forall (fun w => w <> [] /\ List.Forall (fun c => P c /\ is_space c = false) w)
              (split_ws_go cur s).
Proof.
  revert cur; induction s as [|c s IH]; intros cur Hc Hs; simpl.
  - destruct cur as [|a cur]; constructor; [|constructor].
    split; [apply rev_not_nil; discriminate|].
    now apply List.Forall_rev.
  - pose proof (List.Forall_inv Hs) as Hp. pose proof (List.Forall_inv_tail Hs) as Hs'.
    destruct (is_space c) eqn:Esp.
    + destruct cur as [|a cur]; [now apply IH|].
      constructor; [|now apply IH].
      split; [apply rev_not_nil; discriminate|].
      now apply List.Forall_rev.
    + apply IH; [constructor; [split; assumption|exact Hc]|exact Hs'].
Qed.

Lemma dots_to_spaces_chars (t : list ascii) :
  List.Forall (fun c => Ascii.eqb c "."%char = false /\ Ascii.eqb c "_"%char = false)
              (dots_to_spaces t).
Proof.
  induction t as [|c t IH]; simpl; constructor; [|exact IH].
  destruct (Ascii.eqb c "."%char || Ascii.eqb c "_"%char) eqn:E; [split; reflexivity|].
  apply orb_false_iff in E. exact E.
Qed.

Lemma dots_to_spaces_id (t : list ascii) :
  List.Forall (fun c => title_char c = true \/ c = " "%char) t -> dots_to_spaces t = t.
Proof.
  induction t as [|c t IH]; intros H; [reflexivity|]. simpl.
  rewrite IH by exact (List.Forall_inv_tail H). f_equal.
  destruct (List.Forall_inv H) as [Hc| ->]; [|reflexivity].
  unfold title_char in Hc. apply andb_prop in Hc as [Hc H2]. apply andb_prop in Hc as [_ H1].
  apply negb_true_iff in H1, H2. now rewrite H1, H2.
Qed.

Lemma split_words (t : list ascii) :
  List.Forall good_word (split_ws (dots_to_spaces t)).
Proof.
  pose proof (split_ws_go_words _ [] _ (List.Forall_nil _) (dots_to_spaces_chars t)) as H.
  eapply List.Forall_impl; [|exact H]. intros w [Hne Hw]. split; [exact Hne|].
  eapply List.Forall_impl; [|exact Hw]. intros c [[H1 H2] H3].
  unfold title_char. now rewrite H1, H2, H3.
Qed.

Lemma title_words (ws : list (list ascii)) :
  List.Forall good_word ws -> List.Forall good_word (map (title_go false) ws).
Proof.
  intros H. apply List.Forall_map. eapply List.Forall_impl; [|exact H].
  intros w [Hne Hw]. split; [|now apply title_go_chars].
  intros E. apply (f_equal (@length ascii)) in E. rewrite title_go_length in E.
  destruct w; [congruence|discriminate].
Qed.

Lemma join_chars (ws : list (list ascii)) :
  List.Forall good_word ws ->
  List.Forall (fun c => title_char c = true \/ c = " "%char) (join_with [" "%char] ws).
Proof.
  induction ws as [|w [|w2 ws] IH]; intros H; [constructor| |].
  - destruct (List.Forall_inv H) as [_ Hw]. simpl.
    eapply List.Forall_impl; [|exact Hw]. now left.
  - destruct (List.Forall_inv H) as [_ Hw].
    change (List.Forall (fun c => title_char c = true \/ c = " "%char)
              (w ++ [" "%char] ++ join_with [" "%char] (w2 :: ws))).
    apply List.Forall_app. split; [eapply List.Forall_impl; [|exact Hw]; now left|].
    constructor; [now right|]. apply IH. exact (List.Forall_inv_tail H).
Qed.

Lemma join_cons_app (w : list ascii) ws :
  exists r, join_with [" "%char] (w :: ws) = w ++ r.
Proof.
  destruct ws as [|w2 ws]; [exists []; simpl; now rewrite app_nil_r|].
  eexists; reflexivity.
Qed.

Lemma join_last (ws : list (list ascii)) :
  List.Forall good_word ws ->
  join_with [" "%char] ws = [] \/
  exists l c, join_with [" "%char] ws = l ++ [c] /\ is_space c = false.
Proof.
  induction ws as [|w [|w2 ws] IH]; intros H; [now left| |].
  - destruct (List.Forall_inv H) as [Hne Hw]. right. simpl.
    destruct (exists_last Hne) as (l & c & ->). exists l, c. split; [reflexivity|].
    apply title_char_nonspace.
    apply List.Forall_app in Hw as [_ Hc]. exact (List.Forall_inv Hc).
  - right. destruct IH as [E|(l & c & E & Hc)]; [exact (List.Forall_inv_tail H)| |].
    + destruct (List.Forall_inv (List.Forall_inv_tail H)) as [Hne _].
      destruct (join_cons_app w2 ws) as [r Er]. rewrite Er in E.
      destruct w2; [congruence|discriminate].
    + exists (w ++ " "%char :: l), c. split; [|exact Hc].
      change (w ++ " "%char :: join_with [" "%char] (w2 :: ws) = (w ++ " "%char :: l) ++ [c]).
      rewrite E. now rewrite <- app_assoc.
Qed.

Lemma lstrip_id (l : list ascii) :
  match l with [] => True | c :: _ => is_space c = false end -> lstrip l = l.
Proof. destruct l as [|c l]; [reflexivity|]. simpl. intros ->. reflexivity. Qed.

Lemma strip_join (ws : list (list ascii)) :
  List.Forall good_word ws -> strip (join_with [" "%char] ws) = join_with [" "%char] ws.
Proof.
  intros H. unfold strip.
  rewrite (lstrip_id (join_with [" "%char] ws)).
  - destruct (join_last ws H) as [->|(l & c & -> & Hc)]; [reflexivity|].
    rewrite rev_app_distr. simpl. rewrite Hc. simpl. now rewrite rev_involutive.
  - destruct ws as [|w ws]; [exact I|].
    destruct (List.Forall_inv H) as [Hne Hw].
    destruct (join_cons_app w ws) as [r ->].
    destruct w as [|c w]; [congruence|]. simpl.
    apply title_char_nonspace. exact (List.Forall_inv Hw).
Qed.

Lemma clean_title_words (t : list ascii) :
  clean_title t = join_with [" "%char] (map (title_go false) (split_ws (dots_to_spaces t))).
Proof.
  unfold clean_title. rewrite title_go_join.
  apply strip_join, title_words, split_words.
Qed.

(** X2: a cleaned title contains no '.' and no '_', and it is already in
    the normal form [' '.join(title.split())]: words separated by single
    spaces, no leading or trailing whitespace. *)
Theorem clean_title_normal (t : list ascii) :
  ~ In "."%char (clean_title t) /\ ~ In "_"%char (clean_title t) /\
  join_with [" "%char] (split_ws (clean_title t)) = clean_title t.
Proof.
  rewrite clean_title_words.
  pose proof (title_words _ (split_words t)) as Hw.
  pose proof (join_chars _ Hw) as Hc.
  split; [|split].
  - intros Hin. rewrite List.Forall_forall in Hc. destruct (Hc _ Hin) as [H|H]; [|discriminate].
    discriminate H.
  - intros Hin. rewrite List.Forall_forall in Hc. destruct (Hc _ Hin) as [H|H]; [|discriminate].
    discriminate H.
  - now rewrite split_join.
Qed.


Lemma digits_value_nonneg (s : list ascii) : 0 <= digits_value s.
Proof.
  unfold digits_value.
  assert (H : forall acc, 0 <= acc ->
            0 <= fold_left (fun acc c => 10 * acc + Z.of_nat (nat_of_ascii c - 48)) s acc).
  { induction s as [|c s IH]; intros acc Ha; simpl; [exact Ha|]. apply IH. lia. }
  apply H. lia.
Qed.

Lemma try_tv_some pats name r :
  try_tv pats name = Some r ->
  ptype r = TvEpisode /\ title r <> None /\ year r = None /\
  (exists n, season r = Some n /\ 0 <= n) /\ (exists n, episode r = Some n /\ 0 <= n).
Proof.
  induction pats as [|p pats IH]; simpl; [discriminate|].
  destruct (re_match p name) as [cs|]; [|exact IH].
  intros [= <-]. simpl. split; [reflexivity|split; [discriminate|split; [reflexivity|]]].
  split; eexists; (split; [reflexivity|apply digits_value_nonneg]).
Qed.

Lemma try_movie_some pats name r :
  try_movie pats name = Some r ->
  ptype r = Movie /\ title r <> None /\
  (exists y, year r = Some y /\ 1900 <= y <= 2100) /\ season r = None /\ episode r = None.
Proof.
  induction pats as [|p pats IH]; simpl; [discriminate|].
  destruct (re_match p name) as [cs|]; [|exact IH].
  destruct ((1900 <=? digits_value (group name cs 2)) && (digits_value (group name cs 2) <=? 2100))
    eqn:Hy; [|exact IH].
  intros [= <-]. simpl. apply andb_prop in Hy as [H1 H2]. apply Z.leb_le in H1, H2.
  split; [reflexivity|split; [discriminate|split; [|split; reflexivity]]].
  eexists; split; [reflexivity|lia].
Qed.

Lemma parse_filename_cases (f : string) :
  let r := parse_filename f in
  title r <> None /\
  match ptype r with
  | Movie => (exists y, year r = Some y /\ 1900 <= y <= 2100) /\ season r = None /\ episode r = None
  | TvEpisode => year r = None /\ (exists n, season r = Some n /\ 0 <= n) /\
                 (exists n, episode r = Some n /\ 0 <= n)
  | Unknown => year r = None /\ season r = None /\ episode r = None
  end.
Proof.
  unfold parse_filename.
  destruct (try_tv TV_PATTERNS _) as [r|] eqn:Htv.
  - destruct (try_tv_some _ _ _ Htv) as (-> & Ht & Hy & Hs & He). auto.
  - destruct (try_movie MOVIE_PATTERNS _) as [r|] eqn:Hmv.
    + destruct (try_movie_some _ _ _ Hmv) as (-> & Ht & Hy & Hs & He). auto.
    + simpl. split; [discriminate|auto].
Qed.

(** X4: [parse_filename] always sets a title; a movie has a year in
    [1900, 2100] and no season or episode; a TV episode has a season and
    an episode (non-negative) and no year; an unknown result has none of
    year, season and episode. *)
Theorem parse_filename_shape (f : string) :
  let r := parse_filename f in
  title r <> None /\
  match ptype r with
  | Movie => (exists y, year r = Some y /\ 1900 <= y <= 2100) /\ season r = None /\ episode r = None
  | TvEpisode => year r = None /\ (exists n, season r = Some n /\ 0 <= n) /\
                 (exists n, episode r = Some n /\ 0 <= n)
  | Unknown => year r = None /\ season r = None /\ episode r = None
  end.
Proof. exact (parse_filename_cases f). Qed.

(** X5: [parse_path] returns the parse of the file name unless that parse
    is unknown; the directories can only turn an unknown result into a TV
    episode with a (non-negative) season, a title, and neither an episode
    number nor a year. *)
Theorem parse_path_hint (p : string) :
  parse_path p = parse_filename (path_name p) \/
  (ptype (parse_filename (path_name p)) = Unknown /\
   ptype (parse_path p) = TvEpisode /\ title (parse_path p) <> None /\
   year (parse_path p) = None /\ episode (parse_path p) = None /\
   exists n, season (parse_path p) = Some n /\ 0 <= n).
Proof.
  unfold parse_path.
  destruct (parse_filename_cases (path_name p)) as [Ht Hc].
  destruct (ptype (parse_filename (path_name p))) eqn:Ept; [now left|now left|].
  destruct (re_match SEASON_FOLDER _) as [cs|]; [|now left].
  right. destruct Hc as (Hy & _ & He). simpl.
  split; [reflexivity|split; [reflexivity|split; [|split; [exact Hy|split; [exact He|]]]]].
  - destruct (String.eqb _ _); [exact Ht|discriminate].
  - eexists; split; [reflexivity|apply digits_value_nonneg].
Qed.

Lemma list_ascii_app (a b : string) :
  list_ascii_of_string (a +++ b) = list_ascii_of_string a ++ list_ascii_of_string b.
Proof. induction a as [|c a IH]; simpl; [reflexivity|now rewrite IH]. Qed.

Lemma string_of_list_app (a b : list ascii) :
  string_of_list_ascii (a ++ b) = string_of_list_ascii a +++ string_of_list_ascii b.
Proof. induction a as [|c a IH]; simpl; [reflexivity|now rewrite IH]. Qed.

Lemma rsplit_go_nodot (s acc : list ascii) :
  ~ In "."%char s ->
  fold_left (fun acc c => if Ascii.eqb c "."%char then [] else acc ++ [c]) s acc = acc ++ s.
Proof.
  revert acc; induction s as [|c s IH]; intros acc H; simpl; [now rewrite app_nil_r|].
  destruct (Ascii.eqb_spec c "."%char) as [->|Hc]; [exfalso; apply H; now left|].
  rewrite IH by (intros Hin; apply H; now right). now rewrite <- app_assoc.
Qed.

Lemma rsplit_last_at (pre ext : list ascii) :
  ~ In "."%char ext -> rsplit_last (pre ++ "."%char :: ext) = ext.
Proof.
  intros H. unfold rsplit_last. rewrite fold_left_app. simpl.
  now rewrite rsplit_go_nodot.
Qed.

Lemma existsb_dot (s : list ascii) :
  existsb (fun c => Ascii.eqb c "."%char) s = true <-> In "."%char s.
Proof.
  rewrite existsb_exists. split.
  - intros (x & Hx & E). apply Ascii.eqb_eq in E. now subst.
  - intros H. exists "."%char. split; [exact H|reflexivity].
Qed.

(** X6: [is_video_file] holds exactly for paths that end in a '.'
    followed by a dot-free extension whose lower-cased form is one of
    [VIDEO_EXTENSIONS]; a path without '.' is never a video. *)
Theorem is_video_file_spec (fp : string) :
  is_video_file fp = true <->
  exists base ext, fp = base +++ "." +++ ext /\ ~ In "."%char (list_ascii_of_string ext) /\
                   In (str (map to_lower (list_ascii_of_string ext))) VIDEO_EXTENSIONS.
Proof.
  unfold is_video_file. split.
  - destruct (existsb _ (list_ascii_of_string fp)) eqn:Ed; [|vm_compute; discriminate].
    apply existsb_dot in Ed.
    destruct (last_dot_split (list_ascii_of_string fp)) as [H|(pre & ext & E & H)];
      [contradiction|].
    rewrite E, rsplit_last_at by exact H.
    intros Hin. apply existsb_exists in Hin as (x & Hx & Hxe). apply String.eqb_eq in Hxe.
    exists (string_of_list_ascii pre), (string_of_list_ascii ext).
    rewrite !list_ascii_of_string_of_list_ascii.
    split; [|split; [exact H|now rewrite Hxe]].
    rewrite <- (string_of_list_ascii_of_string fp), E, string_of_list_app. reflexivity.
  - intros (base & ext & -> & H & Hin).
    rewrite !list_ascii_app.
    change (list_ascii_of_string ".") with ["."%char]. simpl app.
    rewrite (proj2 (existsb_dot _)) by (apply in_or_app; right; now left).
    rewrite rsplit_last_at by exact H.
    apply existsb_exists. exists (str (map to_lower (list_ascii_of_string ext))).
    split; [exact Hin|apply String.eqb_refl].
Qed.

End ParserFacts2.

(* ================================================================== *)
(** ** Merging and splitting items *)
(* ================================================================== *)

Module MatcherOpsFacts.
Import Matcher Parser ParserPath MatcherOps.

(** The link rows [merge_items target source_ids] moves, and where. *)
Definition merged_away (t : Z) (ss : list Z) (l : link) : bool :=
  bool_decide (l.(li_item) ∈ ss) && negb (Z.eqb l.(li_item) t).

Definition merge_link (t : Z) (ss : list Z) (l : link) : link :=
  if merged_away t ss l then mkLink t l.(li_file) l.(li_primary) else l.

Lemma merged_away_cons_t t ss l : merged_away t (t :: ss) l = merged_away t ss l.
Proof.
  unfold merged_away. destruct (Z.eqb_spec l.(li_item) t) as [->|Hne]; [now rewrite !andb_false_r|].
  rewrite !andb_true_r. apply bool_decide_ext. rewrite elem_of_cons. intuition.
Qed.

Lemma merged_away_cons t s ss l :
  s <> t ->
  merged_away t (s :: ss) l =
  Z.eqb l.(li_item) s || merged_away t ss (if Z.eqb l.(li_item) s then mkLink t l.(li_file) l.(li_primary) else l).
Proof.
  intros Hst. unfold merged_away.
  destruct (Z.eqb_spec l.(li_item) s) as [->|Hne]; simpl.
  - replace (Z.eqb s t) with false by (symmetry; apply Z.eqb_neq; exact Hst).
    rewrite andb_true_r. apply bool_decide_eq_true_2. apply elem_of_cons. now left.
  - f_equal. apply bool_decide_ext. rewrite elem_of_cons. intuition.
Qed.

Lemma count_merged t s ss ls :
  s <> t ->
  length (List.filter (merged_away t (s :: ss)) ls) =
  (length (List.filter (fun l => Z.eqb l.(li_item) s) ls) +
   length (List.filter (merged_away t ss) (relabel t s ls)))%nat.
Proof.
  intros Hst. induction ls as [|l ls IH]; [reflexivity|]. simpl.
  rewrite (merged_away_cons t s ss l Hst).
  destruct (Z.eqb_spec l.(li_item) s) as [Hs|Hs]; simpl.
  - replace (merged_away t ss (mkLink t l.(li_file) l.(li_primary))) with false.
    + rewrite IH. reflexivity.
    + unfold merged_away. simpl. now rewrite Z.eqb_refl, andb_false_r.
  - destruct (merged_away t ss l); simpl; rewrite IH; lia.
Qed.

Lemma map_merged t s ss ls :
  s <> t ->
  map (merge_link t ss) (relabel t s ls) = map (merge_link t (s :: ss)) ls.
Proof.
  intros Hst. unfold relabel. rewrite map_map. apply map_ext. intros l.
  unfold merge_link at 2. rewrite (merged_away_cons t s ss l Hst).
  destruct (Z.eqb_spec l.(li_item) s) as [Hs|Hs]; simpl.
  - unfold merge_link, merged_away. simpl. now rewrite Z.eqb_refl, andb_false_r.
  - reflexivity.
Qed.

Lemma merged_away_nil t l : merged_away t [] l = false.
Proof.
  unfold merged_away. rewrite bool_decide_eq_false_2; [reflexivity|].
  apply not_elem_of_nil.
Qed.

Lemma merge_link_nil t l : merge_link t [] l = l.
Proof.
  unfold merge_link, merged_away. rewrite bool_decide_eq_false_2; [reflexivity|].
  apply not_elem_of_nil.
Qed.

Lemma merge_link_file t ss l : (merge_link t ss l).(li_file) = l.(li_file).
Proof. unfold merge_link. now destruct (merged_away t ss l). Qed.

Lemma merge_loop_spec t ss moved d :
  let '(m, d1) := merge_loop t ss moved d in
  m = moved + Z.of_nat (length (List.filter (merged_away t ss) d.(links))) /\
  d1.(links) = map (merge_link t ss) d.(links) /\
  d1.(file_paths) = d.(file_paths) /\
  forall i, d1.(items) !! i =
            if bool_decide (i ∈ ss) && negb (Z.eqb i t) then None else d.(items) !! i.
Proof.
  revert moved d; induction ss as [|s ss IH]; intros moved d; cbn [merge_loop].
  - split; [|split; [|split; [reflexivity|]]].
    + replace (List.filter (merged_away t []) d.(links)) with (@nil link); [simpl; lia|].
      induction d.(links) as [|l ls IHl]; [reflexivity|].
      cbn [List.filter]. now rewrite merged_away_nil.
    + erewrite map_ext; [symmetry; apply map_id|]. apply merge_link_nil.
    + intros i. rewrite bool_decide_eq_false_2 by apply not_elem_of_nil. reflexivity.
  - destruct (Z.eqb_spec s t) as [->|Hst].
    + specialize (IH moved d). destruct (merge_loop t ss moved d) as [m d1].
      destruct IH as (Hm & Hl & Hf & Hi).
      split; [|split; [|split; [exact Hf|]]].
      * rewrite Hm. f_equal. f_equal. f_equal. apply filter_ext. intros l.
        symmetry. apply merged_away_cons_t.
      * rewrite Hl. apply map_ext. intros l. unfold merge_link. now rewrite merged_away_cons_t.
      * intros i. rewrite Hi. destruct (Z.eqb_spec i t) as [->|Hit]; [now rewrite !andb_false_r|].
        rewrite !andb_true_r.
        rewrite (bool_decide_ext (i ∈ t :: ss) (i ∈ ss)); [reflexivity|].
        rewrite elem_of_cons. intuition.
    + specialize (IH (moved + count_item s d.(links))
                     (mkMdb (delete s d.(items)) (relabel t s d.(links)) d.(file_paths))).
      destruct (merge_loop _ _ _ _) as [m d1]. destruct IH as (Hm & Hl & Hf & Hi). simpl in *.
      split; [|split; [|split; [exact Hf|]]].
      * rewrite Hm. unfold count_item. rewrite (count_merged t s ss _ Hst). lia.
      * rewrite Hl. now apply map_merged.
      * intros i. rewrite Hi. destruct (Z.eqb_spec i s) as [->|His].
        -- rewrite lookup_delete_eq. replace (Z.eqb s t) with false by (symmetry; now apply Z.eqb_neq).
           rewrite (bool_decide_eq_true_2 (s ∈ s :: ss)) by (apply elem_of_cons; now left).
           destruct (bool_decide (s ∈ ss)); reflexivity.
        -- rewrite lookup_delete_ne by congruence.
           rewrite (bool_decide_ext (i ∈ s :: ss) (i ∈ ss)); [reflexivity|].
           rewrite elem_of_cons. intuition.
Qed.

Lemma merge_items_h t ss d it :
  d.(items) !! t = Some it ->
  let '(r, d') := merge_items t ss d in
  r = Merged t (Z.of_nat (length (List.filter (merged_away t ss) d.(links))))
             (Z.of_nat (length ss)) /\
  d'.(links) = map (merge_link t ss) d.(links) /\
  d'.(file_paths) = d.(file_paths) /\
  d'.(items) !! t = Some (with_status Verified it) /\
  forall i, i <> t -> d'.(items) !! i = if bool_decide (i ∈ ss) then None else d.(items) !! i.
Proof.
  intros Ht. unfold merge_items. rewrite Ht.
  pose proof (merge_loop_spec t ss 0 d) as H.
  destruct (merge_loop t ss 0 d) as [m d1]. destruct H as (Hm & Hl & Hf & Hi).
  unfold set_item_status. rewrite (Hi t), Z.eqb_refl, andb_false_r, Ht. simpl.
  split; [now rewrite Hm|split; [exact Hl|split; [exact Hf|split]]].
  - apply lookup_insert_eq.
  - intros i Hit. rewrite lookup_insert_ne by congruence. rewrite Hi.
    replace (Z.eqb i t) with false by (symmetry; now apply Z.eqb_neq).
    now rewrite andb_true_r.
Qed.


Lemma count_item_app x l1 l2 : count_item x (l1 ++ l2) = count_item x l1 + count_item x l2.
Proof. unfold count_item. rewrite List.filter_app, length_app. lia. Qed.

Lemma count_item_cons x l ls :
  count_item x (l :: ls) = (if Z.eqb l.(li_item) x then 1 else 0) + count_item x ls.
Proof. unfold count_item. simpl. destruct (Z.eqb l.(li_item) x); simpl length; lia. Qed.

Lemma count_item_none x ls : List.Forall (fun l => l.(li_item) <> x) ls -> count_item x ls = 0.
Proof.
  induction ls as [|l ls IH]; intros H; [reflexivity|].
  rewrite count_item_cons, IH by exact (List.Forall_inv_tail H).
  replace (Z.eqb l.(li_item) x) with false by (symmetry; apply Z.eqb_neq; exact (List.Forall_inv H)).
  reflexivity.
Qed.

Lemma count_item_nonneg x ls : 0 <= count_item x ls.
Proof. unfold count_item. lia. Qed.

Definition move_file_link (fid nid : Z) (l : link) : link :=
  if Z.eqb l.(li_file) fid then mkLink nid fid true else l.

Lemma move_file_link_other fid nid ls :
  ~ In fid (map li_file ls) -> map (move_file_link fid nid) ls = ls.
Proof.
  induction ls as [|l ls IH]; intros H; [reflexivity|]. simpl in *.
  unfold move_file_link at 1. destruct (Z.eqb_spec l.(li_file) fid) as [E|E]; [tauto|].
  f_equal. apply IH. tauto.
Qed.

Lemma map_li_file_move fid nid ls :
  map li_file (map (move_file_link fid nid) ls) = map li_file ls.
Proof.
  rewrite map_map. apply map_ext. intros l. unfold move_file_link.
  destruct (Z.eqb_spec l.(li_file) fid); simpl; congruence.
Qed.

Lemma split_file_h fid nid d :
  List.NoDup (map li_file d.(links)) -> d.(items) !! nid = None ->
  List.Forall (fun l => l.(li_item) <> nid) d.(links) ->
  match split_file fid nid d with
  | (SplitError _, d') => d' = d
  | (SplitOk old nid' f, d') =>
      nid' = nid /\ f = fid /\
      (exists pr p, In (mkLink old fid pr) d.(links) /\ d.(file_paths) !! fid = Some p /\
         d'.(items) !! nid = Some (mkMI (parse_path p).(ptype) (parse_path p).(title)
                                        (parse_path p).(year) (parse_path p).(season)
                                        (parse_path p).(episode) Verified)) /\
      (forall i, i <> nid -> d'.(items) !! i = d.(items) !! i) /\
      In (mkLink nid fid true) d'.(links) /\ count_item nid d'.(links) = 1 /\
      count_item old d'.(links) = count_item old d.(links) - 1 /\
      1 <= count_item old d'.(links) /\
      map li_file d'.(links) = map li_file d.(links) /\ d'.(file_paths) = d.(file_paths)
  end.
Proof.
  intros Hnd Hn Hfr. unfold split_file.
  destruct (List.find _ d.(links)) as [row|] eqn:Ef; [|reflexivity].
  apply find_some in Ef as [Hin Hf]. apply Z.eqb_eq in Hf.
  destruct (Z.eqb_spec (count_item row.(li_item) d.(links)) 1) as [E1|E1]; [reflexivity|].
  destruct (d.(file_paths) !! fid) as [p|] eqn:Ep; [|reflexivity].
  destruct (in_split _ _ Hin) as (l1 & l2 & El).
  assert (Hno : ~ In fid (map li_file (l1 ++ l2))).
  { rewrite El, map_app in Hnd. simpl in Hnd. apply NoDup_remove_2 in Hnd.
    rewrite map_app, <- Hf. exact Hnd. }
  rewrite map_app in Hno.
  assert (H1 : ~ In fid (map li_file l1)) by (intros H; apply Hno, in_or_app; now left).
  assert (H2 : ~ In fid (map li_file l2)) by (intros H; apply Hno, in_or_app; now right).
  assert (Em : map (move_file_link fid nid) d.(links) = l1 ++ mkLink nid fid true :: l2).
  { rewrite El, map_app. simpl. rewrite !move_file_link_other by assumption.
    unfold move_file_link at 1. now rewrite Hf, Z.eqb_refl. }
  change (map (fun l => if Z.eqb l.(li_file) fid then mkLink nid fid true else l) d.(links))
    with (map (move_file_link fid nid) d.(links)).
  rewrite El in Hfr. apply List.Forall_app in Hfr as [Hf1 Hf2].
  pose proof (List.Forall_inv Hf2) as Hrow. pose proof (List.Forall_inv_tail Hf2) as Hf2'.
  assert (Hc : count_item row.(li_item) d.(links) =
               count_item row.(li_item) l1 + 1 + count_item row.(li_item) l2).
  { rewrite El, count_item_app, count_item_cons, Z.eqb_refl. lia. }
  simpl. split; [reflexivity|split; [reflexivity|split; [|split; [|split; [|split; [|split; [|split; [|split]]]]]]]].
  - exists row.(li_primary), p. split; [|split; [reflexivity|apply lookup_insert_eq]].
    rewrite <- Hf. destruct row; exact Hin.
  - intros i Hi. now apply lookup_insert_ne.
  - rewrite Em. apply in_or_app. right. now left.
  - rewrite Em, count_item_app, count_item_cons, Z.eqb_refl, !count_item_none by assumption.
    reflexivity.
  - rewrite Em, count_item_app, count_item_cons.
    cbn [li_item]. replace (Z.eqb nid row.(li_item)) with false by (symmetry; apply Z.eqb_neq; congruence).
    change (if false then 1 else 0) with 0.
    lia.
  - rewrite Em, count_item_app, count_item_cons.
    cbn [li_item]. replace (Z.eqb nid row.(li_item)) with false by (symmetry; apply Z.eqb_neq; congruence).
    change (if false then 1 else 0) with 0.
    pose proof (count_item_nonneg row.(li_item) l1). pose proof (count_item_nonneg row.(li_item) l2).
    lia.
  - apply map_li_file_move.
  - reflexivity.
Qed.

(** X7: when the target item exists, [merge_items] re-points every link
    of a listed source item (other than the target) to the target and
    changes no other link, so no file gains or loses a link; it deletes
    those source items, marks the target [verified], reports as
    [files_moved] the number of links it re-pointed and as [items_merged]
    the length of [source_ids] (the target and repeated ids included). *)
Theorem merge_items_effect (t : Z) (ss : list Z) (d : mdb) (it : media_item) :
  d.(items) !! t = Some it ->
  let '(r, d') := merge_items t ss d in
  r = Merged t (Z.of_nat (length (List.filter (merged_away t ss) d.(links))))
             (Z.of_nat (length ss)) /\
  d'.(links) = map (merge_link t ss) d.(links) /\
  map li_file d'.(links) = map li_file d.(links) /\
  d'.(items) !! t = Some (with_status Verified it) /\
  forall i, i <> t -> d'.(items) !! i = if bool_decide (i ∈ ss) then None else d.(items) !! i.
Proof.
  intros Ht. pose proof (merge_items_h t ss d it Ht) as H.
  destruct (merge_items t ss d) as [r d']. destruct H as (Hr & Hl & _ & Hi & Ho).
  split; [exact Hr|split; [exact Hl|split; [|split; assumption]]].
  rewrite Hl, map_map. apply map_ext. apply merge_link_file.
Qed.

(** X8: on a catalog where every file has at most one link and [new_id]
    is an unused item id, [split_file] either refuses and changes nothing,
    or moves the file's only link to a new [verified] item [new_id] built
    from [parse_path] of the file's path, which then has exactly that one
    file, while the old item keeps its other files (at least one). *)
Theorem split_file_effect (fid new_id : Z) (d : mdb) :
  List.NoDup (map li_file d.(links)) -> d.(items) !! new_id = None ->
  List.Forall (fun l => l.(li_item) <> new_id) d.(links) ->
  match split_file fid new_id d with
  | (SplitError _, d') => d' = d
  | (SplitOk old nid f, d') =>
      nid = new_id /\ f = fid /\
      (exists pr p, In (mkLink old fid pr) d.(links) /\ d.(file_paths) !! fid = Some p /\
         d'.(items) !! new_id = Some (mkMI (parse_path p).(ptype) (parse_path p).(title)
                                           (parse_path p).(year) (parse_path p).(season)
                                           (parse_path p).(episode) Verified)) /\
      (forall i, i <> new_id -> d'.(items) !! i = d.(items) !! i) /\
      In (mkLink new_id fid true) d'.(links) /\ count_item new_id d'.(links) = 1 /\
      count_item old d'.(links) = count_item old d.(links) - 1 /\
      1 <= count_item old d'.(links) /\
      map li_file d'.(links) = map li_file d.(links)
  end.
Proof.
  intros Hnd Hn Hfr. pose proof (split_file_h fid new_id d Hnd Hn Hfr) as H.
  destruct (split_file fid new_id d) as [[msg|old nid f] d']; [exact H|].
  destruct H as (H1 & H2 & H3 & H4 & H5 & H6 & H7 & H8 & H9 & _).
  repeat split; assumption.
Qed.


Lemma in_unique_key {A} (g : A -> Z) (ls : list A) a b :
  List.NoDup (map g ls) -> In a ls -> In b ls -> g a = g b -> a = b.
Proof.
  induction ls as [|x ls IH]; intros Hnd Ha Hb E; [destruct Ha|].
  simpl in Hnd. apply List.NoDup_cons_iff in Hnd as [Hx Hnd].
  destruct Ha as [<-|Ha], Hb as [<-|Hb]; auto.
  - exfalso. apply Hx. rewrite E. now apply in_map.
  - exfalso. apply Hx. rewrite <- E. now apply in_map.
Qed.

Lemma find_file_link (ls : list link) (x : link) :
  List.NoDup (map li_file ls) -> In x ls ->
  List.find (fun l => Z.eqb l.(li_file) x.(li_file)) ls = Some x.
Proof.
  intros Hnd Hx. destruct (List.find _ ls) as [y|] eqn:E.
  - apply find_some in E as [Hy Hf]. apply Z.eqb_eq in Hf. f_equal.
    exact (in_unique_key li_file ls y x Hnd Hy Hx Hf).
  - exfalso. apply (find_none _ _ E) in Hx. now rewrite Z.eqb_refl in Hx.
Qed.

Lemma count_merge_one t s ls :
  s <> t -> count_item t (map (merge_link t [s]) ls) = count_item s ls + count_item t ls.
Proof.
  intros Hst. induction ls as [|l ls IH]; [reflexivity|].
  simpl map. rewrite !count_item_cons, IH.
  unfold merge_link, merged_away.
  destruct (Z.eqb_spec l.(li_item) t) as [Ht|Ht].
  - rewrite Ht. replace (Z.eqb t s) with false by (symmetry; apply Z.eqb_neq; congruence).
    rewrite andb_false_r. simpl. rewrite Ht, Z.eqb_refl. lia.
  - rewrite andb_true_r. destruct (Z.eqb_spec l.(li_item) s) as [->|Hs].
    + rewrite bool_decide_eq_true_2 by (apply list_elem_of_singleton; reflexivity).
      simpl. rewrite Z.eqb_refl. lia.
    + rewrite bool_decide_eq_false_2 by (rewrite list_elem_of_singleton; exact Hs).
      replace (Z.eqb l.(li_item) t) with false by (symmetry; now apply Z.eqb_neq). lia.
Qed.

Definition split_link (fid nid : Z) (l : link) : link :=
  if Z.eqb l.(li_file) fid then mkLink nid fid true else l.

Lemma split_file_links fid nid d r d' :
  split_file fid nid d = (r, d') ->
  d'.(links) = match r with
               | SplitOk _ _ _ => map (split_link fid nid) d.(links)
               | SplitError _ => d.(links)
               end.
Proof.
  unfold split_file. destruct (List.find _ _) as [row|]; [|intros [= <- <-]; reflexivity].
  destruct (Z.eqb _ 1); [intros [= <- <-]; reflexivity|].
  destruct (d.(file_paths) !! fid); intros [= <- <-]; reflexivity.
Qed.

Lemma filter_split_none fid nid (ls : list link) :
  List.Forall (fun l => l.(li_item) <> nid) ls -> ~ In fid (map li_file ls) ->
  List.filter (fun l => Z.eqb l.(li_item) nid) (map (split_link fid nid) ls) = [].
Proof.
  induction ls as [|l ls IH]; intros Hfr Hni; [reflexivity|].
  simpl in Hni. cbn [map List.filter].
  destruct (Z.eqb_spec l.(li_file) fid) as [E|E]; [tauto|].
  assert (Hs : split_link fid nid l = l)
    by (unfold split_link; replace (Z.eqb l.(li_file) fid) with false
          by (symmetry; now apply Z.eqb_neq); reflexivity).
  rewrite Hs. replace (Z.eqb l.(li_item) nid) with false
    by (symmetry; apply Z.eqb_neq; exact (List.Forall_inv Hfr)).
  apply IH; [exact (List.Forall_inv_tail Hfr)|tauto].
Qed.

Lemma filter_split_one fid nid (ls : list link) :
  List.Forall (fun l => l.(li_item) <> nid) ls -> List.NoDup (map li_file ls) ->
  In fid (map li_file ls) ->
  List.filter (fun l => Z.eqb l.(li_item) nid) (map (split_link fid nid) ls)
    = [mkLink nid fid true].
Proof.
  induction ls as [|l ls IH]; intros Hfr Hnd Hin; [destruct Hin|].
  simpl in Hnd, Hin. apply List.NoDup_cons_iff in Hnd as [Hx Hnd].
  cbn [map List.filter].
  destruct (Z.eqb_spec l.(li_file) fid) as [E|E].
  - assert (Hs : split_link fid nid l = mkLink nid fid true)
      by (unfold split_link; rewrite E, Z.eqb_refl; reflexivity).
    rewrite Hs. cbn [li_item]. rewrite Z.eqb_refl. f_equal. apply filter_split_none.
    + exact (List.Forall_inv_tail Hfr).
    + rewrite <- E. exact Hx.
  - assert (Hs : split_link fid nid l = l)
      by (unfold split_link; replace (Z.eqb l.(li_file) fid) with false
            by (symmetry; now apply Z.eqb_neq); reflexivity).
    rewrite Hs. replace (Z.eqb l.(li_item) nid) with false
      by (symmetry; apply Z.eqb_neq; exact (List.Forall_inv Hfr)).
    apply IH; [exact (List.Forall_inv_tail Hfr)|exact Hnd|].
    destruct Hin as [Hin|Hin]; [congruence|exact Hin].
Qed.

(** X9: merging an item [s] into an item [t] and then splitting a file
    [f] that was linked to [s] (with a fresh id for the new item, each file
    linked once, and at least two files in the two items) succeeds and
    leaves two distinct [verified] items. The link rows after both steps
    are the rows before with [f]'s row moved to the new item and the rows
    of [s] moved to [t]. The new item has exactly one row, the primary
    row of [f]. [t]'s rows are exactly the rows of the other files of
    [s] and [t], with their primary flags. *)
Theorem merge_then_split (t s f new_id : Z) (pr : bool) (p : string) (d : mdb) (it : media_item) :
  d.(items) !! t = Some it -> s <> t -> In (mkLink s f pr) d.(links) ->
  List.NoDup (map li_file d.(links)) -> d.(file_paths) !! f = Some p ->
  new_id <> t ->
  (new_id = s \/ (d.(items) !! new_id = None /\
                  List.Forall (fun l => l.(li_item) <> new_id) d.(links))) ->
  2 <= count_item s d.(links) + count_item t d.(links) ->
  let '(r, d2) := split_file f new_id (snd (merge_items t [s] d)) in
  r = SplitOk t new_id f /\
  d2.(items) !! t = Some (with_status Verified it) /\
  d2.(items) !! new_id = Some (mkMI (parse_path p).(ptype) (parse_path p).(title)
                                    (parse_path p).(year) (parse_path p).(season)
                                    (parse_path p).(episode) Verified) /\
  count_item new_id d2.(links) = 1 /\
  count_item t d2.(links) = count_item s d.(links) + count_item t d.(links) - 1 /\
  map li_file d2.(links) = map li_file d.(links) /\
  d2.(links) = map (fun l => if Z.eqb l.(li_file) f then mkLink new_id f true
                             else merge_link t [s] l) d.(links) /\
  List.filter (fun l => Z.eqb l.(li_item) new_id) d2.(links) = [mkLink new_id f true] /\
  (forall l, In l d.(links) -> l.(li_file) <> f -> (l.(li_item) = s \/ l.(li_item) = t) ->
     In (mkLink t l.(li_file) l.(li_primary)) d2.(links)) /\
  (forall l', In l' d2.(links) -> l'.(li_item) = t ->
     exists l, In l d.(links) /\ l.(li_file) = l'.(li_file) /\ l.(li_primary) = l'.(li_primary) /\
               l.(li_file) <> f /\ (l.(li_item) = s \/ l.(li_item) = t)).
Proof.
  intros Ht Hst Hin Hnd Hp Hnt Hfresh Hcnt.
  pose proof (merge_items_h t [s] d it Ht) as Hm.
  destruct (merge_items t [s] d) as [r1 d1]. simpl snd.
  destruct Hm as (_ & Hl & Hf & Hit & Ho).
  assert (Hfiles : map li_file d1.(links) = map li_file d.(links)).
  { rewrite Hl, map_map. apply map_ext. apply merge_link_file. }
  assert (Hnd1 : List.NoDup (map li_file d1.(links))) by now rewrite Hfiles.
  assert (Hn1 : d1.(items) !! new_id = None).
  { rewrite (Ho new_id Hnt). destruct Hfresh as [->|[Hn _]].
    - rewrite bool_decide_eq_true_2; [reflexivity|]. now apply list_elem_of_singleton.
    - destruct (bool_decide _); [reflexivity|exact Hn]. }
  assert (Hfr1 : List.Forall (fun l => l.(li_item) <> new_id) d1.(links)).
  { rewrite Hl. apply List.Forall_map. apply List.Forall_forall. intros l Hl0.
    unfold merge_link. destruct (merged_away t [s] l) eqn:Es; simpl.
    - congruence.
    - destruct Hfresh as [->|[_ Hf0]].
      + intros E. unfold merged_away in Es. rewrite E in Es.
        replace (Z.eqb s t) with false in Es by (symmetry; now apply Z.eqb_neq).
        rewrite bool_decide_eq_true_2 in Es by now apply list_elem_of_singleton.
        discriminate.
      + rewrite List.Forall_forall in Hf0. exact (Hf0 l Hl0). }
  assert (Hrow : In (mkLink t f pr) d1.(links)).
  { rewrite Hl. replace (mkLink t f pr) with (merge_link t [s] (mkLink s f pr)).
    - now apply in_map.
    - unfold merge_link, merged_away. simpl.
      rewrite bool_decide_eq_true_2 by now apply list_elem_of_singleton.
      replace (Z.eqb s t) with false by (symmetry; now apply Z.eqb_neq). reflexivity. }
  assert (Hc1 : count_item t d1.(links) = count_item s d.(links) + count_item t d.(links)).
  { rewrite Hl. now apply count_merge_one. }
  assert (Hr : fst (split_file f new_id d1) = SplitOk t new_id f).
  { unfold split_file. pose proof (find_file_link _ (mkLink t f pr) Hnd1 Hrow) as Hfind.
    cbn [li_file] in Hfind. rewrite Hfind. cbn [li_item].
    replace (Z.eqb (count_item t d1.(links)) 1) with false by (symmetry; apply Z.eqb_neq; lia).
    rewrite Hf, Hp. reflexivity. }
  pose proof (split_file_h f new_id d1 Hnd1 Hn1 Hfr1) as Hs.
  destruct (split_file f new_id d1) as [r2 d2] eqn:Esp. simpl in Hr. subst r2.
  apply split_file_links in Esp. cbv iota in Esp.
  destruct Hs as (_ & _ & (pr' & p' & _ & Hp' & Hnew) & Hother & _ & Hone & Hold & _ & Hmap & _).
  rewrite Hf, Hp in Hp'. injection Hp' as <-.
  assert (Hl2 : d2.(links) = map (fun l => if Z.eqb l.(li_file) f then mkLink new_id f true
                                           else merge_link t [s] l) d.(links)).
  { rewrite Esp, Hl, map_map. apply map_ext. intros l. unfold split_link.
    rewrite merge_link_file. reflexivity. }
  split; [reflexivity|split; [rewrite Hother by congruence; exact Hit|split; [exact Hnew|]]].
  split; [exact Hone|split; [lia|split; [congruence|split; [exact Hl2|split]]]].
  - rewrite Esp. apply filter_split_one; [exact Hfr1|exact Hnd1|].
    rewrite Hfiles. change f with (li_file (mkLink s f pr)). now apply in_map.
  - split.
    + intros l Hl0 Hlf Hit0. rewrite Hl2. apply in_map_iff. exists l. split; [|exact Hl0].
      replace (Z.eqb l.(li_file) f) with false by (symmetry; now apply Z.eqb_neq).
      unfold merge_link, merged_away.
      destruct Hit0 as [Es|Et].
      * rewrite Es, bool_decide_eq_true_2 by now apply list_elem_of_singleton.
        replace (Z.eqb s t) with false by (symmetry; now apply Z.eqb_neq). reflexivity.
      * rewrite Et, Z.eqb_refl, andb_false_r. destruct l as [li lf lp].
        cbn [li_item] in Et. rewrite Et. reflexivity.
    + intros l' Hl' Hit'. rewrite Hl2 in Hl'. apply in_map_iff in Hl' as (l & <- & Hl0).
      exists l. split; [exact Hl0|].
      destruct (Z.eqb_spec l.(li_file) f) as [E|E]; [cbn [li_item] in Hit'; congruence|].
      split; [symmetry; apply merge_link_file|].
      unfold merge_link, merged_away in Hit' |- *.
      destruct (bool_decide (li_item l ∈ [s])) eqn:Eb;
        destruct (Z.eqb_spec (li_item l) t) as [Et|Et]; cbn [negb andb li_item li_primary] in Hit' |- *;
        repeat split; auto.
      left. apply bool_decide_eq_true_1, list_elem_of_singleton in Eb. exact Eb.
Qed.


Definition show_ep1 : media_item :=
  mkMI TvEpisode (Some "Show") None (Some 1) (Some 1) Auto.
Definition show_ep2 : media_item :=
  mkMI TvEpisode (Some "Show") None (Some 1) (Some 2) NeedsVerification.

(** Item 1 has file 10; item 2 has files 11 and 12. *)
Definition sample_mdb : mdb :=
  mkMdb {[1 := show_ep1; 2 := show_ep2]}
        [mkLink 1 10 true; mkLink 2 11 true; mkLink 2 12 false]
        {[10 := "/tv/Show/Show.S01E01.mkv"; 11 := "/tv/Show/Show.S01E02.mkv";
          12 := "/tv/Show/Season 1/extra.mkv"]}.

Lemma merge_items_effect_witness :
  let '(r, d') := merge_items 1 [2; 1; 2] sample_mdb in
  r = Merged 1 (Z.of_nat (length (List.filter (merged_away 1 [2; 1; 2]) sample_mdb.(links))))
             (Z.of_nat (length [2; 1; 2])) /\
  d'.(links) = map (merge_link 1 [2; 1; 2]) sample_mdb.(links) /\
  map li_file d'.(links) = map li_file sample_mdb.(links) /\
  d'.(items) !! 1 = Some (with_status Verified show_ep1) /\
  forall i, i <> 1 -> d'.(items) !! i =
                      if bool_decide (i ∈ [2; 1; 2]) then None else sample_mdb.(items) !! i.
Proof.
  apply (merge_items_effect 1 [2; 1; 2] sample_mdb show_ep1). reflexivity.
Defined.

Lemma split_file_effect_witness :
  match split_file 12 3 sample_mdb with
  | (SplitError _, d') => d' = sample_mdb
  | (SplitOk old nid f, d') =>
      nid = 3 /\ f = 12 /\
      (exists pr p, In (mkLink old 12 pr) sample_mdb.(links) /\
         sample_mdb.(file_paths) !! 12 = Some p /\
         d'.(items) !! 3 = Some (mkMI (parse_path p).(ptype) (parse_path p).(title)
                                      (parse_path p).(year) (parse_path p).(season)
                                      (parse_path p).(episode) Verified)) /\
      (forall i, i <> 3 -> d'.(items) !! i = sample_mdb.(items) !! i) /\
      In (mkLink 3 12 true) d'.(links) /\ count_item 3 d'.(links) = 1 /\
      count_item old d'.(links) = count_item old sample_mdb.(links) - 1 /\
      1 <= count_item old d'.(links) /\
      map li_file d'.(links) = map li_file sample_mdb.(links)
  end.
Proof.
  apply (split_file_effect 12 3 sample_mdb).
  - repeat constructor; cbn; intuition lia.
  - reflexivity.
  - repeat constructor; cbn; lia.
Defined.

Lemma merge_then_split_witness :
  let '(r, d2) := split_file 12 3 (snd (merge_items 1 [2] sample_mdb)) in
  r = SplitOk 1 3 12 /\
  d2.(items) !! 1 = Some (with_status Verified show_ep1) /\
  d2.(items) !! 3 = Some (mkMI (parse_path "/tv/Show/Season 1/extra.mkv").(ptype)
                               (parse_path "/tv/Show/Season 1/extra.mkv").(title)
                               (parse_path "/tv/Show/Season 1/extra.mkv").(year)
                               (parse_path "/tv/Show/Season 1/extra.mkv").(season)
                               (parse_path "/tv/Show/Season 1/extra.mkv").(episode) Verified) /\
  count_item 3 d2.(links) = 1 /\
  count_item 1 d2.(links) = count_item 2 sample_mdb.(links) + count_item 1 sample_mdb.(links) - 1 /\
  map li_file d2.(links) = map li_file sample_mdb.(links) /\
  d2.(links) = map (fun l => if Z.eqb l.(li_file) 12 then mkLink 3 12 true
                             else merge_link 1 [2] l) sample_mdb.(links) /\
  List.filter (fun l => Z.eqb l.(li_item) 3) d2.(links) = [mkLink 3 12 true] /\
  (forall l, In l sample_mdb.(links) -> l.(li_file) <> 12 -> (l.(li_item) = 2 \/ l.(li_item) = 1) ->
     In (mkLink 1 l.(li_file) l.(li_primary)) d2.(links)) /\
  (forall l', In l' d2.(links) -> l'.(li_item) = 1 ->
     exists l, In l sample_mdb.(links) /\ l.(li_file) = l'.(li_file) /\
               l.(li_primary) = l'.(li_primary) /\
               l.(li_file) <> 12 /\ (l.(li_item) = 2 \/ l.(li_item) = 1)).
Proof.
  apply (merge_then_split 1 2 12 3 false "/tv/Show/Season 1/extra.mkv" sample_mdb show_ep1).
  - reflexivity.
  - lia.
  - right. right. left. reflexivity.
  - repeat constructor; cbn; intuition lia.
  - reflexivity.
  - lia.
  - right. split; [reflexivity|repeat constructor; cbn; lia].
  - vm_compute. discriminate.
Defined.

End MatcherOpsFacts.

(* ================================================================== *)
(** ** Scan pause, resume and cancel *)
(* ================================================================== *)

Module ScannerLoopFacts.
Import Scanner ScannerLoop.

Lemma paused_run_stays (evs : list paused_event) (c : bool) tasks :
  paused_run evs (mkScanner PAUSED c true tasks) =
  mkScanner PAUSED (c || existsb (fun e => match e with ECancel => true | _ => false end) evs)
            true tasks.
Proof.
  revert c; induction evs as [|e evs IH]; intros c; simpl.
  - now rewrite orb_false_r.
  - destruct e; simpl; rewrite IH; f_equal.
    + now rewrite orb_true_r.
Qed.

(** X10: a cancel request for a paused scan is accepted but does not end
    it: whatever further pause and cancel requests and rounds of the wait
    loop follow, the scan stays [PAUSED] in its wait loop; only after
    [resume_scan] does the loop exit, with the state back to [RUNNING]
    and the cancel still pending, so that the scan then ends [CANCELLED]. *)
Theorem cancel_while_paused (s : scanner) (evs : list paused_event) :
  s.(scan_state) = PAUSED -> s.(pause_requested) = true ->
  fst (cancel_scan s) = true /\
  let s2 := paused_run evs (snd (cancel_scan s)) in
  s2.(scan_state) = PAUSED /\ s2.(cancel_requested) = true /\ fst (pause_wait s2) = true /\
  let '(ok, s3) := resume_scan s2 in
  ok = true /\
  pause_wait s3 = (false, mkScanner RUNNING true false s.(scan_tasks)) /\
  (run_scan_finish (snd (pause_wait s3))).(scan_state) = CANCELLED.
Proof.
  destruct s as [st c p tasks]; simpl. intros -> ->.
  split; [reflexivity|]. unfold cancel_scan. simpl. rewrite paused_run_stays. simpl.
  repeat split.
Qed.

(** X11: pausing a running scan and resuming it is a round trip: the
    pause is accepted, the next directory check parks the task in the
    wait loop with state [PAUSED], the resume is accepted, and the loop
    then exits with the scanner exactly as before the pause. *)
Theorem pause_resume_round_trip (s : scanner) :
  s.(scan_state) = RUNNING -> s.(pause_requested) = false -> s.(cancel_requested) = false ->
  let '(ok1, s1) := pause_scan s in
  let s2 := scan_directory_check s1 in
  let '(ok2, s3) := resume_scan s2 in
  ok1 = true /\ s2.(scan_state) = PAUSED /\ fst (pause_wait s2) = true /\ ok2 = true /\
  pause_wait s3 = (false, s).
Proof.
  destruct s as [st c p tasks]; simpl. intros -> -> ->. repeat split.
Qed.

Lemma cancel_while_paused_witness :
  fst (cancel_scan (mkScanner PAUSED false true [(None, NORMAL)])) = true /\
  let s2 := paused_run [EWait; ECancel; EPause; EWait]
                       (snd (cancel_scan (mkScanner PAUSED false true [(None, NORMAL)]))) in
  s2.(scan_state) = PAUSED /\ s2.(cancel_requested) = true /\ fst (pause_wait s2) = true /\
  let '(ok, s3) := resume_scan s2 in
  ok = true /\
  pause_wait s3 = (false, mkScanner RUNNING true false [(None, NORMAL)]) /\
  (run_scan_finish (snd (pause_wait s3))).(scan_state) = CANCELLED.
Proof.
  apply (cancel_while_paused (mkScanner PAUSED false true [(None, NORMAL)])
                             [EWait; ECancel; EPause; EWait]); reflexivity.
Defined.

Lemma pause_resume_round_trip_witness :
  let '(ok1, s1) := pause_scan (mkScanner RUNNING false false [(Some 1, FAST)]) in
  let s2 := scan_directory_check s1 in
  let '(ok2, s3) := resume_scan s2 in
  ok1 = true /\ s2.(scan_state) = PAUSED /\ fst (pause_wait s2) = true /\ ok2 = true /\
  pause_wait s3 = (false, mkScanner RUNNING false false [(Some 1, FAST)]).
Proof.
  apply (pause_resume_round_trip (mkScanner RUNNING false false [(Some 1, FAST)]));
    reflexivity.
Defined.

End ScannerLoopFacts.

(* ================================================================== *)
(** ** Hashing *)
(* ================================================================== *)

Module HasherFacts.
Import Hasher.

Lemma take_z_app (h r : list Byte.byte) n :
  n = Z.of_nat (length h) -> take_z n (h ++ r) = h.
Proof.
  revert n; induction h as [|x h IH]; intros n Hn; simpl in *.
  - subst n. destruct r; reflexivity.
  - destruct (Z.leb_spec n 0); [lia|]. f_equal. apply IH. lia.
Qed.

Lemma drop_z_app (h r : list Byte.byte) n :
  n = Z.of_nat (length h) -> drop_z n (h ++ r) = r.
Proof.
  revert n; induction h as [|x h IH]; intros n Hn; simpl in *.
  - subst n. destruct r; reflexivity.
  - destruct (Z.leb_spec n 0); [lia|]. apply IH. lia.
Qed.

Lemma take_z_all (l : list Byte.byte) n :
  Z.of_nat (length l) <= n -> take_z n l = l.
Proof.
  intros H. rewrite <- (app_nil_r l) at 1.
  revert n H; induction l as [|x l IH]; intros n H; simpl in *; [reflexivity|].
  destruct (Z.leb_spec n 0); [lia|]. f_equal. apply IH. lia.
Qed.

Lemma quick_sig_nonempty a b c : truthy (Some (a +++ ":" +++ b +++ ":" +++ c)) = true.
Proof.
  unfold truthy. destruct a; reflexivity.
Qed.

Lemma hash_file_other md5_hex sha256_hex disk fid db fid' :
  fid' <> fid ->
  snd (hash_file md5_hex sha256_hex disk fid db) !! fid' = db !! fid'.
Proof.
  intros Hne. unfold hash_file.
  destruct (db !! fid) as [r|]; [|reflexivity].
  destruct (_ && _); simpl; rewrite !lookup_insert_ne by congruence; reflexivity.
Qed.

Lemma hash_file_none md5_hex sha256_hex disk fid db :
  db !! fid = None -> snd (hash_file md5_hex sha256_hex disk fid db) = db.
Proof. intros H. unfold hash_file. rewrite H. reflexivity. Qed.

Lemma hash_file_self md5_hex sha256_hex disk fid db r :
  db !! fid = Some r ->
  exists r', snd (hash_file md5_hex sha256_hex disk fid db) !! fid = Some r' /\
    path r' = path r /\
    (hash_status r' = Some "complete"%string \/ hash_status r' = Some "error"%string).
Proof.
  intros H. unfold hash_file. rewrite H.
  destruct (_ && _); simpl; rewrite lookup_insert_eq; eexists; split; eauto.
Qed.

(** The rows a sequence of [hash_file] calls leaves: a touched row keeps
    its path and ends [complete] or [error]; the others stay. *)
Lemma hash_loop_spec md5_hex sha256_hex disk stop q k g db :
  let j := match stop with
           | None => length q
           | Some n => Nat.min (S n - k) (length q)
           end in
  let '(g', db') := hash_loop md5_hex sha256_hex disk stop q k g db in
  hash_queue g' = skipn j q /\
  files_processed g' = files_processed g + Z.of_nat j /\
  files_total g' = files_total g /\
  state g' = state g /\
  forall fid,
    (In fid (firstn j q) -> forall r, db !! fid = Some r ->
       exists r', db' !! fid = Some r' /\ path r' = path r /\
         (hash_status r' = Some "complete"%string \/
          hash_status r' = Some "error"%string)) /\
    (~ In fid (firstn j q) -> db' !! fid = db !! fid) /\
    (db !! fid = None -> db' !! fid = None).
Proof.
  revert k g db; induction q as [|f rest IH]; intros k g db; simpl.
  - destruct stop; simpl; rewrite ?Nat.min_0_r; simpl;
      (split; [reflexivity|]); (split; [lia|]); repeat split; tauto.
  - destruct (stop_now stop k) eqn:Hs.
    + assert (Hj : match stop with
                   | None => S (length rest)
                   | Some n => Nat.min (S n - k) (S (length rest)) end = O).
      { destruct stop as [n|]; simpl in Hs; [|discriminate].
        apply Nat.ltb_lt in Hs. lia. }
      rewrite Hj. simpl. (split; [reflexivity|]); (split; [lia|]).
      repeat split; tauto.
    + set (cur := match db !! f with Some row => Some (path row) | None => current_file g end).
      set (db1 := snd (hash_file md5_hex sha256_hex disk f db)).
      specialize (IH (S k) (mkHG rest (hash_running g) (state g) (files_total g)
                              (files_processed g + 1) cur) db1).
      assert (Hj : match stop with
                   | None => S (length rest)
                   | Some n => Nat.min (S n - k) (S (length rest)) end =
                   S (match stop with
                      | None => length rest
                      | Some n => Nat.min (S n - S k) (length rest) end)).
      { destruct stop as [n|]; simpl in Hs; [|reflexivity].
        apply Nat.ltb_ge in Hs. lia. }
      rewrite Hj.
      remember (match stop with
                | None => length rest
                | Some n => Nat.min (S n - S k) (length rest) end) as j' eqn:Ej.
      clear Ej Hj.
      destruct (hash_loop md5_hex sha256_hex disk stop rest (S k) _ db1) as [g' db'].
      simpl in IH. destruct IH as (Hq & Hp & Ht & Hst & Hrows).
      simpl. split; [exact Hq|]. split; [lia|]. split; [exact Ht|]. split; [exact Hst|].
      intros fid. destruct (Hrows fid) as (Hin & Hout & Hnone).
      destruct (Z.eq_dec fid f) as [E|E].
      * subst fid. split; [|split].
        -- intros _ r Hr. destruct (hash_file_self md5_hex sha256_hex disk f db r Hr)
             as (r1 & Hr1 & Hp1 & _).
           fold db1 in Hr1.
           destruct (in_dec Z.eq_dec f (firstn j' rest)) as [Hi|Hi].
           ++ destruct (Hin Hi r1 Hr1) as (r' & ? & ? & ?). exists r'.
              split; [assumption|]. split; [congruence|assumption].
           ++ rewrite (Hout Hi). destruct (hash_file_self md5_hex sha256_hex disk f db r Hr)
                as (r2 & Hr2 & Hp2 & Hs2). fold db1 in Hr2. exists r2. auto.
        -- intros Hn. exfalso. apply Hn. left. reflexivity.
        -- intros Hn. apply Hnone. unfold db1. rewrite hash_file_none by exact Hn. exact Hn.
      * assert (Hd : db1 !! fid = db !! fid) by (apply hash_file_other; exact E).
        split; [|split].
        -- intros [Hf|Hi]; [congruence|]. intros r Hr. apply Hin; [exact Hi|congruence].
        -- intros Hn. rewrite Hout; [exact Hd|]. intros Hi. apply Hn. right. exact Hi.
        -- intros Hn. apply Hnone. congruence.
Qed.

Lemma skipn_nil_iff {A} (j : nat) (l : list A) :
  (j <= length l)%nat -> (skipn j l = [] <-> j = length l).
Proof.
  intros Hj. split.
  - intros H. pose proof (length_skipn j l) as L. rewrite H in L. simpl in L. lia.
  - intros ->. apply skipn_all.
Qed.

Lemma map_fst_fmap {A} (l : list (Z * A)) : map fst l = l.*1.
Proof. induction l as [|x l IH]; [reflexivity|]. cbn. rewrite IH. reflexivity. Qed.

Lemma queue_pending_spec db g :
  let q := hash_queue (snd (queue_pending_files db g)) in
  List.NoDup q /\
  (forall fid, In fid q <-> exists r, db !! fid = Some r /\ is_pending r = true).
Proof.
  simpl. rewrite map_fst_fmap. split.
  - apply NoDup_ListNoDup, NoDup_fst_map_to_list.
  - intros fid. rewrite <- list_elem_of_In, list_elem_of_fmap. split.
    + intros ([i r] & -> & Hm). apply elem_of_map_to_list in Hm.
      apply map_lookup_filter_Some in Hm. simpl in *. exists r. exact Hm.
    + intros (r & Hr & Hp). exists (fid, r). split; [reflexivity|].
      apply elem_of_map_to_list, map_lookup_filter_Some. simpl. auto.
Qed.

(** X12: for a file of at most [QUICK_SIG_SIZE] bytes the quick signature
    is [size:h:h] with [h] the first 16 hex digits of the MD5 of the whole
    file; for a file made of a first MiB [hd], any middle [m] and a last
    MiB [tl] it is [size:md5(hd)[:16]:md5(tl)[:16]], so the middle bytes
    never enter it. *)
Lemma quick_signature_shape md5_hex disk p b (Hb : disk !! p = Some b) :
  let sz := pretty (Z.of_nat (length b)) in
  (Z.of_nat (length b) <= QUICK_SIG_SIZE ->
     compute_quick_signature md5_hex disk p =
       Some (sz +++ ":" +++ substring 0 16 (md5_hex b) +++ ":" +++
             substring 0 16 (md5_hex b))) /\
  (forall hd m tl, b = hd ++ m ++ tl ->
     Z.of_nat (length hd) = QUICK_SIG_SIZE ->
     Z.of_nat (length tl) = QUICK_SIG_SIZE ->
     compute_quick_signature md5_hex disk p =
       Some (sz +++ ":" +++ substring 0 16 (md5_hex hd) +++ ":" +++
             substring 0 16 (md5_hex tl))).
Proof.
  cbv zeta. unfold compute_quick_signature. rewrite Hb. split.
  - intros Hle. rewrite (take_z_all b QUICK_SIG_SIZE Hle).
    rewrite Z.gtb_ltb. replace (QUICK_SIG_SIZE <? Z.of_nat (length b)) with false
      by (symmetry; apply Z.ltb_ge; exact Hle).
    reflexivity.
  - intros hd m tl Eb Hh Ht. subst b.
    rewrite (take_z_app hd (m ++ tl) QUICK_SIG_SIZE) by lia.
    rewrite Z.gtb_ltb, !length_app.
    replace (QUICK_SIG_SIZE <? Z.of_nat (length hd + (length m + length tl)))
      with true by (symmetry; apply Z.ltb_lt; unfold QUICK_SIG_SIZE in *; lia).
    rewrite app_assoc.
    rewrite (drop_z_app (hd ++ m) tl) by (rewrite length_app; lia).
    rewrite (take_z_all tl QUICK_SIG_SIZE) by lia.
    reflexivity.
Qed.

(** X13: [hash_file] on an id with no row reports "File not found" and
    changes nothing.  On a row whose file is readable it stores the quick
    signature and the SHA-256 and sets the status to [complete]; on a row
    whose file is unreadable it sets [error] and keeps the old
    [quick_sig] and [full_hash]; the [computing] status never remains. *)
Lemma hash_file_outcome md5_hex sha256_hex disk fid db
    (Hsha : forall b, sha256_hex b <> ""%string) :
  match db !! fid with
  | None => hash_file md5_hex sha256_hex disk fid db = (HashError "File not found", db)
  | Some r =>
      match disk !! path r with
      | Some b =>
          exists qs, compute_quick_signature md5_hex disk (path r) = Some qs /\
          hash_file md5_hex sha256_hex disk fid db =
            (HashDone fid (Some qs) (Some (sha256_hex b)) "complete",
             <[fid := mkFileRow (path r) (Some qs) (Some (sha256_hex b))
                        (Some "complete"%string)]> db)
      | None =>
          hash_file md5_hex sha256_hex disk fid db =
            (HashDone fid None None "error", <[fid := set_hash_status "error" r]> db)
      end
  end.
Proof.
  unfold hash_file. destruct (db !! fid) as [r|] eqn:Hr; [|reflexivity].
  destruct (disk !! path r) as [b|] eqn:Hd.
  - unfold compute_quick_signature at 1. rewrite Hd.
    eexists. split; [reflexivity|].
    unfold compute_quick_signature, compute_full_hash. rewrite Hd.
    rewrite quick_sig_nonempty. simpl.
    destruct (String.eqb_spec (sha256_hex b) "") as [E|E]; [exfalso; exact (Hsha b E)|].
    simpl. rewrite insert_insert_eq. reflexivity.
  - unfold compute_quick_signature, compute_full_hash. rewrite Hd. simpl.
    rewrite insert_insert_eq. reflexivity.
Qed.

(** The outcome of a run of the hash queue. *)
Lemma run_hash_queue_spec md5_hex sha256_hex disk stop g db :
  let q := hash_queue g in
  let j := match stop with
           | None => length q
           | Some n => Nat.min (S n) (length q)
           end in
  let '(g', db') := run_hash_queue md5_hex sha256_hex disk stop g db in
  hash_running g' = false /\
  files_total g' = Z.of_nat (length q) /\
  files_processed g' = Z.of_nat j /\
  hash_queue g' = skipn j q /\
  state g' = (if Nat.eqb j (length q) then "complete"%string else "stopped"%string) /\
  current_file g' = None /\
  forall fid,
    (In fid (firstn j q) -> forall r, db !! fid = Some r ->
       exists r', db' !! fid = Some r' /\ path r' = path r /\
         (hash_status r' = Some "complete"%string \/
          hash_status r' = Some "error"%string)) /\
    (~ In fid (firstn j q) -> db' !! fid = db !! fid) /\
    (db !! fid = None -> db' !! fid = None).
Proof.
  cbv zeta. unfold run_hash_queue.
  pose proof (hash_loop_spec md5_hex sha256_hex disk stop (hash_queue g) 0
    (mkHG (hash_queue g) true "running" (Z.of_nat (length (hash_queue g))) 0
          (current_file g)) db) as Hl.
  cbv zeta in Hl.
  assert (Hj : match stop with
               | None => length (hash_queue g)
               | Some n => Nat.min (S n - 0) (length (hash_queue g)) end =
               match stop with
               | None => length (hash_queue g)
               | Some n => Nat.min (S n) (length (hash_queue g)) end)
    by (destruct stop; [rewrite Nat.sub_0_r|]; reflexivity).
  rewrite Hj in Hl.
  assert (Hle : (match stop with
                 | None => length (hash_queue g)
                 | Some n => Nat.min (S n) (length (hash_queue g)) end
                 <= length (hash_queue g))%nat)
    by (destruct stop; lia).
  revert Hl Hle.
  generalize (match stop with
              | None => length (hash_queue g)
              | Some n => Nat.min (S n) (length (hash_queue g)) end) as j.
  intros j Hl Hle.
  destruct (hash_loop md5_hex sha256_hex disk stop (hash_queue g) 0 _ db) as [g1 db1].
  destruct Hl as (Hq & Hp & Ht & _ & Hrows). simpl in Hp, Ht.
  simpl. split; [reflexivity|]. split; [exact Ht|]. split; [lia|].
  split; [exact Hq|]. split; [|split; [reflexivity|exact Hrows]].
  rewrite Hq. pose proof (skipn_nil_iff j (hash_queue g) Hle) as Hiff.
  destruct (skipn j (hash_queue g)) eqn:Hs.
  - rewrite (proj2 (Nat.eqb_eq _ _) (proj1 Hiff eq_refl)). reflexivity.
  - destruct (Nat.eqb_spec j (length (hash_queue g))) as [E|E]; [|reflexivity].
    apply Hiff in E. discriminate.
Qed.

(** X14: a run of the hash queue with no stop request processes every
    queued id; with [stop_hashing] arriving while the file at index [n]
    is hashed it processes [min (n+1) len] ids and leaves the rest queued.
    The state is [complete] exactly when nothing is left (also when the
    stop came during the last file), else [stopped].  Each processed id
    with a row ends [complete] or [error] with its path kept; no other
    row changes and no row is created. *)
Theorem run_hash_queue_effect md5_hex sha256_hex disk stop g db :
  let q := hash_queue g in
  let j := match stop with
           | None => length q
           | Some n => Nat.min (S n) (length q)
           end in
  let '(g', db') := run_hash_queue md5_hex sha256_hex disk stop g db in
  hash_running g' = false /\
  files_total g' = Z.of_nat (length q) /\
  files_processed g' = Z.of_nat j /\
  hash_queue g' = skipn j q /\
  state g' = (if Nat.eqb j (length q) then "complete"%string else "stopped"%string) /\
  current_file g' = None /\
  forall fid,
    (In fid (firstn j q) -> forall r, db !! fid = Some r ->
       exists r', db' !! fid = Some r' /\ path r' = path r /\
         (hash_status r' = Some "complete"%string \/
          hash_status r' = Some "error"%string)) /\
    (~ In fid (firstn j q) -> db' !! fid = db !! fid) /\
    (db !! fid = None -> db' !! fid = None).
Proof. exact (run_hash_queue_spec md5_hex sha256_hex disk stop g db). Qed.

(** X15: [POST /hash/compute] without ids while idle queues exactly the
    pending rows ([hash_status] NULL or [pending]), each once.  With none it
    answers "No pending files"; otherwise it starts a task which, run to
    the end, leaves the state [complete], turns every pending row into
    [complete] or [error] and leaves every other row as it was. *)
Lemma compute_all_pending md5_hex sha256_hex disk g db
    (Hidle : hash_running g = false) :
  let '(resp, g1) := compute_hashes None g db in
  List.NoDup (hash_queue g1) /\
  (forall fid, In fid (hash_queue g1) <->
     exists r, db !! fid = Some r /\ is_pending r = true) /\
  ((hash_queue g1 = [] /\ resp = NoPending) \/
   (hash_queue g1 <> [] /\ resp = Started (Z.of_nat (length (hash_queue g1))) /\
    let '(g2, db2) := run_hash_queue md5_hex sha256_hex disk None g1 db in
    state g2 = "complete"%string /\
    (forall fid, db !! fid = None -> db2 !! fid = None) /\
    (forall fid r, db !! fid = Some r ->
       exists r', db2 !! fid = Some r' /\
         if is_pending r
         then path r' = path r /\
              (hash_status r' = Some "complete"%string \/
               hash_status r' = Some "error"%string)
         else r' = r))).
Proof.
  pose proof (queue_pending_spec db g) as (Hnd & Hin). cbv zeta in Hnd, Hin.
  unfold compute_hashes.
  destruct (queue_pending_files db g) as [cnt g1] eqn:Eq.
  assert (Hc : cnt = Z.of_nat (length (hash_queue g1)) /\ hash_running g1 = false).
  { unfold queue_pending_files in Eq. injection Eq as <- <-. simpl. auto. }
  simpl in Hnd, Hin. destruct Hc as [-> Hr1].
  cbn beta iota zeta.
  destruct (hash_queue g1) as [|x xs] eqn:Hq.
  - change (Z.of_nat (length (@nil Z)) =? 0) with true. cbn beta iota zeta. rewrite Hq. split; [exact Hnd|]. split; [exact Hin|].
    left. split; reflexivity.
  - replace (Z.of_nat (length (x :: xs)) =? 0) with false by (simpl; lia).
    unfold start_hash_computation. rewrite Hr1. cbn beta iota zeta.
    rewrite ?Hq. split; [exact Hnd|]. split; [exact Hin|].
    right. split; [discriminate|]. split; [reflexivity|].
    pose proof (run_hash_queue_spec md5_hex sha256_hex disk None
      (mkHG (x :: xs) (hash_running g1) (state g1) (files_total g1)
            (files_processed g1) (current_file g1)) db) as Hr.
    cbv zeta in Hr. simpl hash_queue in Hr.
    destruct (run_hash_queue md5_hex sha256_hex disk None _ db) as [g2 db2].
    destruct Hr as (_ & _ & _ & _ & Hst & _ & Hrows).
    rewrite Nat.eqb_refl in Hst. split; [exact Hst|].
    rewrite firstn_all in Hrows.
    split; [intros fid Hn; apply (Hrows fid); exact Hn|].
    intros fid r Hr. destruct (Hrows fid) as (Hi & Ho & _).
    destruct (is_pending r) eqn:Hp.
    + assert (Hx : In fid (x :: xs)) by (apply Hin; eauto).
      destruct (Hi Hx r Hr) as (r' & ? & ?). eauto.
    + exists r. split; [|reflexivity]. rewrite Ho; [exact Hr|].
      intros Hx. apply Hin in Hx as (r2 & Hr2 & Hp2).
      congruence.
Qed.

(** X16: while a run is in progress, [POST /hash/compute] with ids answers
    "already running" and changes nothing; without ids it still replaces the
    queue the running task pops from by the pending rows (answering "No
    pending files" when there are none, else "already running"). *)
Lemma compute_while_running g db (Hrun : hash_running g = true) :
  let '(n, g1) := queue_pending_files db g in
  compute_hashes None g db = ((if n =? 0 then NoPending else AlreadyRunning), g1) /\
  hash_running g1 = true /\
  (forall fid, In fid (hash_queue g1) <->
     exists r, db !! fid = Some r /\ is_pending r = true) /\
  (forall l, compute_hashes (Some l) g db = (AlreadyRunning, g)).
Proof.
  pose proof (queue_pending_spec db g) as (_ & Hin). cbv zeta in Hin.
  unfold compute_hashes.
  destruct (queue_pending_files db g) as [cnt g1] eqn:Eq.
  assert (Hr1 : hash_running g1 = true).
  { unfold queue_pending_files in Eq. injection Eq as _ <-. simpl. exact Hrun. }
  simpl in Hin. split; [|split; [exact Hr1|split; [exact Hin|]]].
  - destruct (cnt =? 0); [reflexivity|].
    unfold start_hash_computation. rewrite Hr1. reflexivity.
  - intros l. unfold start_hash_computation. rewrite Hrun. reflexivity.
Qed.

(** X17: [start_hash_computation] while idle succeeds but does not set
    [_hash_running] (only the task does, once it runs): the queue becomes
    the given non-empty id list, or stays the previous queue for [None] or
    an empty list; until the task runs, [stop_hashing] answers [False] and
    changes nothing, and a second start succeeds too. *)
Lemma start_before_task ids ids' g (Hidle : hash_running g = false) :
  let '(ok1, g1) := start_hash_computation ids g in
  ok1 = true /\ hash_running g1 = false /\
  hash_queue g1 = match ids with Some (x :: xs) => x :: xs | _ => hash_queue g end /\
  stop_hashing g1 = (false, g1) /\
  fst (start_hash_computation ids' g1) = true.
Proof.
  unfold start_hash_computation. rewrite Hidle. simpl.
  unfold stop_hashing. simpl. rewrite ?Hidle. repeat split.
Qed.

(** Sample inputs. *)
Definition md5_sample (_ : list Byte.byte) : string :=
  "0123456789abcdef0123456789abcdef".
Definition sha_sample (_ : list Byte.byte) : string :=
  "e3b0c44298fc1c149afbf4c8996fb92427ae41e4649b934ca495991b7852b855".
Definition disk_sample : gmap string (list Byte.byte) :=
  {[ "/m/a.mkv"%string := [Byte.x01; Byte.x02] ]}.
Definition db_sample : gmap Z file_row :=
  {[ 10 := mkFileRow "/m/a.mkv" None None None;
     11 := mkFileRow "/m/gone.mkv" None None (Some "pending"%string);
     12 := mkFileRow "/m/b.mkv" (Some "x"%string) (Some "y"%string) (Some "complete"%string) ]}.
Definition g_idle : hash_globals := mkHG [] false "idle" 0 0 None.

Lemma quick_signature_shape_witness :
  disk_sample !! "/m/a.mkv"%string = Some [Byte.x01; Byte.x02] /\
  compute_quick_signature md5_sample disk_sample "/m/a.mkv" =
    Some ("2:0123456789abcdef:0123456789abcdef"%string).
Proof.
  split; [reflexivity|].
  refine (proj1 (quick_signature_shape md5_sample disk_sample "/m/a.mkv"
            [Byte.x01; Byte.x02] eq_refl) _).
  vm_compute. discriminate.
Defined.

Lemma hash_file_outcome_witness :
  (forall b, sha_sample b <> ""%string) /\
  hash_file md5_sample sha_sample disk_sample 11 db_sample =
    (HashDone 11 None None "error",
     <[11 := set_hash_status "error" (mkFileRow "/m/gone.mkv" None None (Some "pending"%string))]> db_sample).
Proof.
  split; [intros b; discriminate|].
  exact (hash_file_outcome md5_sample sha_sample disk_sample 11 db_sample
           (fun b => ltac:(discriminate))).
Defined.

Lemma compute_all_pending_witness :
  hash_running g_idle = false /\
  let '(resp, g1) := compute_hashes None g_idle db_sample in
  List.NoDup (hash_queue g1) /\
  (forall fid, In fid (hash_queue g1) <->
     exists r, db_sample !! fid = Some r /\ is_pending r = true) /\
  ((hash_queue g1 = [] /\ resp = NoPending) \/
   (hash_queue g1 <> [] /\ resp = Started (Z.of_nat (length (hash_queue g1))) /\
    let '(g2, db2) := run_hash_queue md5_sample sha_sample disk_sample None g1 db_sample in
    state g2 = "complete"%string /\
    (forall fid, db_sample !! fid = None -> db2 !! fid = None) /\
    (forall fid r, db_sample !! fid = Some r ->
       exists r', db2 !! fid = Some r' /\
         if is_pending r
         then path r' = path r /\
              (hash_status r' = Some "complete"%string \/
               hash_status r' = Some "error"%string)
         else r' = r))).
Proof.
  split; [reflexivity|].
  exact (compute_all_pending md5_sample sha_sample disk_sample g_idle db_sample eq_refl).
Defined.

Lemma compute_while_running_witness :
  hash_running (mkHG [10] true "running" 1 0 None) = true /\
  compute_hashes (Some [12]) (mkHG [10] true "running" 1 0 None) db_sample =
    (AlreadyRunning, mkHG [10] true "running" 1 0 None).
Proof.
  split; [reflexivity|].
  exact (proj2 (proj2 (proj2 (compute_while_running (mkHG [10] true "running" 1 0 None)
           db_sample eq_refl))) [12]).
Defined.

Lemma start_before_task_witness :
  hash_running g_idle = false /\
  hash_queue (snd (start_hash_computation (Some []) (mkHG [7] false "stopped" 3 2 None))) = [7].
Proof.
  split; [reflexivity|].
  exact (proj1 (proj2 (proj2 (start_before_task (Some []) None
           (mkHG [7] false "stopped" 3 2 None) eq_refl)))).
Defined.

End HasherFacts.

(* ================================================================== *)
(** ** Quarantine and restore reports *)
(* ================================================================== *)

Module CleanupReportFacts.
Import PyStr Cleanup CleanupReport.

Section RunIds.
Variable step : Z -> cstate -> outcome * cstate.
Variable touched : outcome -> bool.
Variable Q : outcome -> file_row -> file_row -> Prop.
Hypothesis Hstep : forall fid st,
  let '(o, st1) := step fid st in
  outcome_fid o = fid /\ st1.(roots) = st.(roots) /\ st1.(drives) = st.(drives) /\
  (forall g, g <> fid -> st1.(files) !! g = st.(files) !! g) /\
  (touched o = false -> st1.(files) !! fid = st.(files) !! fid) /\
  (touched o = true -> exists r r', st.(files) !! fid = Some r /\
                        st1.(files) !! fid = Some r' /\ Q o r r').

Lemma run_ids_report ids st :
  let '(os, st') := run_ids step ids st in
  map outcome_fid os = ids /\ st'.(roots) = st.(roots) /\ st'.(drives) = st.(drives) /\
  (forall g, (forall o, In o os -> touched o = true -> outcome_fid o <> g) ->
     st'.(files) !! g = st.(files) !! g) /\
  (List.NoDup ids -> forall o, In o os -> touched o = true ->
     exists r r', st.(files) !! outcome_fid o = Some r /\
                  st'.(files) !! outcome_fid o = Some r' /\ Q o r r').
Proof.
  revert st; induction ids as [|fid rest IH]; intros st; simpl.
  - repeat split; try tauto.
  - pose proof (Hstep fid st) as Hs.
    destruct (step fid st) as [o1 st1].
    destruct Hs as (Hid & Hr & Hd & Hoth & Hun & Hto).
    specialize (IH st1).
    destruct (run_ids step rest st1) as [os st2].
    destruct IH as (Hmap & Hr2 & Hd2 & Hun2 & Hto2).
    simpl. split; [congruence|]. split; [congruence|]. split; [congruence|].
    split.
    + intros g Hg. rewrite Hun2.
      * destruct (Z.eq_dec g fid) as [->|E].
        -- apply Hun. destruct (touched o1) eqn:T; [|reflexivity].
           exfalso. exact (Hg o1 (or_introl eq_refl) T Hid).
        -- apply Hoth. exact E.
      * intros o Ho T. exact (Hg o (or_intror Ho) T).
    + intros Hnd o Ho T. apply List.NoDup_cons_iff in Hnd as [Hnin Hnd'].
      destruct Ho as [<-|Ho].
      * destruct (Hto T) as (r & r' & H1 & H2 & HQ).
        exists r, r'. rewrite Hid. split; [exact H1|]. split; [|exact HQ].
        rewrite Hun2; [exact H2|].
        intros o' Ho' _ E. apply Hnin. rewrite <- Hmap, <- E.
        apply in_map. exact Ho'.
      * destruct (Hto2 Hnd' o Ho T) as (r & r' & H1 & H2 & HQ).
        exists r, r'. split; [|split; [exact H2|exact HQ]].
        rewrite <- Hoth; [exact H1|].
        intros E. apply Hnin. rewrite <- E, <- Hmap. apply in_map. exact Ho.
Qed.
End RunIds.

Ltac report_error :=
  simpl; repeat split; intros; try reflexivity; try discriminate; assumption.

Definition is_moved (o : outcome) : bool :=
  match o with Moved _ _ _ => true | _ => false end.

Definition is_restored (o : outcome) : bool :=
  match o with Restored _ _ => true | _ => false end.

Lemma set_file_files fid r st : (set_file fid r st).(files) = <[fid := r]> st.(files).
Proof. reflexivity. Qed.

Lemma move_tables src dst st st' :
  move src dst st = Some st' ->
  st'.(files) = st.(files) /\ st'.(roots) = st.(roots) /\ st'.(drives) = st.(drives).
Proof. unfold move. destruct (bool_decide _); intros H; inversion H; auto. Qed.

Lemma quarantine_one_report qp date cwd fid st :
  let '(o, st1) := quarantine_one qp date cwd fid st in
  outcome_fid o = fid /\ st1.(roots) = st.(roots) /\ st1.(drives) = st.(drives) /\
  (forall g, g <> fid -> st1.(files) !! g = st.(files) !! g) /\
  (is_moved o = false -> st1.(files) !! fid = st.(files) !! fid) /\
  (is_moved o = true -> exists r r', st.(files) !! fid = Some r /\
      st1.(files) !! fid = Some r' /\
      (match o with
       | Moved _ s d => r.(path) = s /\ r' = mkFile r.(root_id) d "quarantined"
       | _ => False
       end)).
Proof.
  unfold quarantine_one.
  destruct (files st !! fid) as [r|] eqn:Hf; [|report_error].
  destruct (roots st !! root_id r) as [did|]; [|report_error].
  destruct (drives st !! did) as [dm|]; [|report_error].
  destruct (bool_decide (path r ∈ disk st)); simpl negb; cbv iota; [|report_error].
  destruct (relpath cwd (path r) dm) as [rel|]; [|report_error].
  match goal with |- context [move ?a ?b st] =>
    destruct (move a b st) as [st'|] eqn:Hm end; [|report_error].
  destruct (move_tables _ _ _ _ Hm) as (Ef & Er & Ed).
  simpl. split; [reflexivity|]. split; [exact Er|]. split; [exact Ed|].
  split; [|split; [discriminate|]].
  - intros g Hg. rewrite lookup_insert_ne by congruence. rewrite Ef. reflexivity.
  - intros _. exists r, (mkFile (root_id r) (join (match qp with
                  | Some q => if truthy qp then q
                              else join dm [".quarantine"; date]
                  | None => join dm [".quarantine"; date]
                  end) [rel]) "quarantined").
    rewrite lookup_insert_eq. repeat split; auto.
Qed.

Lemma restore_one_report fid st :
  let '(o, st1) := restore_one fid st in
  outcome_fid o = fid /\ st1.(roots) = st.(roots) /\ st1.(drives) = st.(drives) /\
  (forall g, g <> fid -> st1.(files) !! g = st.(files) !! g) /\
  (is_restored o = false -> st1.(files) !! fid = st.(files) !! fid) /\
  (is_restored o = true -> exists r r', st.(files) !! fid = Some r /\
      st1.(files) !! fid = Some r' /\
      (match o with
       | Restored _ p => r.(hash_status) = "quarantined" /\
                         r' = mkFile r.(root_id) p "pending"
       | _ => False
       end)).
Proof.
  unfold restore_one.
  destruct (files st !! fid) as [r|] eqn:Hf; [|report_error].
  destruct (String.eqb_spec (hash_status r) "quarantined") as [Hq|Hq];
    [|report_error].
  destruct (split ".quarantine" (path r)) as [|p0 [|p1 [|p2 l]]];
    try report_error.
  match goal with |- context [has_sep ?a] => destruct (has_sep a) end;
    [|report_error].
  match goal with |- context [move ?a ?b st] =>
    destruct (move a b st) as [st'|] eqn:Hm end; [|report_error].
  destruct (move_tables _ _ _ _ Hm) as (Ef & Er & Ed).
  simpl. split; [reflexivity|]. split; [exact Er|]. split; [exact Ed|].
  split; [|split; [discriminate|]].
  - intros g Hg. rewrite lookup_insert_ne by congruence. rewrite Ef. reflexivity.
  - intros _. eexists r, _. rewrite lookup_insert_eq. repeat split; eauto.
Qed.

(** X18: [quarantine_files] answers once per requested id, in request
    order; it never changes the [roots] or [drives] tables nor any row it
    does not report as moved.  With distinct ids, a row reported
    [Moved fid src dst] had path [src] and now has path [dst] and status
    [quarantined], its root kept. *)
Theorem quarantine_files_report ids qp date cwd st os st'
    (Hq : quarantine_files ids qp date cwd st = Some (os, st')) :
  map outcome_fid os = ids /\ st'.(roots) = st.(roots) /\ st'.(drives) = st.(drives) /\
  (forall fid, (forall s d, ~ In (Moved fid s d) os) ->
     st'.(files) !! fid = st.(files) !! fid) /\
  (List.NoDup ids -> forall fid s d, In (Moved fid s d) os ->
     exists r, st.(files) !! fid = Some r /\ r.(path) = s /\
               st'.(files) !! fid = Some (mkFile r.(root_id) d "quarantined")).
Proof.
  unfold quarantine_files in Hq. destruct ids as [|i is]; [discriminate|].
  assert (Hq' : run_ids (quarantine_one qp date cwd) (i :: is) st = (os, st'))
    by (injection Hq; auto).
  pose proof (run_ids_report (quarantine_one qp date cwd) is_moved
    (fun o r r' => match o with
                   | Moved _ s d => r.(path) = s /\ r' = mkFile r.(root_id) d "quarantined"
                   | _ => False
                   end) (quarantine_one_report qp date cwd) (i :: is) st) as Hr.
  rewrite Hq' in Hr. destruct Hr as (Hm & Hro & Hdr & Hun & Hto).
  split; [exact Hm|]. split; [exact Hro|]. split; [exact Hdr|]. split.
  - intros fid Hno. apply Hun. intros o Ho T E.
    destruct o as [f s d|f p|f m]; try discriminate. simpl in E. subst f.
    exact (Hno s d Ho).
  - intros Hnd fid s d Ho.
    destruct (Hto Hnd _ Ho eq_refl) as (r & r' & H1 & H2 & Hp & ->).
    exists r. auto.
Qed.

(** X19: [restore_from_quarantine] answers once per requested id, in
    request order; it never changes the [roots] or [drives] tables nor any
    row it does not report as restored, in particular no row whose status
    is not [quarantined].  With distinct ids, a row reported
    [Restored fid p] was [quarantined] and now has path [p] and status
    [pending], its root kept. *)
Theorem restore_report ids st os st'
    (Hr : restore_from_quarantine ids st = (os, st')) :
  map outcome_fid os = ids /\ st'.(roots) = st.(roots) /\ st'.(drives) = st.(drives) /\
  (forall fid, (forall p, ~ In (Restored fid p) os) ->
     st'.(files) !! fid = st.(files) !! fid) /\
  (List.NoDup ids -> forall fid p, In (Restored fid p) os ->
     exists r, st.(files) !! fid = Some r /\ r.(hash_status) = "quarantined" /\
               st'.(files) !! fid = Some (mkFile r.(root_id) p "pending")).
Proof.
  unfold restore_from_quarantine in Hr.
  pose proof (run_ids_report restore_one is_restored
    (fun o r r' => match o with
                   | Restored _ p => r.(hash_status) = "quarantined" /\
                                     r' = mkFile r.(root_id) p "pending"
                   | _ => False
                   end) restore_one_report ids st) as H.
  rewrite Hr in H. destruct H as (Hm & Hro & Hdr & Hun & Hto).
  split; [exact Hm|]. split; [exact Hro|]. split; [exact Hdr|]. split.
  - intros fid Hno. apply Hun. intros o Ho T E.
    destruct o as [f s d|f p|f m]; try discriminate. simpl in E. subst f.
    exact (Hno p Ho).
  - intros Hnd fid p Ho.
    destruct (Hto Hnd _ Ho eq_refl) as (r & r' & H1 & H2 & Hs & ->).
    exists r. auto.
Qed.

(** Sample tables: file 1 on disk, file 2 gone from disk, file 3 without
    a root row. *)
Definition report_state : cstate :=
  mkC {[1 := mkFile 1 "/mnt/d/movies/x.mkv" "complete";
        2 := mkFile 1 "/mnt/d/movies/y.mkv" "pending";
        3 := mkFile 9 "/mnt/e/z.mkv" "pending"]}
      {[1 := 1]} {[1 := "/mnt/d"]} {["/mnt/d/movies/x.mkv"]}.

Definition report_run : list outcome * cstate :=
  default ([], report_state)
    (quarantine_files [1; 2; 3] None "2024-01-01" "/home/u" report_state).

Lemma quarantine_files_report_witness :
  quarantine_files [1; 2; 3] None "2024-01-01" "/home/u" report_state
    = Some (fst report_run, snd report_run) /\
  map outcome_fid (fst report_run) = [1; 2; 3].
Proof.
  assert (H : quarantine_files [1; 2; 3] None "2024-01-01" "/home/u" report_state
                = Some (fst report_run, snd report_run)) by (vm_compute; reflexivity).
  split; [exact H|].
  exact (proj1 (quarantine_files_report [1; 2; 3] None "2024-01-01" "/home/u"
                  report_state (fst report_run) (snd report_run) H)).
Defined.

Lemma restore_report_witness :
  restore_from_quarantine [2; 1] (snd report_run)
    = (fst (restore_from_quarantine [2; 1] (snd report_run)),
       snd (restore_from_quarantine [2; 1] (snd report_run))) /\
  map outcome_fid (fst (restore_from_quarantine [2; 1] (snd report_run))) = [2; 1].
Proof.
  assert (H : restore_from_quarantine [2; 1] (snd report_run)
    = (fst (restore_from_quarantine [2; 1] (snd report_run)),
       snd (restore_from_quarantine [2; 1] (snd report_run)))) by (vm_compute; reflexivity).
  split; [exact H|].
  exact (proj1 (restore_report [2; 1] (snd report_run) _ _ H)).
Defined.

End CleanupReportFacts.
